(** * job-bot: a shallow embedding of [bot.py] and its specification

    The development follows the layout of [src/bot.py]: text primitives of
    the Python runtime the bot relies on ([str.lower], [in], [str.strip],
    text-mode file reads, [csv.writer], [re.search], the header values of
    an [EmailMessage]), the values produced by
    [response.json()], then the methods of [JobBot] in source order, and
    finally the statements of the specification.

    Text is modelled as [string]; a character stands for a code point in
    U+0000..U+00FF.  Numbers of the JSON payloads are integers. *)

From Stdlib Require Import ZArith Bool Arith Lia List String Ascii DecimalString
  Permutation.
Import ListNotations.

Set Warnings "-register-all".

Local Open Scope list_scope.
Local Open Scope string_scope.

(* ================================================================= *)
(** ** Characters and text primitives *)

Definition LF : ascii := "010"%char.
Definition CR : ascii := "013"%char.
Definition DQUOTE : ascii := "034"%char.
Definition COMMA : ascii := ","%char.

Definition code (c : ascii) : nat := nat_of_ascii c.

Definition in_range (lo hi : nat) (c : ascii) : bool :=
  (lo <=? code c)%nat && (code c <=? hi)%nat.

Definition is_upper_ascii (c : ascii) : bool := in_range 65 90 c.
Definition is_lower_ascii (c : ascii) : bool := in_range 97 122 c.
Definition is_digit (c : ascii) : bool := in_range 48 57 c.

(** [str.lower()] on one code point below U+0100: A-Z and the Latin-1
    capitals U+00C0..U+00DE (the multiplication sign U+00D7 apart). *)
Definition lower_char (c : ascii) : ascii :=
  if is_upper_ascii c || (in_range 192 222 c && negb (code c =? 215)%nat)
  then ascii_of_nat (code c + 32)
  else c.

Fixpoint lower (s : string) : string :=
  match s with
  | EmptyString => EmptyString
  | String c s' => String (lower_char c) (lower s')
  end.

(** [sub in s] for two [str] values. *)
Fixpoint py_in (sub s : string) : bool :=
  if String.prefix sub s then true
  else match s with
       | EmptyString => false
       | String _ s' => py_in sub s'
       end.

(** [str.isspace()] on one code point below U+0100. *)
Definition is_space (c : ascii) : bool :=
  in_range 9 13 c || in_range 28 32 c || (code c =? 133)%nat || (code c =? 160)%nat.

Fixpoint lstrip (s : string) : string :=
  match s with
  | EmptyString => EmptyString
  | String c s' => if is_space c then lstrip s' else s
  end.

Fixpoint rstrip (s : string) : string :=
  match s with
  | EmptyString => EmptyString
  | String c s' =>
      match rstrip s' with
      | EmptyString => if is_space c then EmptyString else String c EmptyString
      | r => String c r
      end
  end.

Definition strip (s : string) : string := rstrip (lstrip s).

(** What [file.read()] returns for a file opened with [open(path, "r")]:
    universal newlines turn CR LF and a lone CR into LF. *)
Fixpoint universal_newlines (s : string) : string :=
  match s with
  | EmptyString => EmptyString
  | String c s' =>
      if Ascii.eqb c CR then
        match s' with
        | String c' s'' =>
            if Ascii.eqb c' LF then String LF (universal_newlines s'')
            else String LF (universal_newlines s')
        | EmptyString => String LF EmptyString
        end
      else String c (universal_newlines s')
  end.

(** [file.readlines()] on text already read: lines keep their LF, a last
    line without LF is a line too. *)
Fixpoint split_lines (cur : string) (s : string) : list string :=
  match s with
  | EmptyString =>
      match cur with EmptyString => [] | _ => [cur] end
  | String c s' =>
      if Ascii.eqb c LF then (cur ++ String LF EmptyString) :: split_lines EmptyString s'
      else split_lines (cur ++ String c EmptyString) s'
  end.

Definition readlines (contents : string) : list string :=
  split_lines EmptyString (universal_newlines contents).

(* ================================================================= *)
(** ** Python values as [response.json()] builds them *)

Inductive pyval : Type :=
| PNone
| PBool (b : bool)
| PInt (z : Z)
| PStr (s : string)
| PList (l : list pyval)
| PDict (items : list (string * pyval)).

(** Truth value of a Python object ([if x], [x or y], [not x]). *)
Definition truthy (v : pyval) : bool :=
  match v with
  | PNone => false
  | PBool b => b
  | PInt z => negb (Z.eqb z 0)
  | PStr s => negb (String.eqb s EmptyString)
  | PList l => match l with [] => false | _ => true end
  | PDict d => match d with [] => false | _ => true end
  end.

(** Exceptions, all of them subclasses of [Exception]. *)
Inductive exn : Type :=
| AttributeError
| TypeError
| KeyError
| ValueError
| ConnectionError
| Timeout
| HTTPError (status_code : nat)
| JSONDecodeError.

Inductive outcome (A : Type) : Type :=
| Raise (e : exn)
| Return (a : A).
Arguments Raise {A} e.
Arguments Return {A} a.

Fixpoint assoc (k : string) (d : list (string * pyval)) : option pyval :=
  match d with
  | [] => None
  | (k', v) :: r => if String.eqb k k' then Some v else assoc k r
  end.

(** [obj.get(key, default)]: only a [dict] has the method. *)
Definition py_get (obj : pyval) (key : string) (default : pyval) : outcome pyval :=
  match obj with
  | PDict d => Return (match assoc key d with Some v => v | None => default end)
  | _ => Raise AttributeError
  end.

Fixpoint chars_of (s : string) : list pyval :=
  match s with
  | EmptyString => []
  | String c s' => PStr (String c EmptyString) :: chars_of s'
  end.

(** [for x in obj]: the items iterated over, or [TypeError]. *)
Definition py_iter (obj : pyval) : outcome (list pyval) :=
  match obj with
  | PList l => Return l
  | PStr s => Return (chars_of s)
  | PDict d => Return (map (fun kv => PStr (fst kv)) d)
  | _ => Raise TypeError
  end.

(** [obj[1:]]. *)
Definition py_slice_from_1 (obj : pyval) : outcome pyval :=
  match obj with
  | PList l => Return (PList (List.tl l))
  | PStr s => Return (PStr (match s with EmptyString => EmptyString | String _ s' => s' end))
  | PDict _ => Raise KeyError
  | _ => Raise TypeError
  end.

(** *** [repr] and [str] *)

Definition hex_digit (n : nat) : ascii :=
  if (n <? 10)%nat then ascii_of_nat (48 + n) else ascii_of_nat (87 + n).

Definition is_printable (c : ascii) : bool :=
  in_range 32 126 c || (in_range 161 255 c && negb (code c =? 173)%nat).

Definition BACKSLASH : ascii := "\"%char.
Definition SQUOTE : ascii := "'"%char.

Fixpoint has_char (c : ascii) (s : string) : bool :=
  match s with
  | EmptyString => false
  | String c' s' => Ascii.eqb c c' || has_char c s'
  end.

Definition repr_char (quote c : ascii) : string :=
  if Ascii.eqb c quote || Ascii.eqb c BACKSLASH then String BACKSLASH (String c EmptyString)
  else if (code c =? 9)%nat then "\t"
  else if Ascii.eqb c LF then "\n"
  else if Ascii.eqb c CR then "\r"
  else if is_printable c then String c EmptyString
  else String BACKSLASH (String "x" (String (hex_digit (code c / 16))
         (String (hex_digit (code c mod 16)) EmptyString))).

Fixpoint repr_chars (quote : ascii) (s : string) : string :=
  match s with
  | EmptyString => EmptyString
  | String c s' => repr_char quote c ++ repr_chars quote s'
  end.

Definition repr_str (s : string) : string :=
  let quote := if has_char SQUOTE s && negb (has_char DQUOTE s) then DQUOTE else SQUOTE in
  String quote (repr_chars quote s ++ String quote EmptyString).

Definition str_int (z : Z) : string := NilZero.string_of_int (Z.to_int z).

Fixpoint py_repr (v : pyval) : string :=
  match v with
  | PNone => "None"
  | PBool true => "True"
  | PBool false => "False"
  | PInt z => str_int z
  | PStr s => repr_str s
  | PList l => "[" ++ String.concat ", " (map py_repr l) ++ "]"
  | PDict d =>
      "{" ++ String.concat ", "
               (map (fun kv => repr_str (fst kv) ++ ": " ++ py_repr (snd kv)) d) ++ "}"
  end.

Definition py_str (v : pyval) : string :=
  match v with
  | PStr s => s
  | _ => py_repr v
  end.

(* ================================================================= *)
(** ** [datetime.now()] and its two renderings *)

Record datetime : Type := {
  year : N; month : N; day : N;
  hour : N; minute : N; second : N; microsecond : N
}.

Definition digit (n : N) : ascii := ascii_of_N (48 + n mod 10).

Definition pad2 (n : N) : string :=
  String (digit (n / 10)) (String (digit n) EmptyString).

Definition pad4 (n : N) : string :=
  String (digit (n / 1000)) (String (digit (n / 100)) (pad2 n)).

Definition pad6 (n : N) : string :=
  String (digit (n / 100000)) (String (digit (n / 10000)) (pad4 n)).

(** [d.isoformat()]: the fraction is left out when it is zero. *)
Definition isoformat (d : datetime) : string :=
  pad4 (year d) ++ "-" ++ pad2 (month d) ++ "-" ++ pad2 (day d) ++ "T" ++
  pad2 (hour d) ++ ":" ++ pad2 (minute d) ++ ":" ++ pad2 (second d) ++
  (if (microsecond d =? 0)%N then EmptyString else "." ++ pad6 (microsecond d)).

(** [d.strftime("%Y-%m-%d %H:%M")]. *)
Definition strftime_minutes (d : datetime) : string :=
  pad4 (year d) ++ "-" ++ pad2 (month d) ++ "-" ++ pad2 (day d) ++ " " ++
  pad2 (hour d) ++ ":" ++ pad2 (minute d).

(** [d.strftime("%Y-%m-%d %H:%M:%S")]. *)
Definition strftime_seconds (d : datetime) : string :=
  strftime_minutes d ++ ":" ++ pad2 (second d).

(* ================================================================= *)
(** ** [csv.writer(file).writerow(row)], default (excel) dialect *)

(** A field is quoted when it holds the delimiter, the quote character or a
    character of the line terminator. *)
Definition csv_special (c : ascii) : bool :=
  Ascii.eqb c COMMA || Ascii.eqb c DQUOTE || Ascii.eqb c CR || Ascii.eqb c LF.

Fixpoint csv_needs_quotes (s : string) : bool :=
  match s with
  | EmptyString => false
  | String c s' => csv_special c || csv_needs_quotes s'
  end.

(** Quote characters are doubled inside a quoted field. *)
Fixpoint csv_double_quotes (s : string) : string :=
  match s with
  | EmptyString => EmptyString
  | String c s' =>
      if Ascii.eqb c DQUOTE then String DQUOTE (String DQUOTE (csv_double_quotes s'))
      else String c (csv_double_quotes s')
  end.

Definition csv_field (s : string) : string :=
  if csv_needs_quotes s
  then String DQUOTE (csv_double_quotes s ++ String DQUOTE EmptyString)
  else s.

(** The text of a field: [None] is written as the empty string, a [str] as
    it is, anything else through [str()]. *)
Definition csv_text (v : pyval) : string :=
  match v with
  | PNone => EmptyString
  | _ => py_str v
  end.

Definition CRLF : string := String CR (String LF EmptyString).

Definition csv_row (fields : list pyval) : string :=
  String.concat "," (map (fun v => csv_field (csv_text v)) fields) ++ CRLF.

(* ================================================================= *)
(** ** The bot, its records and the world it runs in *)

(** The attributes [__init__] copies from [config]. *)
Record JobBot : Type := {
  email : string;
  app_password : string;
  cv_path : string;
  run_interval_hours : Z;
  job_keywords : list string;
  applied_jobs_log : string;
  rate_limit_delay : Z
}.

(** The dictionary [job_data] built by the three fetchers. *)
Record job_data : Type := {
  job_title : pyval;
  job_company : pyval;
  job_url : pyval;
  job_email : option string;
  job_date : string;
  job_source : string
}.

(** The calls of [send_email], by the data that goes into subject and body. *)
Inductive mail : Type :=
| Application (job : job_data) (to_email : string)
| NoNewJobs (total_applications : nat)
| Summary (jobs : list job_data) (applied_count : nat) (new_total : nat).

(** What the bot reads and writes outside its own variables: the contents of
    the file [applied_jobs_log] ([None]: no such file), the clock behind
    [datetime.now()] with the number of readings taken so far, the mail
    server's answer to each message, the messages handed to it and the
    arguments of the calls of [time.sleep] that returned. *)
Record world : Type := {
  log_file : option string;
  clock : nat -> datetime;
  tick : nat;
  smtp_accepts : mail -> bool;
  outbox : list mail;
  slept : list Z
}.

Definition set_log_file (f : option string) (w : world) : world :=
  {| log_file := f; clock := clock w; tick := tick w;
     smtp_accepts := smtp_accepts w; outbox := outbox w; slept := slept w |}.

Definition set_tick (n : nat) (w : world) : world :=
  {| log_file := log_file w; clock := clock w; tick := n;
     smtp_accepts := smtp_accepts w; outbox := outbox w; slept := slept w |}.

Definition set_outbox (o : list mail) (w : world) : world :=
  {| log_file := log_file w; clock := clock w; tick := tick w;
     smtp_accepts := smtp_accepts w; outbox := o; slept := slept w |}.

Definition set_slept (l : list Z) (w : world) : world :=
  {| log_file := log_file w; clock := clock w; tick := tick w;
     smtp_accepts := smtp_accepts w; outbox := outbox w; slept := l |}.

(** A method body: it changes the world and returns or raises.  The world
    is kept when an exception is raised. *)
Definition M (A : Type) : Type := world -> world * outcome A.

Definition ret {A : Type} (a : A) : M A := fun w => (w, Return a).

Definition raise {A : Type} (e : exn) : M A := fun w => (w, Raise e).

Definition bind {A B : Type} (m : M A) (k : A -> M B) : M B :=
  fun w =>
    match m w with
    | (w', Return a) => k a w'
    | (w', Raise e) => (w', Raise e)
    end.

Definition lift {A : Type} (o : outcome A) : M A := fun w => (w, o).

(** [try: body  except Exception: handler]. *)
Definition try_except {A : Type} (body : M A) (handler : exn -> M A) : M A :=
  fun w =>
    match body w with
    | (w', Return a) => (w', Return a)
    | (w', Raise e) => handler e w'
    end.

Declare Scope monad_scope.
Delimit Scope monad_scope with monad.
Notation "x <- m ;; k" := (bind m (fun x => k))
  (at level 61, m at next level, right associativity) : monad_scope.
Notation "m ;;; k" := (bind m (fun _ => k))
  (at level 61, right associativity) : monad_scope.
Local Open Scope monad_scope.

(** [datetime.now()]. *)
Definition now : M datetime :=
  fun w => (set_tick (S (tick w)) w, Return (clock w (tick w))).

(** [time.sleep(seconds)]: a negative argument raises [ValueError]. *)
Definition time_sleep (seconds : Z) : M unit :=
  fun w =>
    if (seconds <? 0)%Z then (w, Raise ValueError)
    else (set_slept (slept w ++ [seconds])%list w, Return tt).

(** [Path(self.applied_jobs_log).touch()], the last statement of [__init__]. *)
Definition touch_log : M unit :=
  fun w =>
    match log_file w with
    | None => (set_log_file (Some EmptyString) w, Return tt)
    | Some _ => (w, Return tt)
    end.

(* ================================================================= *)
(** ** [re.search] for patterns made of literals and [[class]+] *)

Inductive re_item : Type :=
| Lit (c : ascii)
| Plus (cls : ascii -> bool).

(** One or more characters of [cls], as many as possible first, giving back
    one at a time while the rest of the pattern [k] fails. *)
Fixpoint match_plus (cls : ascii -> bool) (k : string -> option string)
    (s : string) : option string :=
  match s with
  | EmptyString => None
  | String c s' =>
      if cls c then
        match match_plus cls k s' with
        | Some m => Some (String c m)
        | None =>
            match k s' with
            | Some m => Some (String c m)
            | None => None
            end
        end
      else None
  end.

(** The text matched by the pattern at the start of [s]. *)
Fixpoint match_here (p : list re_item) : string -> option string :=
  match p with
  | [] => fun _ => Some EmptyString
  | Lit c :: p' =>
      fun s =>
        match s with
        | String c' s' =>
            if Ascii.eqb c' c then
              match match_here p' s' with
              | Some m => Some (String c' m)
              | None => None
              end
            else None
        | EmptyString => None
        end
  | Plus cls :: p' => match_plus cls (match_here p')
  end.

(** [re.search(p, s)] followed by [.group(0)]: the match at the leftmost
    position that has one. *)
Fixpoint re_search (p : list re_item) (s : string) : option string :=
  match match_here p s with
  | Some m => Some m
  | None =>
      match s with
      | EmptyString => None
      | String _ s' => re_search p s'
      end
  end.

Definition is_alnum (c : ascii) : bool :=
  is_lower_ascii c || is_upper_ascii c || is_digit c.

Definition is_char (x c : ascii) : bool := Ascii.eqb c x.

(** [[a-zA-Z0-9_.+-]] *)
Definition cls_local (c : ascii) : bool :=
  is_alnum c || is_char "_" c || is_char "." c || is_char "+" c || is_char "-" c.

(** [[a-zA-Z0-9-]] *)
Definition cls_domain (c : ascii) : bool := is_alnum c || is_char "-" c.

(** [[a-zA-Z0-9-.]] *)
Definition cls_tld (c : ascii) : bool :=
  is_alnum c || is_char "-" c || is_char "." c.

(** [r"[a-zA-Z0-9_.+-]+@[a-zA-Z0-9-]+\.[a-zA-Z0-9-.]+"] *)
Definition email_pattern : list re_item :=
  [Plus cls_local; Lit "@"; Plus cls_domain; Lit "."; Plus cls_tld].

(* ================================================================= *)
(** ** The headers of a message *)

(** The three symbols of the message texts that lie beyond U+00FF stand as
    their UTF-8 bytes: the bullet U+2022, the envelope U+1F4E7 and the
    dart U+1F3AF. *)
Definition BULLET : string :=
  String "226" (String "128" (String "162" EmptyString)).

Definition ENVELOPE : string :=
  String "240" (String "159" (String "147" (String "167" EmptyString))).

Definition DART : string :=
  String "240" (String "159" (String "142" (String "175" EmptyString))).

Definition NL : string := String LF EmptyString.

(** A value and a length inside an f-string. *)
Definition fmt (v : pyval) : string := py_str v.

Definition fmt_len {A : Type} (l : list A) : string :=
  str_int (Z.of_nat (List.length l)).

Definition fmt_nat (n : nat) : string := str_int (Z.of_nat n).

(** The [subject] of each call of [send_email]. *)
Definition subject_of (m : mail) : string :=
  match m with
  | Application job _ => "Application for " ++ fmt (job_title job) ++ " - Mukrim Mohamed"
  | NoNewJobs _ => "Job Bot Update - No New Jobs"
  | Summary jobs _ _ => DART ++ " Job Bot Update - " ++ fmt_len jobs ++ " New Jobs Found"
  end.

(** [to_email or self.email]: [apply_to_job] passes the address of the
    record, which is not empty there; the two reports pass none. *)
Definition recipient_of (self : JobBot) (m : mail) : string :=
  match m with
  | Application _ to_email =>
      if String.eqb to_email EmptyString then email self else to_email
  | NoNewJobs _ | Summary _ _ _ => email self
  end.

(** The line boundaries of [str.splitlines()] below U+0100: LF, VT, FF, CR,
    FS, GS, RS and NEL. *)
Definition is_line_boundary (c : ascii) : bool :=
  in_range 10 13 c || in_range 28 30 c || (code c =? 133)%nat.

(** [str.splitlines()], [line] being the line read so far: CR LF is one
    boundary, and what follows the last boundary is a line when it is not
    empty. *)
Fixpoint splitlines_from (line s : string) : list string :=
  match s with
  | EmptyString => if String.eqb line EmptyString then [] else [line]
  | String c rest =>
      if is_line_boundary c then
        line :: match rest with
                | EmptyString => []
                | String c' rest' =>
                    if Ascii.eqb c CR && Ascii.eqb c' LF
                    then splitlines_from EmptyString rest'
                    else splitlines_from EmptyString rest
                end
      else splitlines_from (line ++ String c EmptyString) rest
  end.

Definition splitlines (s : string) : list string := splitlines_from EmptyString s.

(** [msg[name] = value] on an [EmailMessage]: its policy refuses a value of
    several lines, [len(value.splitlines()) > 1], with [ValueError]. *)
Definition header_store_parse (value : string) : outcome string :=
  if (1 <? List.length (splitlines value))%nat then Raise ValueError else Return value.

(** Whether [msg[name] = value] stores the value. *)
Definition header_stored (value : string) : bool :=
  match header_store_parse value with
  | Return _ => true
  | Raise _ => false
  end.

(** Whether the three headers of a message are stored. *)
Definition headers_stored (self : JobBot) (m : mail) : bool :=
  header_stored (subject_of m) && header_stored (email self) &&
  header_stored (recipient_of self m).

(** Whether a text holds a line boundary. *)
Fixpoint has_line_boundary (s : string) : bool :=
  match s with
  | EmptyString => false
  | String c s' => is_line_boundary c || has_line_boundary s'
  end.

(* ================================================================= *)
(** ** Methods of [JobBot] *)

(** [send_email]: the three headers are set first, and a refused value
    ends the call before anything is sent.  Then the message goes out, and
    [smtp_accepts] tells whether the rest of the body gets through: the
    attachment is read when there is such a file, the bot logs in and the
    server takes the message.  Any failure is caught inside and reported as
    [False]. *)
Definition send_email (self : JobBot) (m : mail) : M bool :=
  try_except
    (lift (header_store_parse (subject_of m)) ;;;
     lift (header_store_parse (email self)) ;;;
     lift (header_store_parse (recipient_of self m)) ;;;
     fun w => (set_outbox (outbox w ++ [m])%list w, Return (smtp_accepts w m)))
    (fun _ => ret false).

(** [extract_email]. *)
Definition extract_email (self : JobBot) (text : pyval) : outcome (option string) :=
  if negb (truthy text) then Return None
  else match text with
       | PStr s => Return (re_search email_pattern s)
       | _ => Raise TypeError
       end.

(** [job_already_applied]: only [FileNotFoundError] is caught. *)
Definition job_already_applied (self : JobBot) (url : pyval) : M bool :=
  fun w =>
    match log_file w with
    | None => (w, Return false)
    | Some contents =>
        match url with
        | PStr u => (w, Return (py_in u (universal_newlines contents)))
        | _ => (w, Raise TypeError)
        end
    end.

(** Opening with mode ["a"] creates a missing file; with [newline=''] the
    row is written as it is. *)
Definition append_text (row : string) (f : option string) : option string :=
  match f with
  | None => Some row
  | Some contents => Some (contents ++ row)
  end.

(** [mark_as_applied]. *)
Definition mark_as_applied (self : JobBot) (job : job_data) : M unit :=
  d <- now ;;
  fun w =>
    (set_log_file
       (append_text
          (csv_row [PStr (isoformat d); job_url job; job_title job; job_company job])
          (log_file w)) w,
     Return tt).

(** [matches_keywords]. *)
Definition matches_keywords (self : JobBot) (text : pyval) : outcome bool :=
  if negb (truthy text) then Return false
  else match text with
       | PStr s =>
           let text_lower := lower s in
           Return (existsb (fun keyword => py_in (lower keyword) text_lower)
                     (job_keywords self))
       | _ => Raise AttributeError
       end.

(** *** The three sources *)

(** What [requests.get] followed by [raise_for_status] leaves: the call
    raised, the status made [raise_for_status] raise [HTTPError], or there
    is a body. *)
Inductive fetched (A : Type) : Type :=
| GetFailed (e : exn)
| BadStatus (status_code : nat)
| Body (b : A).
Arguments GetFailed {A} e.
Arguments BadStatus {A} status_code.
Arguments Body {A} b.

(** One [<li>] of the listing page, by what the three [find] calls on it
    give: the [href] of its first anchor that has one, the text of its
    [span.title] and of its [span.company]. *)
Record li_tag : Type := {
  li_href : option string;
  li_title : option string;
  li_company : option string
}.

(** [soup.find_all("section", class_="jobs")], each section by its
    [find_all("li", class_=False)]. *)
Definition soup : Type := list (list li_tag).

(** The answers of the three upstream sources in one cycle; a JSON body
    that does not parse is [None]. *)
Record network : Type := {
  remoteok_api : fetched (option pyval);
  weworkremotely_page : fetched soup;
  remotive_api : fetched (option pyval)
}.

Definition response_body {A : Type} (r : fetched A) : M A :=
  match r with
  | GetFailed e => raise e
  | BadStatus c => raise (HTTPError c)
  | Body b => ret b
  end.

(** [response.json()]. *)
Definition response_json (b : option pyval) : M pyval :=
  match b with
  | None => raise JSONDecodeError
  | Some v => ret v
  end.

(** [a or b] on two conditions that may raise: [b] is not evaluated when
    [a] holds. *)
Definition or_else (a b : outcome bool) : outcome bool :=
  match a with
  | Raise e => Raise e
  | Return true => Return true
  | Return false => b
  end.

(** [link and not self.job_already_applied(link)]. *)
Definition is_new_link (self : JobBot) (link : pyval) : M bool :=
  if truthy link then
    applied <- job_already_applied self link ;;
    ret (negb applied)
  else ret false.

(** The body of the [for] loop of [fetch_remoteok_jobs]. *)
Definition remoteok_entry (self : JobBot) (job : pyval) (job_list : list job_data)
  : M (list job_data) :=
  position <- lift (py_get job "position" PNone) ;;
  title <- (if truthy position then ret position
            else lift (py_get job "title" (PStr EmptyString))) ;;
  desc <- lift (py_get job "description" (PStr EmptyString)) ;;
  matched <- lift (or_else (matches_keywords self title) (matches_keywords self desc)) ;;
  if matched : bool then
    link <- lift (py_get job "url" (PStr EmptyString)) ;;
    fresh <- is_new_link self link ;;
    if fresh : bool then
      company <- lift (py_get job "company" (PStr "Unknown")) ;;
      mail_to <- lift (extract_email self desc) ;;
      d <- now ;;
      let job_data :=
        {| job_title := title; job_company := company; job_url := link;
           job_email := mail_to; job_date := strftime_minutes d;
           job_source := "RemoteOK" |} in
      mark_as_applied self job_data ;;;
      ret (job_list ++ [job_data])%list
    else ret job_list
  else ret job_list.

Fixpoint remoteok_loop (self : JobBot) (jobs : list pyval) (job_list : list job_data)
  : M (list job_data) :=
  match jobs with
  | [] => ret job_list
  | job :: rest =>
      job_list' <- remoteok_entry self job job_list ;;
      remoteok_loop self rest job_list'
  end.

(** [fetch_remoteok_jobs]. *)
Definition fetch_remoteok_jobs (self : JobBot) (response : fetched (option pyval))
  : M (list job_data) :=
  try_except
    (body <- response_body response ;;
     jobs <- response_json body ;;
     rest <- lift (py_slice_from_1 jobs) ;;
     items <- lift (py_iter rest) ;;
     remoteok_loop self items [])
    (fun _ => ret []).

Definition WWR_BASE : string := "https://weworkremotely.com".

(** The body of the inner [for] loop of [fetch_wwr_jobs]. *)
Definition wwr_entry (self : JobBot) (li : li_tag) (job_list : list job_data)
  : M (list job_data) :=
  match li_href li with
  | Some href =>
      let link := WWR_BASE ++ href in
      match li_title li with
      | Some title_text =>
          matched <- lift (matches_keywords self (PStr title_text)) ;;
          if matched : bool then
            applied <- job_already_applied self (PStr link) ;;
            if negb applied then
              d <- now ;;
              let job_data :=
                {| job_title := PStr (strip title_text);
                   job_company :=
                     PStr (match li_company li with
                           | Some company_text => strip company_text
                           | None => "Unknown"
                           end);
                   job_url := PStr link;
                   job_email := None;
                   job_date := strftime_minutes d;
                   job_source := "WeWorkRemotely" |} in
              mark_as_applied self job_data ;;;
              ret (job_list ++ [job_data])%list
            else ret job_list
          else ret job_list
      | None => ret job_list
      end
  | None => ret job_list
  end.

Fixpoint wwr_section (self : JobBot) (lis : list li_tag) (job_list : list job_data)
  : M (list job_data) :=
  match lis with
  | [] => ret job_list
  | li :: rest =>
      job_list' <- wwr_entry self li job_list ;;
      wwr_section self rest job_list'
  end.

Fixpoint wwr_loop (self : JobBot) (sections : soup) (job_list : list job_data)
  : M (list job_data) :=
  match sections with
  | [] => ret job_list
  | section :: rest =>
      job_list' <- wwr_section self section job_list ;;
      wwr_loop self rest job_list'
  end.

(** [fetch_wwr_jobs]: both handlers return the empty list. *)
Definition fetch_wwr_jobs (self : JobBot) (response : fetched soup)
  : M (list job_data) :=
  try_except
    (page <- response_body response ;;
     wwr_loop self page [])
    (fun e =>
       match e with
       | HTTPError _ => ret []
       | _ => ret []
       end).

(** The body of the [for] loop of [fetch_remotive_jobs]. *)
Definition remotive_entry (self : JobBot) (job : pyval) (job_list : list job_data)
  : M (list job_data) :=
  title <- lift (py_get job "title" (PStr EmptyString)) ;;
  desc <- lift (py_get job "description" (PStr EmptyString)) ;;
  matched <- lift (or_else (matches_keywords self title) (matches_keywords self desc)) ;;
  if matched : bool then
    link <- lift (py_get job "url" (PStr EmptyString)) ;;
    fresh <- is_new_link self link ;;
    if fresh : bool then
      company <- lift (py_get job "company_name" (PStr "Unknown")) ;;
      mail_to <- lift (extract_email self desc) ;;
      d <- now ;;
      let job_data :=
        {| job_title := title; job_company := company; job_url := link;
           job_email := mail_to; job_date := strftime_minutes d;
           job_source := "Remotive" |} in
      mark_as_applied self job_data ;;;
      ret (job_list ++ [job_data])%list
    else ret job_list
  else ret job_list.

Fixpoint remotive_loop (self : JobBot) (jobs : list pyval) (job_list : list job_data)
  : M (list job_data) :=
  match jobs with
  | [] => ret job_list
  | job :: rest =>
      job_list' <- remotive_entry self job job_list ;;
      remotive_loop self rest job_list'
  end.

(** [fetch_remotive_jobs]. *)
Definition fetch_remotive_jobs (self : JobBot) (response : fetched (option pyval))
  : M (list job_data) :=
  try_except
    (body <- response_body response ;;
     data <- response_json body ;;
     jobs <- lift (py_get data "jobs" (PList [])) ;;
     items <- lift (py_iter jobs) ;;
     remotive_loop self items [])
    (fun e =>
       match e with
       | HTTPError _ => ret []
       | _ => ret []
       end).

(** *** [fetch_all_jobs] *)

(** Members of the set [seen_urls]: [list] and [dict] values cannot be
    hashed, and [True], [False] are the same members as [1], [0]. *)
Inductive hkey : Type :=
| KNone
| KInt (z : Z)
| KStr (s : string).

Definition py_hash_key (v : pyval) : outcome hkey :=
  match v with
  | PNone => Return KNone
  | PBool b => Return (KInt (Z.b2z b))
  | PInt z => Return (KInt z)
  | PStr s => Return (KStr s)
  | PList _ => Raise TypeError
  | PDict _ => Raise TypeError
  end.

Definition hkey_eqb (a b : hkey) : bool :=
  match a, b with
  | KNone, KNone => true
  | KInt x, KInt y => Z.eqb x y
  | KStr x, KStr y => String.eqb x y
  | _, _ => false
  end.

(** One source of the first [for] loop: an exception of the source leaves
    [all_jobs] as it was; the pacing sleep comes after the [extend]. *)
Definition fetch_from (self : JobBot) (source_func : M (list job_data))
    (all_jobs : list job_data) : M (list job_data) :=
  fun w =>
    match source_func w with
    | (w', Raise _) => (w', Return all_jobs)
    | (w', Return jobs) =>
        (fst (time_sleep (rate_limit_delay self) w'), Return (all_jobs ++ jobs)%list)
    end.

(** The second [for] loop, which removes duplicates based on the URL. *)
Fixpoint unique_loop (all_jobs unique_jobs : list job_data) (seen_urls : list hkey)
  : outcome (list job_data) :=
  match all_jobs with
  | [] => Return unique_jobs
  | job :: rest =>
      match py_hash_key (job_url job) with
      | Raise e => Raise e
      | Return k =>
          if existsb (hkey_eqb k) seen_urls
          then unique_loop rest unique_jobs seen_urls
          else unique_loop rest (unique_jobs ++ [job])%list (k :: seen_urls)
      end
  end.

Definition remove_duplicates (all_jobs : list job_data) : outcome (list job_data) :=
  unique_loop all_jobs [] [].

Definition fetch_all_jobs (self : JobBot) (net : network) : M (list job_data) :=
  all_jobs <- fetch_from self (fetch_remoteok_jobs self (remoteok_api net)) [] ;;
  all_jobs <- fetch_from self (fetch_wwr_jobs self (weworkremotely_page net)) all_jobs ;;
  all_jobs <- fetch_from self (fetch_remotive_jobs self (remotive_api net)) all_jobs ;;
  lift (remove_duplicates all_jobs).

(** *** Applying and reporting *)

(** [if job['email']:] *)
Definition email_present (job : job_data) : bool :=
  match job_email job with
  | Some address => negb (String.eqb address EmptyString)
  | None => false
  end.

(** [apply_to_job]. *)
Definition apply_to_job (self : JobBot) (job : job_data) : M bool :=
  match job_email job with
  | Some address =>
      if negb (String.eqb address EmptyString)
      then send_email self (Application job address)
      else ret false
  | None => ret false
  end.

Record stats : Type := {
  total_applications : nat;
  last_run : string
}.

(** [get_stats]. *)
Definition get_stats (self : JobBot) : M stats :=
  fun w =>
    match log_file w with
    | None => (w, Return {| total_applications := 0; last_run := "Never" |})
    | Some contents =>
        (d <- now ;;
         ret {| total_applications := List.length (readlines contents);
                last_run := strftime_seconds d |}) w
    end.

(** The dictionary [jobs_by_source], in insertion order. *)
Fixpoint group_insert (job : job_data) (groups : list (string * list job_data))
  : list (string * list job_data) :=
  match groups with
  | [] => [(job_source job, [job])]
  | (source, source_jobs) :: rest =>
      if String.eqb source (job_source job)
      then (source, (source_jobs ++ [job])%list) :: rest
      else (source, source_jobs) :: group_insert job rest
  end.

Definition jobs_by_source (jobs : list job_data) : list (string * list job_data) :=
  fold_left (fun groups job => group_insert job groups) jobs [].

(** One job of the summary loop: it is applied to when it has an address. *)
Definition process_job (self : JobBot) (job : job_data) (applied_count : nat) : M nat :=
  if email_present job then
    success <- apply_to_job self job ;;
    time_sleep 1 ;;;
    ret (if success : bool then S applied_count else applied_count)
  else ret applied_count.

Fixpoint process_jobs (self : JobBot) (source_jobs : list job_data) (applied_count : nat)
  : M nat :=
  match source_jobs with
  | [] => ret applied_count
  | job :: rest =>
      applied_count' <- process_job self job applied_count ;;
      process_jobs self rest applied_count'
  end.

Fixpoint process_groups (self : JobBot) (groups : list (string * list job_data))
    (applied_count : nat) : M nat :=
  match groups with
  | [] => ret applied_count
  | (_, source_jobs) :: rest =>
      applied_count' <- process_jobs self source_jobs applied_count ;;
      process_groups self rest applied_count'
  end.

(** [run_job_search]. *)
Definition run_job_search (self : JobBot) (net : network) : M unit :=
  stats <- get_stats self ;;
  jobs <- fetch_all_jobs self net ;;
  match jobs with
  | [] =>
      send_email self (NoNewJobs (total_applications stats)) ;;;
      ret tt
  | _ =>
      applied_count <- process_groups self (jobs_by_source jobs) 0 ;;
      let new_total := total_applications stats + applied_count in
      send_email self (Summary jobs applied_count new_total) ;;;
      ret tt
  end.

(** *** [run_continuous] *)

(** Where in an iteration [KeyboardInterrupt] arrives: while
    [run_job_search] runs, during the sleep that follows it, or during the
    sleep of the [except Exception] handler.  The interrupt is delivered as
    the phase begins. *)
Inductive phase : Type :=
| InSearch
| InSleep
| InCooldown.

(** How the loop was left: by the [break] of the [KeyboardInterrupt]
    handler, or by a [KeyboardInterrupt] that leaves the handler of
    [Exception] and with it the method. *)
Inductive loop_exit : Type :=
| Stopped
| Interrupted.

Definition COOLDOWN_SECONDS : Z := 300.

Definition is_phase (p : phase) (q : option phase) : bool :=
  match q, p with
  | Some InSearch, InSearch => true
  | Some InSleep, InSleep => true
  | Some InCooldown, InCooldown => true
  | _, _ => false
  end.

(** The [except Exception] handler of the loop. *)
Definition cooldown (interrupt : option phase) (w : world) : world * option loop_exit :=
  if is_phase InCooldown interrupt then (w, Some Interrupted)
  else (fst (time_sleep COOLDOWN_SECONDS w), None).

(** One iteration of [while True]: [None] when the loop goes round again. *)
Definition iteration (self : JobBot) (net : network) (interrupt : option phase)
    (w : world) : world * option loop_exit :=
  if is_phase InSearch interrupt then (w, Some Stopped)
  else
    match run_job_search self net w with
    | (w1, Return _) =>
        let sleep_seconds := (run_interval_hours self * 3600)%Z in
        if is_phase InSleep interrupt then (w1, Some Stopped)
        else
          match time_sleep sleep_seconds w1 with
          | (w2, Return _) => (w2, None)
          | (w2, Raise _) => cooldown interrupt w2
          end
    | (w1, Raise _) => cooldown interrupt w1
    end.

(** [run_continuous], unrolled [n] iterations starting with iteration [i];
    [None] when the loop is still running after them. *)
Fixpoint run_continuous (n : nat) (self : JobBot) (nets : nat -> network)
    (interrupts : nat -> option phase) (i : nat) (w : world)
  : world * option loop_exit :=
  match n with
  | O => (w, None)
  | S n' =>
      match iteration self (nets i) (interrupts i) w with
      | (w', Some e) => (w', Some e)
      | (w', None) => run_continuous n' self nets interrupts (S i) w'
      end
  end.

(** The configuration [main] builds. *)
Definition main_config (EMAIL APP_PASSWORD : string) : JobBot :=
  {| email := EMAIL;
     app_password := APP_PASSWORD;
     cv_path := "Mukrim_CV.pdf";
     run_interval_hours := 12;
     job_keywords :=
       ["software engineer"; "frontend"; "backend"; "developer"; "admin";
        "support"; "CRM"; "IT"; "fullstack"; "web developer"; "technical support";
        "python"; "javascript"; "react"; "node.js"; "django"; "flask"];
     applied_jobs_log := "applied_jobs.csv";
     rate_limit_delay := 2 |}.

(* ================================================================= *)
(** ** [main] *)

(** How [main] ends: at one of its two checks, or with the loop, which is
    unrolled as in [run_continuous]. *)
Inductive main_result : Type :=
| CVNotFound
| PasswordNotSet
| Ran (exit : option loop_exit).

(** [main], given whether the CV file is there and the values of the two
    environment variables.  [JobBot(config)] creates the log file when it
    is missing. *)
Definition main (cv_exists : bool) (EMAIL APP_PASSWORD : string) (n : nat)
    (nets : nat -> network) (interrupts : nat -> option phase) (w : world)
  : world * main_result :=
  let config := main_config EMAIL APP_PASSWORD in
  if negb cv_exists then (w, CVNotFound)
  else if String.eqb (app_password config) "your_app_password_here"
  then (w, PasswordNotSet)
  else
    let bot := config in
    match touch_log w with
    | (w0, _) =>
        match run_continuous n bot nets interrupts 0 w0 with
        | (w1, exit) => (w1, Ran exit)
        end
    end.

(* ================================================================= *)
(** ** The texts of the messages *)

(** [company != "Unknown"]. *)
Definition differs_from_unknown (company : pyval) : bool :=
  match company with
  | PStr s => negb (String.eqb s "Unknown")
  | _ => true
  end.

Definition company_line (company : pyval) : string :=
  if truthy company && differs_from_unknown company
  then " at " ++ fmt company
  else EmptyString.

(** [generate_cover_letter]. *)
Definition generate_cover_letter (self : JobBot) (job_title company : pyval) : string :=
  "Dear Hiring Team," ++ NL ++
  NL ++
  "I'm writing to express my strong interest in the " ++ fmt job_title ++ " position" ++ company_line company ++ ". With a diverse background spanning banking operations, credit analysis, and hands-on software development, I bring a unique combination of administrative expertise and technical skills." ++ NL ++
  NL ++
  "My experience includes:" ++ NL ++
  BULLET ++ " Developing smart IoT systems and CRM applications" ++ NL ++
  BULLET ++ " Banking operations and credit analysis" ++ NL ++
  BULLET ++ " Full-stack web development" ++ NL ++
  BULLET ++ " Technical support and system administration" ++ NL ++
  NL ++
  "I'm particularly drawn to roles that combine operational excellence with innovation. I believe my blend of business acumen and technical capabilities would be valuable to your team." ++ NL ++
  NL ++
  "I've attached my CV for your review and would welcome the opportunity to discuss how I can contribute to your organization's success." ++ NL ++
  NL ++
  "Best regards," ++ NL ++
  "Mukrim Mohamed" ++ NL ++
  email self ++ NL ++
  "+94 75 5545 015".

(** The message [send_email] builds from its arguments: [to_email or
    self.email] is the recipient; the file named by [attachment] is
    attached when there is such a file. *)
Record email_message : Type := {
  msg_subject : string;
  msg_from : string;
  msg_to : string;
  msg_body : string;
  msg_attachment : option string
}.

(** The lines of one job in the summary. *)
Definition job_lines (job : job_data) : string :=
  BULLET ++ " " ++ fmt (job_title job) ++ " at " ++ fmt (job_company job) ++ NL ++
  "  " ++ fmt (job_url job) ++ NL ++
  match job_email job with
  | Some address =>
      if negb (String.eqb address EmptyString)
      then "  " ++ ENVELOPE ++ " " ++ address ++ NL
      else EmptyString
  | None => EmptyString
  end ++
  NL.

(** The lines of one source in the summary. *)
Definition group_lines (group : string * list job_data) : string :=
  "--- " ++ fst group ++ " (" ++ fmt_len (snd group) ++ " jobs) ---" ++ NL ++
  String.concat EmptyString (map job_lines (snd group)) ++
  NL.

(** [summary_body] as [run_job_search] has it when it sends the summary. *)
Definition summary_body (self : JobBot) (jobs : list job_data)
    (applied_count new_total : nat) : string :=
  "Found " ++ fmt_len jobs ++ " new jobs:" ++ NL ++ NL ++
  String.concat EmptyString (map group_lines (jobs_by_source jobs)) ++
  "Applications sent this cycle: " ++ fmt_nat applied_count ++ "/" ++ fmt_len jobs ++ NL ++
  "Total applications sent: " ++ fmt_nat new_total ++ NL ++
  "Next check in " ++ str_int (run_interval_hours self) ++ " hours".

(** The message of each call of [send_email]: the application of
    [apply_to_job] and the two reports of [run_job_search]. *)
Definition message_of (self : JobBot) (m : mail) : email_message :=
  match m with
  | Application job to_email =>
      {| msg_subject := subject_of m;
         msg_from := email self;
         msg_to := recipient_of self m;
         msg_body := generate_cover_letter self (job_title job) (job_company job);
         msg_attachment := Some (cv_path self) |}
  | NoNewJobs total_applications =>
      {| msg_subject := subject_of m;
         msg_from := email self;
         msg_to := recipient_of self m;
         msg_body :=
           "No new matching jobs found in this cycle." ++ NL ++ NL ++
           "Total applications sent so far: " ++ fmt_nat total_applications ++ NL ++ NL ++
           "Will try again in " ++ str_int (run_interval_hours self) ++ " hours.";
         msg_attachment := None |}
  | Summary jobs applied_count new_total =>
      {| msg_subject := subject_of m;
         msg_from := email self;
         msg_to := recipient_of self m;
         msg_body := summary_body self jobs applied_count new_total;
         msg_attachment := Some (cv_path self) |}
  end.

(* ================================================================= *)
(** ** The Ledger as the specification names it *)

(** [append] is [mark_as_applied], [contains] is [job_already_applied] and
    [count] is the field [total_applications] of [get_stats]. *)
Fixpoint append_all (self : JobBot) (entries : list job_data) : M unit :=
  match entries with
  | [] => ret tt
  | job :: rest => mark_as_applied self job ;;; append_all self rest
  end.

Definition contains (self : JobBot) (url : string) (w : world) : outcome bool :=
  snd (job_already_applied self (PStr url) w).

Definition count (self : JobBot) (w : world) : outcome nat :=
  match snd (get_stats self w) with
  | Return s => Return (total_applications s)
  | Raise e => Raise e
  end.

(** A record with the date field blanked, to compare two runs. *)
Definition without_date (job : job_data) : job_data :=
  {| job_title := job_title job; job_company := job_company job;
     job_url := job_url job; job_email := job_email job;
     job_date := EmptyString; job_source := job_source job |}.

(** *** Sample data *)

Definition sample_bot : JobBot := main_config "me@example.org" "app-password".

Definition morning : datetime :=
  {| year := 2026; month := 11; day := 4;
     hour := 10; minute := 0; second := 0; microsecond := 1 |}.

Definition noon : datetime :=
  {| year := 2026; month := 11; day := 4;
     hour := 12; minute := 0; second := 0; microsecond := 1 |}.

(** A world whose clock always shows [d]. *)
Definition world_at (d : datetime) (f : option string) : world :=
  {| log_file := f; clock := fun _ => d; tick := 0;
     smtp_accepts := fun _ => true; outbox := []; slept := [] |}.

Definition listing (title url : string) : job_data :=
  {| job_title := PStr title; job_company := PStr "Acme"; job_url := PStr url;
     job_email := None; job_date := strftime_minutes morning;
     job_source := "RemoteOK" |}.

(** An element of the RemoteOK array or of the Remotive [jobs] array. *)
Definition entry (title_key title url description : string) : pyval :=
  PDict [(title_key, PStr title); ("company", PStr "Acme"); ("url", PStr url);
         ("description", PStr description)].

Definition metadata : pyval := PDict [("legal", PStr "terms of the API")].

Definition no_answer : network :=
  {| remoteok_api := GetFailed ConnectionError;
     weworkremotely_page := GetFailed ConnectionError;
     remotive_api := GetFailed ConnectionError |}.

Definition with_remoteok (payload : list pyval) : network :=
  {| remoteok_api := Body (Some (PList payload));
     weworkremotely_page := GetFailed ConnectionError;
     remotive_api := GetFailed ConnectionError |}.

(* ================================================================= *)
(** ** Vocabulary of the statements about [extract_email] *)

Fixpoint all_chars (cls : ascii -> bool) (s : string) : bool :=
  match s with
  | EmptyString => true
  | String c s' => cls c && all_chars cls s'
  end.

Definition nonempty (s : string) : bool :=
  match s with
  | EmptyString => false
  | String _ _ => true
  end.

(** The text is empty or its first character is outside the class. *)
Definition starts_outside (cls : ascii -> bool) (s : string) : bool :=
  match s with
  | EmptyString => true
  | String c _ => negb (cls c)
  end.

(** The text is empty or its last character is outside the class. *)
Fixpoint ends_outside (cls : ascii -> bool) (s : string) : bool :=
  match s with
  | EmptyString => true
  | String c EmptyString => negb (cls c)
  | String _ s' => ends_outside cls s'
  end.

(** A token of the shape of the pattern: local part, [@], domain label,
    a dot and the rest. *)
Definition address (local domain rest : string) : string :=
  local ++ "@" ++ domain ++ "." ++ rest.

Definition email_parts (local domain rest : string) : bool :=
  nonempty local && all_chars cls_local local &&
  nonempty domain && all_chars cls_domain domain &&
  nonempty rest && all_chars cls_tld rest.

Definition email_shaped (token : string) : Prop :=
  exists local domain rest,
    token = address local domain rest /\ email_parts local domain rest = true.

Definition substring_of (token text : string) : Prop :=
  exists before after, text = before ++ token ++ after.

(* ================================================================= *)
(** ** Vocabulary of the statements about the de-duplication *)

(** Two records stand for the same listing when their URLs are the same
    member of a set. *)
Definition same_url (a b : job_data) : bool :=
  match py_hash_key (job_url a), py_hash_key (job_url b) with
  | Return x, Return y => hkey_eqb x y
  | _, _ => false
  end.

Definition hashable_url (job : job_data) : bool :=
  match py_hash_key (job_url job) with
  | Return _ => true
  | Raise _ => false
  end.

(** First-seen-wins, in the words of the specification: a record stays,
    and the later records with its URL go. *)
Fixpoint first_seen_wins (jobs : list job_data) : list job_data :=
  match jobs with
  | [] => []
  | job :: rest =>
      job :: filter (fun later => negb (same_url job later)) (first_seen_wins rest)
  end.

(** [l1] is [l2] with some elements left out, the order kept. *)
Inductive subseq {A : Type} : list A -> list A -> Prop :=
| subseq_nil : subseq [] []
| subseq_skip (x : A) (l1 l2 : list A) : subseq l1 l2 -> subseq l1 (x :: l2)
| subseq_keep (x : A) (l1 l2 : list A) : subseq l1 l2 -> subseq (x :: l1) (x :: l2).

(** No two records of the list have the same URL. *)
Fixpoint distinct_urls (jobs : list job_data) : Prop :=
  match jobs with
  | [] => True
  | job :: rest =>
      (forall later, In later rest -> same_url job later = false) /\ distinct_urls rest
  end.

Definition has_key (seen : list hkey) (job : job_data) : bool :=
  match py_hash_key (job_url job) with
  | Return k => existsb (hkey_eqb k) seen
  | Raise _ => false
  end.

(* ================================================================= *)
(** ** Vocabulary of the statements about the fetchers *)

(** The world after a fetcher has read the clock for the [date] of a
    record and [mark_as_applied] has written the record's row. *)
Definition recorded (job : job_data) (w : world) : world :=
  set_log_file
    (append_text
       (csv_row [PStr (isoformat (clock w (S (tick w))));
                 job_url job; job_title job; job_company job])
       (log_file w))
    (set_tick (S (S (tick w))) w).

Definition log_exists (w : world) : bool :=
  match log_file w with
  | Some _ => true
  | None => false
  end.

Definition is_str (v : pyval) : bool :=
  match v with
  | PStr _ => true
  | _ => false
  end.


(** The outcome of a loop keeps a property of the world and returns only
    records with a property, unless it raises. *)
Definition kept_by (world_inv : world -> Prop) (record_ok : job_data -> Prop)
    (r : world * outcome (list job_data)) : Prop :=
  world_inv (fst r) /\
  match snd r with
  | Return job_list => Forall record_ok job_list
  | Raise _ => True
  end.

(** The same, and it does not raise. *)
Definition returned_by (world_inv : world -> Prop) (record_ok : job_data -> Prop)
    (r : world * outcome (list job_data)) : Prop :=
  world_inv (fst r) /\
  exists job_list, snd r = Return job_list /\ Forall record_ok job_list.

(** The world after the pacing sleep of [fetch_all_jobs]. *)
Definition paced (self : JobBot) (w : world) : world :=
  fst (time_sleep (rate_limit_delay self) w).

(** A fetch that failed before any entry was looked at: the request
    raised, the status was an error, the body is not JSON, or the JSON value
    is not of the expected kind: an array for RemoteOK, for Remotive an
    object whose [jobs], when it has one, is an array. *)
Definition remoteok_fetch_failed (r : fetched (option pyval)) : bool :=
  match r with
  | Body (Some (PList _)) => false
  | _ => true
  end.

Definition remotive_fetch_failed (r : fetched (option pyval)) : bool :=
  match r with
  | Body (Some (PDict d)) =>
      match assoc "jobs" d with
      | None => false
      | Some (PList _) => false
      | Some _ => true
      end
  | _ => true
  end.

Definition page_fetch_failed (r : fetched soup) : bool :=
  match r with
  | Body _ => false
  | _ => true
  end.

(** *** More sample data *)

Definition backend_item : li_tag :=
  {| li_href := Some "/remote-jobs/acme-backend-engineer";
     li_title := Some "Backend Engineer";
     li_company := Some "Acme" |}.

Definition marketing_item : li_tag :=
  {| li_href := Some "/remote-jobs/acme-marketing-manager";
     li_title := Some "Marketing Manager";
     li_company := Some "Acme" |}.

(** RemoteOK times out, the other two sources answer. *)
Definition remoteok_down : network :=
  {| remoteok_api := GetFailed Timeout;
     weworkremotely_page := Body [[backend_item; marketing_item]];
     remotive_api :=
       Body (Some (PDict [("jobs",
                           PList [entry "title" "Django Developer"
                                    "https://remotive.com/remote-jobs/1"
                                    "Write to jane.doe@example.com today"])])) |}.

Definition duplicated_listings : list job_data * list job_data * list job_data :=
  ([listing "Python Developer" "https://example.org/jobs/1"],
   [listing "Python Developer (m/f)" "https://example.org/jobs/1";
    listing "React Developer" "https://example.org/jobs/2"],
   [listing "React Developer, remote" "https://example.org/jobs/2"]).

(* ================================================================= *)
(** ** Vocabulary of the statements about applying *)

(** The records of all groups of [jobs_by_source], in the order they are
    gone through. *)
Definition all_of (groups : list (string * list job_data)) : list job_data :=
  List.concat (map snd groups).

(** Every message in the outbox of [w'] was there in [w] or is the
    application to one of [jobs], sent to the address of its record. *)
Definition only_applications (jobs : list job_data) (w w' : world) : Prop :=
  forall m, In m (outbox w') ->
    In m (outbox w) \/
    exists job address,
      m = Application job address /\ In job jobs /\ job_email job = Some address.

(* ================================================================= *)
(** ** Vocabulary of the statements about malformed entries *)

(** The value of a text field is text, [null] or not there. *)
Definition text_or_missing (key : string) (d : list (string * pyval)) : bool :=
  match assoc key d with
  | None => true
  | Some PNone => true
  | Some (PStr _) => true
  | Some _ => false
  end.

(** An object whose text fields are text or missing and whose [url] is
    missing, [null] or empty. *)
Definition lacks_url (job : pyval) : bool :=
  match job with
  | PDict d =>
      text_or_missing "position" d && text_or_missing "title" d &&
      text_or_missing "description" d &&
      match assoc "url" d with
      | None => true
      | Some PNone => true
      | Some (PStr EmptyString) => true
      | Some _ => false
      end
  | _ => false
  end.

Definition is_dict (v : pyval) : bool :=
  match v with
  | PDict _ => true
  | _ => false
  end.

(** What the two JSON fetchers do with an entry once its title and
    description are read; they differ in the key of the company and in the
    source tag. *)
Definition emit_if_new (self : JobBot) (source company_key : string)
    (job title desc : pyval) (job_list : list job_data) : M (list job_data) :=
  matched <- lift (or_else (matches_keywords self title) (matches_keywords self desc)) ;;
  if matched : bool then
    link <- lift (py_get job "url" (PStr EmptyString)) ;;
    fresh <- is_new_link self link ;;
    if fresh : bool then
      company <- lift (py_get job company_key (PStr "Unknown")) ;;
      mail_to <- lift (extract_email self desc) ;;
      d <- now ;;
      let job_data :=
        {| job_title := title; job_company := company; job_url := link;
           job_email := mail_to; job_date := strftime_minutes d;
           job_source := source |} in
      mark_as_applied self job_data ;;;
      ret (job_list ++ [job_data])%list
    else ret job_list
  else ret job_list.

Definition field (key : string) (default : pyval) (d : list (string * pyval)) : pyval :=
  match assoc key d with
  | Some v => v
  | None => default
  end.

(** [job.get("position") or job.get("title", "")] on an object. *)
Definition remoteok_title (d : list (string * pyval)) : pyval :=
  if truthy (field "position" PNone d) then field "position" PNone d
  else field "title" (PStr EmptyString) d.

(** A list item without anchor or without title element. *)
Definition lacks_link_or_title (li : li_tag) : bool :=
  match li_href li, li_title li with
  | Some _, Some _ => false
  | _, _ => true
  end.

(** The body of the Remotive API with the given [jobs] array. *)
Definition remotive_body (jobs : list pyval) : fetched (option pyval) :=
  Body (Some (PDict [("jobs", PList jobs)])).

(** The body of the RemoteOK API: the metadata element, then the jobs. *)
Definition remoteok_body (meta : pyval) (jobs : list pyval) : fetched (option pyval) :=
  Body (Some (PList (meta :: jobs))).

(** *** A world without log file and a listing whose [url] is a list *)

Definition list_url_entry : pyval :=
  PDict [("position", PStr "Python Developer");
         ("url", PList [PStr "https://remoteok.io/jobs/12"])].

(** *** Sample payloads with an entry of an unexpected shape *)

Definition python_entry : pyval :=
  entry "position" "Python Developer" "https://remoteok.io/jobs/12" "remote".

Definition react_entry : pyval :=
  entry "position" "React Developer" "https://remoteok.io/jobs/13" "remote".

(** An object without [url]. *)
Definition entry_without_url : pyval :=
  PDict [("position", PStr "Backend Developer"); ("company", PStr "Acme")].

(** An object whose [position] is a number. *)
Definition entry_with_number : pyval :=
  PDict [("position", PInt 42); ("url", PStr "https://remoteok.io/jobs/14")].

(* ================================================================= *)
(** ** Vocabulary of the statements about a whole cycle *)

(** A row of the Ledger: the clock's reading and the record written. *)
Definition ledger_row : Type := (datetime * job_data)%type.

Definition row_fields (r : ledger_row) : list pyval :=
  [PStr (isoformat (fst r)); job_url (snd r); job_title (snd r); job_company (snd r)].

Definition row_text (r : ledger_row) : string := csv_row (row_fields r).

(** The contents of the file after the rows were appended to an empty
    file. *)
Fixpoint ledger_text (rows : list ledger_row) : string :=
  match rows with
  | [] => EmptyString
  | r :: rest => row_text r ++ ledger_text rest
  end.

(** A URL that is not empty and holds none of the characters that make
    [csv.writer] quote a field. *)
Definition plain (u : string) : bool := nonempty u && negb (csv_needs_quotes u).

(** The URL occurs in one of the four field texts of one of the rows. *)
Definition in_some_field (u : string) (rows : list ledger_row) : bool :=
  existsb (fun r => existsb (fun v => py_in u (csv_text v)) (row_fields r)) rows.

(** The characters of [isoformat]. *)
Definition iso_char (c : ascii) : bool :=
  is_digit c || is_char "-" c || is_char "T" c || is_char ":" c || is_char "." c.

(** A listing as a fetcher sees it: the record it would emit (the date
    left empty) and whether its title or description matches a keyword. *)
Record candidate : Type := {
  cand_record : job_data;
  cand_matches : bool
}.

Definition returned_true (o : outcome bool) : bool :=
  match o with
  | Return b => b
  | Raise _ => false
  end.

Definition returned_address (o : outcome (option string)) : option string :=
  match o with
  | Return a => a
  | Raise _ => None
  end.

(** The candidate of an object of one of the two JSON payloads. *)
Definition json_candidate (self : JobBot) (source company_key : string)
    (d : list (string * pyval)) (title : pyval) : candidate :=
  let desc := field "description" (PStr EmptyString) d in
  {| cand_record :=
       {| job_title := title;
          job_company := field company_key (PStr "Unknown") d;
          job_url := field "url" (PStr EmptyString) d;
          job_email := returned_address (extract_email self desc);
          job_date := EmptyString;
          job_source := source |};
     cand_matches :=
       returned_true (or_else (matches_keywords self title) (matches_keywords self desc)) |}.

Definition remoteok_candidate (self : JobBot) (job : pyval) : option candidate :=
  match job with
  | PDict d => Some (json_candidate self "RemoteOK" "company" d (remoteok_title d))
  | _ => None
  end.

Definition remotive_candidate (self : JobBot) (job : pyval) : option candidate :=
  match job with
  | PDict d =>
      Some (json_candidate self "Remotive" "company_name" d
              (field "title" (PStr EmptyString) d))
  | _ => None
  end.

(** The candidate of a list item that has an anchor and a title. *)
Definition wwr_candidate (self : JobBot) (li : li_tag) : option candidate :=
  match li_href li, li_title li with
  | Some href, Some title_text =>
      Some {| cand_record :=
                {| job_title := PStr (strip title_text);
                   job_company :=
                     PStr (match li_company li with
                           | Some company_text => strip company_text
                           | None => "Unknown"
                           end);
                   job_url := PStr (WWR_BASE ++ href);
                   job_email := None;
                   job_date := EmptyString;
                   job_source := "WeWorkRemotely" |};
              cand_matches := returned_true (matches_keywords self (PStr title_text)) |}
  | _, _ => None
  end.

Fixpoint somes {A : Type} (l : list (option A)) : list A :=
  match l with
  | [] => []
  | Some a :: rest => a :: somes rest
  | None :: rest => somes rest
  end.

(** An object whose text fields, [url] among them, are text or missing. *)
Definition typed_entry (job : pyval) : bool :=
  match job with
  | PDict d =>
      text_or_missing "position" d && text_or_missing "title" d &&
      text_or_missing "description" d && text_or_missing "url" d
  | _ => false
  end.

(** The candidates of a cycle, in the order the fetchers meet them: the
    elements of the RemoteOK array after the first, the list items of the
    sections of the page, the elements of the Remotive [jobs] array. *)
Definition cycle_candidates (self : JobBot) (remoteok_jobs : list pyval) (page : soup)
    (remotive_jobs : list pyval) : list candidate :=
  (somes (map (remoteok_candidate self) remoteok_jobs) ++
   somes (map (wwr_candidate self) (List.concat page)) ++
   somes (map (remotive_candidate self) remotive_jobs))%list.

(** The URL of a record when it is a non-empty text. *)
Definition usable_url (job : job_data) : option string :=
  match job_url job with
  | PStr u => if nonempty u then Some u else None
  | _ => None
  end.

Definition has_url (u : string) (job : job_data) : bool :=
  match job_url job with
  | PStr u' => String.eqb u u'
  | _ => false
  end.

(** Some row of the Ledger has exactly this URL. *)
Definition in_ledger (rows : list ledger_row) (u : string) : bool :=
  existsb (fun r => has_url u (snd r)) rows.

(** The candidate matches a keyword, has a usable URL, and the URL is not
    known. *)
Definition eligible_for (known : string -> bool) (c : candidate) : bool :=
  cand_matches c &&
  match usable_url (cand_record c) with
  | Some u => negb (known u)
  | None => false
  end.

(** The same, when the known URLs are those of the rows of the Ledger. *)
Definition eligible (rows : list ledger_row) (c : candidate) : bool :=
  eligible_for (in_ledger rows) c.

(** The candidates gone through one after the other, the URL of each
    record that is emitted known from then on. *)
Fixpoint sequence (known : string -> bool) (cs : list candidate) : list job_data :=
  match cs with
  | [] => []
  | c :: rest =>
      if eligible_for known c
      then cand_record c
           :: sequence (fun u => known u || has_url u (cand_record c)) rest
      else sequence known rest
  end.

(** What the specification expects of a cycle: the records of the eligible
    candidates, the first of every URL. *)
Definition expected_records (history : list ledger_row) (cands : list candidate)
  : list job_data :=
  first_seen_wins (map cand_record (filter (eligible history) cands)).

(** The three texts of a record that go into its row. *)
Definition row_texts (job : job_data) : pyval * pyval * pyval :=
  (job_url job, job_title job, job_company job).

(** The URL [u] cannot be mistaken in the Ledger: it is plain, it is not
    made of the characters of a timestamp only, it does not occur inside
    the title or the company of any record of [universe], and a URL of
    [universe] it occurs in is [u] itself. *)
Definition unmistakable (universe : list (pyval * pyval * pyval)) (u : string) : bool :=
  plain u && negb (all_chars iso_char u) &&
  forallb
    (fun t =>
       match t with
       | (url, title, company) =>
           negb (py_in u (csv_text title)) && negb (py_in u (csv_text company)) &&
           match url with
           | PStr u' => negb (py_in u u') || String.eqb u u'
           | v => negb (py_in u (csv_text v))
           end
       end)
    universe.

(** The texts that are or may come into the Ledger during a cycle. *)
Definition universe_of (history : list ledger_row) (cands : list candidate)
  : list (pyval * pyval * pyval) :=
  (map (fun r => row_texts (snd r)) history ++
   map (fun c => row_texts (cand_record c)) cands)%list.

(** No usable URL of a candidate can be mistaken. *)
Definition unambiguous (history : list ledger_row) (cands : list candidate) : bool :=
  forallb
    (fun c =>
       match usable_url (cand_record c) with
       | Some u => unmistakable (universe_of history cands) u
       | None => true
       end)
    cands.

(** The record of a candidate with the date the clock shows in [w]. *)
Definition dated (c : candidate) (w : world) : job_data :=
  {| job_title := job_title (cand_record c);
     job_company := job_company (cand_record c);
     job_url := job_url (cand_record c);
     job_email := job_email (cand_record c);
     job_date := strftime_minutes (clock w (tick w));
     job_source := job_source (cand_record c) |}.

(** What a fetcher does with a candidate when the Ledger holds [rows]. *)
Definition run_candidate (oc : option candidate) (rows : list ledger_row)
    (job_list : list job_data) (w : world) : world * outcome (list job_data) :=
  match oc with
  | Some c =>
      if eligible rows c
      then (recorded (dated c w) w, Return (job_list ++ [dated c w])%list)
      else (w, Return job_list)
  | None => (w, Return job_list)
  end.

(** The rows are made of texts of the universe. *)
Definition rows_within (universe : list (pyval * pyval * pyval))
    (rows : list ledger_row) : Prop :=
  Forall (fun r : ledger_row => In (row_texts (snd r)) universe) rows.

(** What a loop of a fetcher achieves on well-formed elements with the
    candidates [cs], started with [job_list] when the Ledger holds [rows]:
    it returns, has written the rows [new_rows] and added their records,
    which are those of [sequence]. *)
Definition loop_result (universe : list (pyval * pyval * pyval))
    (rows : list ledger_row) (cs : list candidate) (job_list : list job_data)
    (r : world * outcome (list job_data)) : Prop :=
  exists new_rows,
    snd r = Return (job_list ++ map snd new_rows)%list /\
    log_file (fst r) = Some (ledger_text (rows ++ new_rows)%list) /\
    rows_within universe (rows ++ new_rows)%list /\
    map (fun x => without_date (snd x)) new_rows = sequence (in_ledger rows) cs.

(** A well-formed element of a JSON payload whose candidate is among
    [cands], and a list item whose candidate is among [cands]. *)
Definition known_entry_in (cands : list candidate)
    (cand_of : pyval -> option candidate) (job : pyval) : Prop :=
  typed_entry job = true /\ forall c, cand_of job = Some c -> In c cands.

Definition known_item_in (self : JobBot) (cands : list candidate) (li : li_tag) : Prop :=
  forall c, wwr_candidate self li = Some c -> In c cands.

(** The three sources answer with the given payloads. *)
Definition answers (meta : pyval) (remoteok_jobs : list pyval) (page : soup)
    (remotive_jobs : list pyval) : network :=
  {| remoteok_api := remoteok_body meta remoteok_jobs;
     weworkremotely_page := Body page;
     remotive_api := remotive_body remotive_jobs |}.

(** *** A sample cycle *)

Definition django_entry : pyval :=
  entry "title" "Django Developer" "https://remotive.com/remote-jobs/1"
    "Write to jane.doe@example.com today".

(** The Ledger holds the React listing already. *)
Definition sample_history : list ledger_row :=
  [(morning, listing "React Developer" "https://remoteok.io/jobs/13")].

Definition sample_remoteok_jobs : list pyval :=
  [python_entry; entry_without_url; react_entry].

Definition sample_page : soup := [[backend_item; marketing_item]].

(** Two listings with one URL. *)
Definition senior_python_entry : pyval :=
  entry "position" "Senior Python Developer" "https://remoteok.io/jobs/12" "remote".

(* ================================================================= *)
(** ** Vocabulary of the statements about the summary groups *)

Definition from_source (source : string) (job : job_data) : bool :=
  String.eqb source (job_source job).

(** The sources of the records, each once, in the order of their first
    record. *)
Fixpoint sources_in_order (jobs : list job_data) : list string :=
  match jobs with
  | [] => []
  | job :: rest =>
      job_source job
      :: filter (fun s => negb (String.eqb s (job_source job))) (sources_in_order rest)
  end.

(** Every source with its records, in the order they came. *)
Definition grouped (jobs : list job_data) : list (string * list job_data) :=
  map (fun s => (s, filter (from_source s) jobs)) (sources_in_order jobs).

(** The bot with its keywords replaced. *)
Definition with_keywords (keywords : list string) (self : JobBot) : JobBot :=
  {| email := email self; app_password := app_password self; cv_path := cv_path self;
     run_interval_hours := run_interval_hours self; job_keywords := keywords;
     applied_jobs_log := applied_jobs_log self;
     rate_limit_delay := rate_limit_delay self |}.

(* ================================================================= *)
(** ** Vocabulary of the statements about reading the Ledger back *)

(** What [job_already_applied] answers for [u] on a file with these
    contents. *)
Definition seen (contents u : string) : bool :=
  py_in u (universal_newlines contents).

(** A URL that comes back from the file as it went in: it holds no
    quote character, which [csv.writer] doubles, and no carriage return,
    which reading turns into a line feed. *)
Definition survives_round_trip (u : string) : bool :=
  negb (has_char DQUOTE u) && negb (has_char CR u).

(** A text without line break. *)
Definition one_line (s : string) : bool :=
  negb (has_char CR s) && negb (has_char LF s).

(** The three texts a record gives to its row are without line break. *)
Definition one_line_record (job : job_data) : bool :=
  one_line (csv_text (job_url job)) && one_line (csv_text (job_title job)) &&
  one_line (csv_text (job_company job)).

(** The file is empty or ends with a line break. *)
Fixpoint complete_lines (contents : string) : bool :=
  match contents with
  | EmptyString => true
  | String c rest =>
      match rest with
      | EmptyString => Ascii.eqb c LF || Ascii.eqb c CR
      | String _ _ => complete_lines rest
      end
  end.

Definition complete_log (w : world) : bool :=
  match log_file w with
  | None => true
  | Some contents => complete_lines contents
  end.

(* ================================================================= *)
(** ** Vocabulary of the statements about the mails of a cycle *)

(** The call of [send_email] a record gives rise to: one when it has an
    address. *)
Definition application (job : job_data) : list mail :=
  match job_email job with
  | Some address =>
      if negb (String.eqb address EmptyString) then [Application job address] else []
  | None => []
  end.

Definition applications (jobs : list job_data) : list mail :=
  flat_map application jobs.

(** The messages among those of some calls of [send_email] that reach the
    mail server: those whose headers are stored. *)
Definition handed (self : JobBot) (calls : list mail) : list mail :=
  filter (headers_stored self) calls.

(** The world after the summary loop made these calls, each followed by a
    sleep of one second. *)
Definition after_applications (self : JobBot) (calls : list mail) (w : world) : world :=
  set_slept (slept w ++ map (fun _ => 1%Z) calls)%list
    (set_outbox (outbox w ++ handed self calls)%list w).

(** How many of the messages the mail server accepts. *)
Definition accepted (accepts : mail -> bool) (sent : list mail) : nat :=
  List.length (filter accepts sent).

(** The report that ends a cycle. *)
Definition report (self : JobBot) (total : nat) (jobs : list job_data)
    (accepts : mail -> bool) : mail :=
  match jobs with
  | [] => NoNewJobs total
  | _ :: _ =>
      let applied_count :=
        accepted accepts (handed self (applications (all_of (jobs_by_source jobs)))) in
      Summary jobs applied_count (total + applied_count)
  end.

(* ================================================================= *)
(** ** Vocabulary of the statements about what a cycle leaves behind *)

Definition known_source (source : string) : bool :=
  existsb (String.eqb source) ["RemoteOK"; "WeWorkRemotely"; "Remotive"].

(** The pauses of one aggregation: one after each source, none at all when
    the delay is negative and [time.sleep] refuses it. *)
Definition pacing_sleeps (self : JobBot) : list Z :=
  if (rate_limit_delay self <? 0)%Z then []
  else [rate_limit_delay self; rate_limit_delay self; rate_limit_delay self].

(** An iteration of [run_continuous] in which the search returns and
    nothing interrupts: the search, then the long sleep. *)
Definition quiet_iteration (self : JobBot) (net : network) (w : world) : world :=
  fst (time_sleep (run_interval_hours self * 3600) (fst (run_job_search self net w))).

Fixpoint quiet_run (n : nat) (self : JobBot) (nets : nat -> network) (i : nat)
    (w : world) : world :=
  match n with
  | O => w
  | S n' => quiet_run n' self nets (S i) (quiet_iteration self (nets i) w)
  end.

Definition never (_ : nat) : option phase := None.

(* ================================================================= *)
(** ** Vocabulary of the statements about two cycles in a row *)

(** What a fetcher does with a candidate when the file holds [contents]:
    the URL is looked for in the text of the file. *)
Definition run_seen (oc : option candidate) (contents : string)
    (job_list : list job_data) (w : world) : world * outcome (list job_data) :=
  match oc with
  | Some c =>
      if eligible_for (seen contents) c
      then (recorded (dated c w) w, Return (job_list ++ [dated c w])%list)
      else (w, Return job_list)
  | None => (w, Return job_list)
  end.

(** None of the candidates would be emitted on a file with these
    contents. *)
Definition settled (contents : string) (cs : list candidate) : Prop :=
  forall c, In c cs -> eligible_for (seen contents) c = false.

(** What is found in the first text is found in the second. *)
Definition grown (contents contents' : string) : Prop :=
  forall u, seen contents u = true -> seen contents' u = true.

(** The URL of the candidate, when it is usable, comes back from the
    file as it went in. *)
Definition clean_candidate (c : candidate) : bool :=
  match usable_url (cand_record c) with
  | Some u => survives_round_trip u
  | None => true
  end.

(** An entry of a JSON payload with text fields and a clean URL. *)
Definition clean_entry (job : pyval) : bool :=
  typed_entry job &&
  match job with
  | PDict d =>
      match field "url" (PStr EmptyString) d with
      | PStr u => survives_round_trip u
      | _ => true
      end
  | _ => false
  end.

(** A list item whose link is clean. *)
Definition clean_item (li : li_tag) : bool :=
  match li_href li with
  | Some href => survives_round_trip href
  | None => true
  end.

(** The entries the three fetchers go through, for answers of the expected
    kind; an answer of another kind has none. *)
Definition remoteok_entries (r : fetched (option pyval)) : list pyval :=
  match r with
  | Body (Some (PList l)) => List.tl l
  | _ => []
  end.

Definition remotive_entries (r : fetched (option pyval)) : list pyval :=
  match r with
  | Body (Some (PDict d)) =>
      match assoc "jobs" d with
      | Some (PList l) => l
      | _ => []
      end
  | _ => []
  end.

Definition page_sections (r : fetched soup) : soup :=
  match r with
  | Body page => page
  | _ => []
  end.

(** The candidates of a cycle, in the order the fetchers meet them. *)
Definition candidates_of (self : JobBot) (net : network) : list candidate :=
  (somes (map (remoteok_candidate self) (remoteok_entries (remoteok_api net))) ++
   somes (map (wwr_candidate self)
            (List.concat (page_sections (weworkremotely_page net)))) ++
   somes (map (remotive_candidate self) (remotive_entries (remotive_api net))))%list.

(** The answers of the three sources hold clean entries only. *)
Definition clean_answers (net : network) : bool :=
  forallb clean_entry (remoteok_entries (remoteok_api net)) &&
  forallb (forallb clean_item) (page_sections (weworkremotely_page net)) &&
  forallb clean_entry (remotive_entries (remotive_api net)).

(** A page with two listings and a Remotive answer with one. *)
Definition sample_answers : network :=
  answers metadata sample_remoteok_jobs sample_page [django_entry].

(* ================================================================= *)
(** ** Vocabulary of the statements about the listing page *)

(** The record [fetch_wwr_jobs] makes of a list item. *)
Definition wwr_record_of (self : JobBot) (li : li_tag) (job : job_data) : Prop :=
  exists href title_text,
    li_href li = Some href /\ li_title li = Some title_text /\
    matches_keywords self (PStr title_text) = Return true /\
    job_url job = PStr (WWR_BASE ++ href) /\
    job_title job = PStr (strip title_text) /\
    job_company job
    = PStr (match li_company li with
            | Some company_text => strip company_text
            | None => "Unknown"
            end) /\
    job_email job = None /\
    job_source job = "WeWorkRemotely".

(* ================================================================= *)
(** ** Vocabulary of the statements about the records of the two APIs *)

(** The world after the rows of these records were written, one after
    the other. *)
Definition recorded_all (jobs : list job_data) (w : world) : world :=
  fold_left (fun w' job => recorded job w') jobs w.

(** The record a JSON fetcher makes of an object of its payload, given the
    title it read from it. *)
Definition json_record_of (self : JobBot) (source company_key : string)
    (d : list (string * pyval)) (title : pyval) (job : job_data) : Prop :=
  or_else (matches_keywords self title)
    (matches_keywords self (field "description" (PStr EmptyString) d)) = Return true /\
  job_title job = title /\
  job_company job = field company_key (PStr "Unknown") d /\
  job_url job = field "url" (PStr EmptyString) d /\
  truthy (job_url job) = true /\
  extract_email self (field "description" (PStr EmptyString) d) = Return (job_email job) /\
  job_source job = source.

Definition remoteok_record_of (self : JobBot) (entry : pyval) (job : job_data) : Prop :=
  exists d, entry = PDict d /\
            json_record_of self "RemoteOK" "company" d (remoteok_title d) job.

Definition remotive_record_of (self : JobBot) (entry : pyval) (job : job_data) : Prop :=
  exists d, entry = PDict d /\
            json_record_of self "Remotive" "company_name" d
              (field "title" (PStr EmptyString) d) job.

(** A record with an address, as the two API fetchers build them. *)
Definition contact_listing (title address : string) : job_data :=
  {| job_title := PStr title; job_company := PStr "Acme";
     job_url := PStr "https://remoteok.io/jobs/12";
     job_email := Some address; job_date := strftime_minutes morning;
     job_source := "RemoteOK" |}.

(** A title of two lines. *)
Definition two_line_title : string :=
  "Python Developer" ++ String LF "(remote)".

(* ================================================================= *)
(** * Statements *)

(** ** The Ledger *)

(** C1.  [job_already_applied] looks the URL up as a substring of the whole
    file: after the single entry for [.../jobs/12] was appended to an empty
    Ledger, the query for [.../jobs/1], a URL no entry has, answers [True]. *)
Theorem contains_answers_true_for_a_url_never_appended :
  let entries := [listing "Python Developer" "https://remoteok.io/jobs/12"] in
  let w := fst (append_all sample_bot entries (world_at morning None)) in
  contains sample_bot "https://remoteok.io/jobs/1" w = Return true /\
  ~ In (PStr "https://remoteok.io/jobs/1") (map job_url entries).
Proof.
  split.
  - vm_compute. reflexivity.
  - simpl. intros [H | []]. discriminate H.
Qed.

(** C6.  [get_stats] counts the lines of the file and [job_already_applied]
    reads the file as plain text: one appended entry whose title holds a
    line break is counted as two, and a URL that holds a quote character is
    not found again after it was appended. *)
Theorem round_trip_fails_on_line_break_and_quote :
  (let entries := [listing ("Senior" ++ String LF "Developer") "https://remoteok.io/jobs/7"] in
   let w := fst (append_all sample_bot entries (world_at morning None)) in
   List.length entries = 1 /\ count sample_bot w = Return 2) /\
  (let url := "https://remoteok.io/jobs?q=" ++ String DQUOTE ("dev" ++ String DQUOTE EmptyString) in
   let w := fst (append_all sample_bot [listing "Developer" url] (world_at morning None)) in
   contains sample_bot url w = Return false).
Proof.
  split.
  - split; vm_compute; reflexivity.
  - vm_compute. reflexivity.
Qed.

(** C9.  The rows written during a run carry the clock's reading, and the
    membership test searches them too: with the same payload, keywords and
    initial Ledger, the listing whose URL is [T10:00] is dropped by the run
    at ten o'clock and returned by the run at noon. *)
Theorem two_runs_differ_with_the_clock :
  let net :=
    with_remoteok [metadata;
                   entry "position" "Python Developer" "https://remoteok.io/jobs/12" "remote";
                   entry "position" "Backend Developer" "T10:00" "remote"] in
  let run d := snd (fetch_all_jobs sample_bot net (world_at d (Some EmptyString))) in
  exists jobs1 jobs2,
    run morning = Return jobs1 /\ run noon = Return jobs2 /\
    List.length jobs1 = 1 /\ List.length jobs2 = 2 /\
    map without_date jobs1 <> map without_date jobs2.
Proof.
  eexists. eexists.
  split; [vm_compute; reflexivity|].
  split; [vm_compute; reflexivity|].
  split; [reflexivity|].
  split; [reflexivity|].
  intro H. apply (f_equal (@List.length job_data)) in H. discriminate H.
Qed.

(** ** Text lemmas *)

Lemma append_empty_r (s : string) : s ++ EmptyString = s.
Proof.
  induction s as [|c s IH]; simpl; [reflexivity | now rewrite IH].
Qed.

Lemma append_assoc (a b c : string) : (a ++ b) ++ c = a ++ b ++ c.
Proof.
  induction a as [|x a IH]; simpl; [reflexivity | now rewrite IH].
Qed.

Lemma prefix_append (a b : string) : String.prefix a (a ++ b) = true.
Proof.
  induction a as [|x a IH]; simpl.
  - destruct b; reflexivity.
  - destruct (ascii_dec x x) as [_ | N]; [exact IH | now elim N].
Qed.

Lemma prefix_split (a s : string) :
  String.prefix a s = true -> exists b, s = a ++ b.
Proof.
  revert s. induction a as [|x a IH]; intros s H.
  - exists s. reflexivity.
  - destruct s as [|y s]; simpl in H; [discriminate|].
    destruct (ascii_dec x y) as [-> | _]; [|discriminate].
    destruct (IH s H) as [b ->]. exists b. reflexivity.
Qed.

(** [py_in] is the substring relation. *)
Lemma py_in_nil (sub : string) :
  py_in sub EmptyString = String.prefix sub EmptyString.
Proof.
  change (py_in sub EmptyString)
    with (if String.prefix sub EmptyString then true else false).
  now destruct (String.prefix sub EmptyString).
Qed.

Lemma py_in_cons (sub : string) (c : ascii) (s : string) :
  py_in sub (String c s) = String.prefix sub (String c s) || py_in sub s.
Proof.
  change (py_in sub (String c s))
    with (if String.prefix sub (String c s) then true else py_in sub s).
  now destruct (String.prefix sub (String c s)).
Qed.

Lemma py_in_true (sub s : string) :
  py_in sub s = true <-> substring_of sub s.
Proof.
  split.
  - induction s as [|c s IH].
    + rewrite py_in_nil. intro P.
      destruct (prefix_split _ _ P) as [b E].
      exists EmptyString, b. exact E.
    + rewrite py_in_cons. intro H. apply orb_true_iff in H as [P | H].
      * destruct (prefix_split _ _ P) as [b E].
        exists EmptyString, b. exact E.
      * destruct (IH H) as (a & b & E).
        exists (String c a), b. simpl. now rewrite E.
  - intros (a & b & E). subst s.
    induction a as [|c a IH].
    + change (EmptyString ++ sub ++ b) with (sub ++ b).
      destruct (sub ++ b) as [|x r] eqn:E.
      * rewrite py_in_nil, <- E. apply prefix_append.
      * rewrite py_in_cons, <- E, prefix_append. reflexivity.
    + change (String c a ++ sub ++ b) with (String c (a ++ sub ++ b)).
      rewrite py_in_cons, IH. apply orb_true_r.
Qed.

(** ** [extract_email] *)

Section MatchPlus.

Variable cls : ascii -> bool.
Variable k : string -> option string.

  (** A successful match splits off a non-empty run of the class, after
      which the rest of the pattern matched. *)
Lemma match_plus_sound (s m : string) :
    match_plus cls k s = Some m ->
    exists run m' s',
      nonempty run = true /\ all_chars cls run = true /\
      m = run ++ m' /\ s = run ++ s' /\ k s' = Some m'.
  Proof.
    revert m. induction s as [|c s IH]; intros m H; simpl in H; [discriminate|].
    destruct (cls c) eqn:C; [|discriminate].
    destruct (match_plus cls k s) as [m1|] eqn:R.
    - injection H as <-.
      destruct (IH m1 eq_refl) as (run & m' & s' & _ & A & -> & -> & K).
      exists (String c run), m', s'. simpl. rewrite C, A. auto.
    - destruct (k s) as [m1|] eqn:K; [|discriminate].
      injection H as <-.
      exists (String c EmptyString), m1, s. simpl. rewrite C. auto.
  Qed.

  (** The whole run is taken when the rest of the pattern matches after it
      and the next character is outside the class. *)
Lemma match_plus_run (run rest m : string) :
    nonempty run = true -> all_chars cls run = true ->
    starts_outside cls rest = true ->
    k rest = Some m ->
    match_plus cls k (run ++ rest) = Some (run ++ m).
  Proof.
    intros N A S K. induction run as [|c run IH]; [discriminate|].
    simpl in A. apply andb_true_iff in A as [C A].
    simpl. rewrite C.
    destruct run as [|c' run].
    - simpl.
      assert (match_plus cls k rest = None) as ->.
      { destruct rest as [|x rest]; simpl; [reflexivity|].
        simpl in S. apply negb_true_iff in S. now rewrite S. }
      now rewrite K.
    - now rewrite (IH eq_refl A).
  Qed.

  (** No match inside a stretch of text that ends outside the class and has
      no character the rest of the pattern could start with. *)
Lemma match_plus_stuck (q rest : string) :
    (forall c x, In c (list_ascii_of_string q) -> k (String c x) = None) ->
    nonempty q = true -> ends_outside cls q = true ->
    match_plus cls k (q ++ rest) = None.
  Proof.
    intros K. induction q as [|c q IH]; intros N E; [discriminate|].
    simpl. destruct (cls c) eqn:C; [|reflexivity].
    destruct q as [|c' q].
    - simpl in E. rewrite C in E. discriminate.
    - rewrite IH.
      + simpl. rewrite (K c'); [reflexivity|]. simpl. auto.
      + intros c0 x I. apply K. simpl in *. tauto.
      + reflexivity.
      + exact E.
  Qed.

End MatchPlus.

Lemma address_append (local domain rest after : string) :
  address local domain rest ++ after
  = local ++ String "@" (domain ++ String "." (rest ++ after)).
Proof.
  unfold address. rewrite !append_assoc. reflexivity.
Qed.

Lemma match_here_lit (c : ascii) (p : list re_item) (s m : string) :
  match_here p s = Some m ->
  match_here (Lit c :: p) (String c s) = Some (String c m).
Proof.
  intro H. simpl. rewrite Ascii.eqb_refl, H. reflexivity.
Qed.

Lemma match_here_plus (cls : ascii -> bool) (p : list re_item) :
  match_here (Plus cls :: p) = match_plus cls (match_here p).
Proof. reflexivity. Qed.

(** The pattern matches a token of its shape wholly when the text goes on
    with a character outside the last class. *)
Lemma match_here_address (local domain rest after : string) :
  email_parts local domain rest = true ->
  starts_outside cls_tld after = true ->
  match_here email_pattern (address local domain rest ++ after)
  = Some (address local domain rest).
Proof.
  unfold email_parts. intros P S.
  repeat (apply andb_true_iff in P as [P ?]).
  rewrite address_append. unfold email_pattern, address.
  rewrite match_here_plus.
  apply match_plus_run; auto.
  apply (match_here_lit "@").
  rewrite match_here_plus.
  apply match_plus_run; auto.
  apply (match_here_lit ".").
  rewrite match_here_plus.
  rewrite <- (append_empty_r rest) at 2.
  apply match_plus_run; auto.
Qed.

Lemma re_search_cons (p : list re_item) (c : ascii) (s : string) :
  re_search p (String c s)
  = match match_here p (String c s) with
    | Some m => Some m
    | None => re_search p s
    end.
Proof. reflexivity. Qed.

Lemma ends_outside_tail (cls : ascii -> bool) (c : ascii) (s : string) :
  ends_outside cls (String c s) = true -> ends_outside cls s = true.
Proof.
  destruct s as [|c' s]; [reflexivity | intro H; exact H].
Qed.

Lemma has_char_false_in (x : ascii) (s : string) (c : ascii) :
  has_char x s = false -> In c (list_ascii_of_string s) -> c <> x.
Proof.
  induction s as [|y s IH]; simpl; [tauto|].
  intros H [-> | I].
  - apply orb_false_iff in H as [H _]. apply Ascii.eqb_neq in H. congruence.
  - apply orb_false_iff in H as [_ H]. auto.
Qed.

Lemma match_here_lit_other (c c' : ascii) (p : list re_item) (s : string) :
  c' <> c -> match_here (Lit c :: p) (String c' s) = None.
Proof.
  intro N. simpl. apply Ascii.eqb_neq in N. now rewrite N.
Qed.

(** The search passes over text that has no [@] and ends outside the
    class of the local part. *)
Lemma re_search_skip (before rest : string) :
  has_char "@" before = false ->
  ends_outside cls_local before = true ->
  re_search email_pattern (before ++ rest) = re_search email_pattern rest.
Proof.
  induction before as [|c before IH]; intros A E; [reflexivity|].
  change (String c before ++ rest) with (String c (before ++ rest)).
  rewrite re_search_cons.
  assert (match_here email_pattern (String c before ++ rest) = None) as S.
  { unfold email_pattern. rewrite match_here_plus.
    apply match_plus_stuck; [|reflexivity|exact E].
    intros c0 x I. apply match_here_lit_other.
    exact (has_char_false_in _ _ _ A I). }
  change (String c (before ++ rest)) with (String c before ++ rest).
  rewrite S. apply IH.
  - simpl in A. apply orb_false_iff in A. tauto.
  - exact (ends_outside_tail _ _ _ E).
Qed.

Lemma re_search_here (p : list re_item) (s m : string) :
  match_here p s = Some m -> re_search p s = Some m.
Proof.
  intro H. destruct s; simpl; now rewrite H.
Qed.

Lemma match_here_lit_inv (c : ascii) (p : list re_item) (s m : string) :
  match_here (Lit c :: p) s = Some m ->
  exists s' m', s = String c s' /\ m = String c m' /\ match_here p s' = Some m'.
Proof.
  simpl. destruct s as [|c' s]; [discriminate|].
  destruct (Ascii.eqb c' c) eqn:E; [|discriminate].
  apply Ascii.eqb_eq in E. subst c'.
  destruct (match_here p s) as [m'|] eqn:R; [|discriminate].
  intro H. injection H as <-. exists s, m'. auto.
Qed.

(** What the pattern matches is a token of its shape at the start of the
    text. *)
Lemma match_here_email_sound (s m : string) :
  match_here email_pattern s = Some m ->
  email_shaped m /\ exists after, s = m ++ after.
Proof.
  unfold email_pattern. rewrite match_here_plus. intro H.
  apply match_plus_sound in H as (l & m1 & s1 & Nl & Al & -> & -> & K).
  apply match_here_lit_inv in K as (s2 & m2 & -> & -> & K).
  rewrite match_here_plus in K.
  apply match_plus_sound in K as (d & m3 & s3 & Nd & Ad & -> & -> & K).
  apply match_here_lit_inv in K as (s4 & m4 & -> & -> & K).
  rewrite match_here_plus in K.
  apply match_plus_sound in K as (t & m5 & s5 & Nt & At & -> & -> & K).
  simpl in K. injection K as <-.
  rewrite append_empty_r.
  split.
  - exists l, d, t. split; [reflexivity|].
    unfold email_parts. now rewrite Nl, Al, Nd, Ad, Nt, At.
  - exists s5. exact (eq_sym (address_append l d t s5)).
Qed.

Lemma re_search_email_sound (s m : string) :
  re_search email_pattern s = Some m ->
  substring_of m s /\ email_shaped m.
Proof.
  induction s as [|c s IH].
  - simpl. discriminate.
  - rewrite re_search_cons.
    destruct (match_here email_pattern (String c s)) as [m'|] eqn:H.
    + intro E. injection E as ->.
      apply match_here_email_sound in H as [Sh [after E]].
      split; [|exact Sh]. exists EmptyString, after. exact E.
    + intro R. destruct (IH R) as [(a & b & E) Sh].
      split; [|exact Sh]. exists (String c a), b. simpl. now rewrite E.
Qed.

Lemma truthy_str (s : string) : truthy (PStr s) = nonempty s.
Proof. destruct s; reflexivity. Qed.

Lemma nonempty_append (a b : string) :
  nonempty (a ++ b) = nonempty a || nonempty b.
Proof. destruct a; reflexivity. Qed.

Lemma extract_email_str (self : JobBot) (s : string) :
  extract_email self (PStr s) = Return (re_search email_pattern s).
Proof.
  unfold extract_email. rewrite truthy_str.
  destruct s; reflexivity.
Qed.

(** X17.  What [extract_email] returns: the address found is the leftmost
    match, each class taken as far as it goes.  A token of the pattern's
    shape that has no [@] before it, stands after a character outside [[a-zA-Z0-9_.+-]]
    (or at the start) and before a character outside [[a-zA-Z0-9-.]] (or at
    the end) is returned exactly, whatever follows it; every address
    returned is a substring of the description of the pattern's shape;
    [None], the empty description and a description without such a
    substring give [None]. *)
Theorem extract_email_finds_delimited_token
    (self : JobBot) (before local domain rest after : string) :
  email_parts local domain rest = true ->
  has_char "@" before = false ->
  ends_outside cls_local before = true ->
  starts_outside cls_tld after = true ->
  extract_email self (PStr (before ++ address local domain rest ++ after))
  = Return (Some (address local domain rest)) /\
  extract_email self PNone = Return None /\
  extract_email self (PStr EmptyString) = Return None /\
  (forall text,
      (forall token, substring_of token text -> ~ email_shaped token) ->
      extract_email self (PStr text) = Return None) /\
  (forall text token,
      extract_email self (PStr text) = Return (Some token) ->
      substring_of token text /\ email_shaped token).
Proof.
  intros P A E S.
  split; [|split; [reflexivity|split; [reflexivity|split]]].
  - rewrite extract_email_str, re_search_skip by assumption.
    f_equal. apply re_search_here. now apply match_here_address.
  - intros text H. rewrite extract_email_str.
    destruct (re_search email_pattern text) as [m|] eqn:R; [|reflexivity].
    apply re_search_email_sound in R as [Sub Sh].
    elim (H m Sub Sh).
  - intros text token H. rewrite extract_email_str in H.
    injection H as H. now apply re_search_email_sound.
Qed.

Lemma extract_email_finds_delimited_token_witness :
  extract_email sample_bot
    (PStr ("Write to " ++ address "jane.doe" "example" "com" ++ " today"))
  = Return (Some "jane.doe@example.com").
Proof.
  apply (extract_email_finds_delimited_token sample_bot
           "Write to " "jane.doe" "example" "com" " today");
    reflexivity.
Defined.

(** C7.  The claim fails on the code, whose docstring reads "Extract
    email address from text": the description
    [Write to jane.doe@example.com. Thank you] holds the address
    [jane.doe@example.com] at the end of a sentence, and [extract_email]
    returns [jane.doe@example.com.], the address with the full stop of the
    sentence, not the address.  The last class of the pattern,
    [[a-zA-Z0-9-.]], admits the dot. *)
Theorem extract_email_takes_trailing_dot :
  let description := "Write to jane.doe@example.com. Thank you" in
  substring_of "jane.doe@example.com" description /\
  extract_email sample_bot (PStr description) = Return (Some "jane.doe@example.com.") /\
  extract_email sample_bot (PStr description) <> Return (Some "jane.doe@example.com").
Proof.
  split; [|split].
  - exists "Write to ", ". Thank you". reflexivity.
  - reflexivity.
  - discriminate.
Qed.

(** ** Removing duplicates in [fetch_all_jobs] *)

Lemma hkey_eqb_eq (a b : hkey) : hkey_eqb a b = true <-> a = b.
Proof.
  destruct a, b; simpl; try (split; [discriminate | congruence]).
  - tauto.
  - rewrite Z.eqb_eq. split; congruence.
  - rewrite String.eqb_eq. split; congruence.
Qed.

Lemma hkey_eqb_refl (a : hkey) : hkey_eqb a a = true.
Proof. now apply hkey_eqb_eq. Qed.

Lemma hkey_eqb_sym (a b : hkey) : hkey_eqb a b = hkey_eqb b a.
Proof.
  destruct (hkey_eqb a b) eqn:E1, (hkey_eqb b a) eqn:E2; try reflexivity.
  - apply hkey_eqb_eq in E1. subst. now rewrite hkey_eqb_refl in E2.
  - apply hkey_eqb_eq in E2. subst. now rewrite hkey_eqb_refl in E1.
Qed.

Lemma same_url_refl (j : job_data) : hashable_url j = true -> same_url j j = true.
Proof.
  unfold hashable_url, same_url.
  destruct (py_hash_key (job_url j)); [discriminate|]. intros _. apply hkey_eqb_refl.
Qed.

Lemma same_url_trans (a b c : job_data) :
  same_url a b = true -> same_url b c = true -> same_url a c = true.
Proof.
  unfold same_url.
  destruct (py_hash_key (job_url a)), (py_hash_key (job_url b)),
    (py_hash_key (job_url c)); try discriminate.
  rewrite !hkey_eqb_eq. congruence.
Qed.

Lemma same_url_sym (a b : job_data) : same_url a b = same_url b a.
Proof.
  unfold same_url.
  destruct (py_hash_key (job_url a)), (py_hash_key (job_url b)); try reflexivity.
  apply hkey_eqb_sym.
Qed.

Lemma filter_filter {A : Type} (f g : A -> bool) (l : list A) :
  filter f (filter g l) = filter (fun x => g x && f x) l.
Proof.
  induction l as [|x l IH]; simpl; [reflexivity|].
  destruct (g x); simpl; [destruct (f x)|]; now rewrite IH.
Qed.

Lemma first_seen_wins_in (j : job_data) (l : list job_data) :
  In j (first_seen_wins l) -> In j l.
Proof.
  induction l as [|x l IH]; simpl; [tauto|].
  intros [-> | H]; [now left|].
  apply filter_In in H as [H _]. right. auto.
Qed.

(** The loop of the source computes first-seen-wins: started with the
    records [unique_jobs] and the set [seen_urls], it adds the first record
    of every URL that is not in the set. *)
Lemma unique_loop_spec (l unique_jobs : list job_data) (seen_urls : list hkey) :
  forallb hashable_url l = true ->
  unique_loop l unique_jobs seen_urls
  = Return (unique_jobs ++ filter (fun j => negb (has_key seen_urls j)) (first_seen_wins l))%list.
Proof.
  revert unique_jobs seen_urls.
  induction l as [|j l IH]; intros acc seen H; simpl.
  - now rewrite app_nil_r.
  - simpl in H. apply andb_true_iff in H as [Hj Hl].
    unfold hashable_url in Hj. unfold has_key at 1.
    destruct (py_hash_key (job_url j)) as [|k] eqn:K; [discriminate|].
    assert (forall x, In x (first_seen_wins l) ->
                      same_url j x = match py_hash_key (job_url x) with
                                     | Return kx => hkey_eqb kx k
                                     | Raise _ => false
                                     end) as Same.
    { intros x _. unfold same_url. rewrite K.
      destruct (py_hash_key (job_url x)); [reflexivity | apply hkey_eqb_sym]. }
    destruct (existsb (hkey_eqb k) seen) eqn:S; simpl.
    + rewrite IH by exact Hl. f_equal. f_equal.
      rewrite filter_filter. apply filter_ext_in. intros x I.
      rewrite (Same x I). unfold has_key.
      destruct (py_hash_key (job_url x)) as [|kx]; [reflexivity|].
      destruct (hkey_eqb kx k) eqn:E; [|reflexivity].
      apply hkey_eqb_eq in E. subst kx. now rewrite S.
    + rewrite IH by exact Hl. rewrite <- app_assoc. simpl. f_equal. f_equal. f_equal.
      rewrite filter_filter. apply filter_ext_in. intros x I.
      rewrite (Same x I). unfold has_key.
      destruct (py_hash_key (job_url x)) as [|kx]; [reflexivity|].
      simpl. now rewrite negb_orb.
Qed.

Lemma filter_all {A : Type} (f : A -> bool) (l : list A) :
  (forall x, In x l -> f x = true) -> filter f l = l.
Proof.
  induction l as [|x l IH]; simpl; intro H; [reflexivity|].
  rewrite (H x) by auto. f_equal. apply IH. auto.
Qed.

Lemma remove_duplicates_spec (l : list job_data) :
  forallb hashable_url l = true ->
  remove_duplicates l = Return (first_seen_wins l).
Proof.
  intro H. unfold remove_duplicates. rewrite unique_loop_spec by exact H.
  simpl. f_equal. apply filter_all. intros x _. unfold has_key.
  now destruct (py_hash_key (job_url x)).
Qed.

Lemma subseq_refl {A : Type} (l : list A) : subseq l l.
Proof. induction l; [apply subseq_nil | now apply subseq_keep]. Qed.

Lemma subseq_filter {A : Type} (f : A -> bool) (l1 l2 : list A) :
  subseq l1 l2 -> subseq (filter f l1) l2.
Proof.
  induction 1 as [|x l1 l2 _ IH|x l1 l2 _ IH]; simpl.
  - apply subseq_nil.
  - now apply subseq_skip.
  - destruct (f x); [now apply subseq_keep | now apply subseq_skip].
Qed.

Lemma first_seen_wins_subseq (l : list job_data) : subseq (first_seen_wins l) l.
Proof.
  induction l as [|x l IH]; simpl; [apply subseq_nil|].
  apply subseq_keep. now apply subseq_filter.
Qed.

Lemma distinct_urls_filter (f : job_data -> bool) (l : list job_data) :
  distinct_urls l -> distinct_urls (filter f l).
Proof.
  induction l as [|x l IH]; simpl; [tauto|]. intros [H D].
  destruct (f x); simpl; [split|]; auto.
  intros later I. apply filter_In in I as [I _]. auto.
Qed.

Lemma first_seen_wins_distinct (l : list job_data) : distinct_urls (first_seen_wins l).
Proof.
  induction l as [|x l IH]; simpl; [exact I|]. split.
  - intros later H. apply filter_In in H as [_ H]. now apply negb_true_iff in H.
  - now apply distinct_urls_filter.
Qed.

(** Every record of the input has its URL in the output. *)
Lemma first_seen_wins_covers (l : list job_data) (j : job_data) :
  forallb hashable_url l = true -> In j l ->
  exists j', In j' (first_seen_wins l) /\ same_url j' j = true.
Proof.
  induction l as [|x l IH]; simpl; [tauto|].
  intros H I. apply andb_true_iff in H as [Hx Hl].
  destruct I as [-> | I].
  - exists j. split; [now left | now apply same_url_refl].
  - destruct (IH Hl I) as (j' & I' & S).
    destruct (same_url x j') eqn:E.
    + exists x. split; [now left | exact (same_url_trans _ _ _ E S)].
    + exists j'. split; [|exact S]. right. apply filter_In. now rewrite E.
Qed.

(** A record of the output whose URL occurs in a front part of the input
    comes from that part. *)
Lemma first_seen_wins_front (l1 l2 : list job_data) (j : job_data) :
  In j (first_seen_wins (l1 ++ l2)) ->
  (exists a, In a l1 /\ same_url a j = true) ->
  In j l1.
Proof.
  induction l1 as [|x l1 IH]; simpl.
  - intros _ (a & [] & _).
  - intros [-> | H] (a & I & S); [now left|].
    apply filter_In in H as [H N]. apply negb_true_iff in N.
    destruct I as [-> | I]; [congruence|].
    right. apply IH; eauto.
Qed.

(** A record of the output whose URL does not occur in a front part of the
    input is in the output for the rest. *)
Lemma first_seen_wins_back (l1 l2 : list job_data) (j : job_data) :
  forallb hashable_url l1 = true ->
  In j (first_seen_wins (l1 ++ l2)) ->
  (forall a, In a l1 -> same_url a j = false) ->
  In j (first_seen_wins l2).
Proof.
  induction l1 as [|x l1 IH]; simpl; [tauto|].
  intros H I N. apply andb_true_iff in H as [Hx Hl].
  destruct I as [-> | I].
  - specialize (N j (or_introl eq_refl)).
    rewrite same_url_refl in N; [discriminate | exact Hx].
  - apply filter_In in I as [I _]. apply IH; auto.
Qed.



(** ** The fetchers, one entry at a time *)

Lemma is_new_link_cases (self : JobBot) (link : pyval) (w : world) :
  (exists e, is_new_link self link w = (w, Raise e)) \/
  is_new_link self link w = (w, Return false) \/
  (is_new_link self link w = (w, Return true) /\ truthy link = true /\
   (log_exists w = true -> is_str link = true)).
Proof.
  unfold is_new_link, job_already_applied, bind, ret, log_exists.
  destruct (truthy link) eqn:T; [|auto].
  destruct (log_file w) as [contents|].
  - destruct link; eauto.
    destruct (py_in s (universal_newlines contents)); simpl; auto.
  - simpl. right. right. split; [reflexivity|]. split; [reflexivity | discriminate].
Qed.

(** Case analysis along the body of a loop over JSON entries. *)
Ltac entry_cases :=
  repeat match goal with
    | |- context [match py_get ?j ?k ?d with _ => _ end] =>
        destruct (py_get j k d) as [?e|?v]; [solve [eauto]|]
    | |- context [match or_else ?a ?b with _ => _ end] =>
        destruct (or_else a b) as [?e|[|]]; [solve [eauto]| |solve [auto]]
    | |- context [is_new_link ?s ?l ?w] =>
        destruct (is_new_link_cases s l w) as [[?e ->] | [-> | (-> & ?Tr & ?St)]];
        [solve [eauto]|solve [auto]|]
    | |- context [match extract_email ?s ?d with _ => _ end] =>
        destruct (extract_email s d) as [?e|?m]; [solve [eauto]|]
    end;
  try (right; right; eexists; split; [reflexivity|]; simpl; solve [auto]).

(** An entry of the RemoteOK array raises and leaves everything as it was,
    or is passed over, or adds one record and its row. *)
Lemma remoteok_entry_cases (self : JobBot) (job : pyval) (job_list : list job_data)
    (w : world) :
  (exists e, remoteok_entry self job job_list w = (w, Raise e)) \/
  remoteok_entry self job job_list w = (w, Return job_list) \/
  (exists job_data,
      remoteok_entry self job job_list w
      = (recorded job_data w, Return (job_list ++ [job_data])%list) /\
      job_source job_data = "RemoteOK" /\
      truthy (job_url job_data) = true /\
      (log_exists w = true -> is_str (job_url job_data) = true)).
Proof.
  unfold remoteok_entry, bind, lift, ret.
  destruct (py_get job "position" PNone) as [e|position]; [eauto|].
  destruct (truthy position); entry_cases.
Qed.

Lemma remotive_entry_cases (self : JobBot) (job : pyval) (job_list : list job_data)
    (w : world) :
  (exists e, remotive_entry self job job_list w = (w, Raise e)) \/
  remotive_entry self job job_list w = (w, Return job_list) \/
  (exists job_data,
      remotive_entry self job job_list w
      = (recorded job_data w, Return (job_list ++ [job_data])%list) /\
      job_source job_data = "Remotive" /\
      truthy (job_url job_data) = true /\
      (log_exists w = true -> is_str (job_url job_data) = true)).
Proof.
  unfold remotive_entry, bind, lift, ret. entry_cases.
Qed.

(** A list item of the WeWorkRemotely page never raises; the record it
    adds has no address. *)
Lemma wwr_entry_cases (self : JobBot) (li : li_tag) (job_list : list job_data)
    (w : world) :
  wwr_entry self li job_list w = (w, Return job_list) \/
  (exists job_data,
      wwr_entry self li job_list w
      = (recorded job_data w, Return (job_list ++ [job_data])%list) /\
      job_source job_data = "WeWorkRemotely" /\
      job_email job_data = None /\
      is_str (job_url job_data) = true).
Proof.
  unfold wwr_entry, bind, lift, ret.
  destruct (li_href li) as [href|]; [|auto].
  destruct (li_title li) as [title_text|]; [|auto].
  destruct (matches_keywords self (PStr title_text)) as [e|[|]] eqn:K; [|clear K|auto].
  { unfold matches_keywords in K. destruct (negb (truthy (PStr title_text))); discriminate. }
  unfold job_already_applied.
  destruct (log_file w) as [contents|] eqn:L.
  - destruct (py_in (WWR_BASE ++ href) (universal_newlines contents)); [auto|].
    right. eexists. split; [reflexivity|]. cbn [job_source job_email job_url is_str]. auto.
  - right. eexists. split; [reflexivity|]. cbn [job_source job_email job_url is_str]. auto.
Qed.

(** ** The fetchers as a whole *)

Section FetcherInvariants.

Variable self : JobBot.

  (** A property of the world that the writing of a row keeps, and a
      property of the records that are emitted. *)
Variable world_inv : world -> Prop.
Variable record_ok : job_data -> Prop.

Local Abbreviation kept := (kept_by world_inv record_ok).
Local Abbreviation returned := (returned_by world_inv record_ok).

Hypothesis remoteok_step : forall w job_data,
      world_inv w ->
      job_source job_data = "RemoteOK" ->
      truthy (job_url job_data) = true ->
      (log_exists w = true -> is_str (job_url job_data) = true) ->
      world_inv (recorded job_data w) /\ record_ok job_data.

Hypothesis remotive_step : forall w job_data,
      world_inv w ->
      job_source job_data = "Remotive" ->
      truthy (job_url job_data) = true ->
      (log_exists w = true -> is_str (job_url job_data) = true) ->
      world_inv (recorded job_data w) /\ record_ok job_data.

Hypothesis wwr_step : forall w job_data,
      world_inv w ->
      job_source job_data = "WeWorkRemotely" ->
      job_email job_data = None ->
      is_str (job_url job_data) = true ->
      world_inv (recorded job_data w) /\ record_ok job_data.

Lemma Forall_snoc (l : list job_data) (j : job_data) :
    Forall record_ok l -> record_ok j -> Forall record_ok (l ++ [j])%list.
  Proof.
    intros H1 H2. apply Forall_app. split; [exact H1 | now constructor].
  Qed.

Lemma remoteok_loop_kept (jobs : list pyval) (job_list : list job_data) (w : world) :
    world_inv w -> Forall record_ok job_list ->
    kept (remoteok_loop self jobs job_list w).
  Proof.
    revert job_list w. induction jobs as [|job jobs IH]; intros jl w W F.
    - split; assumption.
    - simpl. unfold bind.
      destruct (remoteok_entry_cases self job jl w)
        as [[e ->] | [-> | (jd & -> & S & T & U)]].
      + split; [exact W | exact I].
      + now apply IH.
      + destruct (remoteok_step w jd W S T U). apply IH; [assumption|].
        now apply Forall_snoc.
  Qed.

Lemma remotive_loop_kept (jobs : list pyval) (job_list : list job_data) (w : world) :
    world_inv w -> Forall record_ok job_list ->
    kept (remotive_loop self jobs job_list w).
  Proof.
    revert job_list w. induction jobs as [|job jobs IH]; intros jl w W F.
    - split; assumption.
    - simpl. unfold bind.
      destruct (remotive_entry_cases self job jl w)
        as [[e ->] | [-> | (jd & -> & S & T & U)]].
      + split; [exact W | exact I].
      + now apply IH.
      + destruct (remotive_step w jd W S T U). apply IH; [assumption|].
        now apply Forall_snoc.
  Qed.

Lemma wwr_section_kept (lis : list li_tag) (job_list : list job_data) (w : world) :
    world_inv w -> Forall record_ok job_list ->
    returned (wwr_section self lis job_list w).
  Proof.
    revert job_list w. induction lis as [|li lis IH]; intros jl w W F.
    - split; [exact W|]. exists jl. split; [reflexivity | exact F].
    - simpl. unfold bind.
      destruct (wwr_entry_cases self li jl w) as [-> | (jd & -> & S & T & U)].
      + now apply IH.
      + destruct (wwr_step w jd W S T U). apply IH; [assumption|].
        now apply Forall_snoc.
  Qed.

Lemma wwr_loop_kept (sections : soup) (job_list : list job_data) (w : world) :
    world_inv w -> Forall record_ok job_list ->
    returned (wwr_loop self sections job_list w).
  Proof.
    revert job_list w. induction sections as [|lis sections IH]; intros jl w W F.
    - split; [exact W|]. exists jl. split; [reflexivity | exact F].
    - simpl. unfold bind.
      destruct (wwr_section_kept lis jl w W F) as [W1 (jl1 & E & F1)].
      destruct (wwr_section self lis jl w) as [w1 o1]. simpl in *. subst o1.
      now apply IH.
  Qed.

  (** [try ... except: return []] turns [kept] into [returned]. *)
Lemma caught_returned (body : M (list job_data)) (handler : exn -> M (list job_data))
        (w : world) :
    kept (body w) ->
    (forall e w', handler e w' = (w', Return [])) ->
    returned (try_except body handler w).
  Proof.
    unfold kept_by, returned_by, try_except. intros [W K] H.
    destruct (body w) as [w' [e|jl]]; simpl in *.
    - rewrite H. simpl. split; [exact W|]. exists []. split; [reflexivity | constructor].
    - split; [exact W|]. exists jl. auto.
  Qed.

Lemma fetch_remoteok_jobs_returned (response : fetched (option pyval)) (w : world) :
    world_inv w -> returned (fetch_remoteok_jobs self response w).
  Proof.
    intro W. unfold fetch_remoteok_jobs. apply caught_returned; [|reflexivity].
    unfold bind, response_body, response_json, lift, raise, ret.
    destruct response as [e|c|[v|]]; try (split; [exact W | exact I]).
    destruct (py_slice_from_1 v) as [e|rest]; [split; [exact W | exact I]|].
    destruct (py_iter rest) as [e|items]; [split; [exact W | exact I]|].
    apply remoteok_loop_kept; [exact W | constructor].
  Qed.

Lemma fetch_remotive_jobs_returned (response : fetched (option pyval)) (w : world) :
    world_inv w -> returned (fetch_remotive_jobs self response w).
  Proof.
    intro W. unfold fetch_remotive_jobs. apply caught_returned.
    2: { intros e w'. destruct e; reflexivity. }
    unfold bind, response_body, response_json, lift, raise, ret.
    destruct response as [e|c|[v|]]; try (split; [exact W | exact I]).
    destruct (py_get v "jobs" (PList [])) as [e|jobs]; [split; [exact W | exact I]|].
    destruct (py_iter jobs) as [e|items]; [split; [exact W | exact I]|].
    apply remotive_loop_kept; [exact W | constructor].
  Qed.

Lemma fetch_wwr_jobs_returned (response : fetched soup) (w : world) :
    world_inv w -> returned (fetch_wwr_jobs self response w).
  Proof.
    intro W. unfold fetch_wwr_jobs. apply caught_returned.
    2: { intros e w'. destruct e; reflexivity. }
    unfold bind, response_body, raise, ret.
    destruct response as [e|c|page]; try (split; [exact W | exact I]).
    destruct (wwr_loop_kept page [] w W (Forall_nil _)) as [W1 (jl & E & F)].
    split; [exact W1|]. now rewrite E.
  Qed.

Hypothesis sleep_step : forall w seconds,
      world_inv w -> world_inv (fst (time_sleep seconds w)).

Lemma fetch_from_returns (source_func : M (list job_data))
        (all_jobs jobs : list job_data) (w w' : world) :
    source_func w = (w', Return jobs) ->
    fetch_from self source_func all_jobs w
    = (paced self w', Return (all_jobs ++ jobs)%list).
  Proof.
    intro H. unfold fetch_from. now rewrite H.
  Qed.

  (** [fetch_all_jobs] runs the three fetchers one after the other, each
      in the world the one before left, and removes the duplicates from
      what they returned. *)
Lemma fetch_all_jobs_runs_all (net : network) (w : world) :
    world_inv w ->
    exists wa wb wc from_a from_b from_c,
      fetch_remoteok_jobs self (remoteok_api net) w = (wa, Return from_a) /\
      fetch_wwr_jobs self (weworkremotely_page net) (paced self wa) = (wb, Return from_b) /\
      fetch_remotive_jobs self (remotive_api net) (paced self wb) = (wc, Return from_c) /\
      fetch_all_jobs self net w
      = (paced self wc, remove_duplicates (from_a ++ from_b ++ from_c)%list) /\
      world_inv (paced self wc) /\
      Forall record_ok (from_a ++ from_b ++ from_c)%list.
  Proof.
    intro W.
    destruct (fetch_remoteok_jobs_returned (remoteok_api net) w W) as [Wa (ja & Ea & Fa)].
    destruct (fetch_remoteok_jobs self (remoteok_api net) w) as [wa oa] eqn:Ra.
    simpl in Wa, Ea. subst oa.
    apply (sleep_step _ (rate_limit_delay self)) in Wa. fold (paced self wa) in Wa.
    destruct (fetch_wwr_jobs_returned (weworkremotely_page net) _ Wa) as [Wb (jb & Eb & Fb)].
    destruct (fetch_wwr_jobs self (weworkremotely_page net) (paced self wa)) as [wb ob] eqn:Rb.
    simpl in Wb, Eb. subst ob.
    apply (sleep_step _ (rate_limit_delay self)) in Wb. fold (paced self wb) in Wb.
    destruct (fetch_remotive_jobs_returned (remotive_api net) _ Wb) as [Wc (jc & Ec & Fc)].
    destruct (fetch_remotive_jobs self (remotive_api net) (paced self wb)) as [wc oc] eqn:Rc.
    simpl in Wc, Ec. subst oc.
    apply (sleep_step _ (rate_limit_delay self)) in Wc. fold (paced self wc) in Wc.
    exists wa, wb, wc, ja, jb, jc.
    repeat split; try assumption.
    - unfold fetch_all_jobs, bind.
      rewrite (fetch_from_returns _ [] ja w wa Ra).
      rewrite (fetch_from_returns _ _ jb _ wb Rb).
      rewrite (fetch_from_returns _ _ jc _ wc Rc).
      unfold lift. simpl. now rewrite <- app_assoc.
    - apply Forall_app. split; [exact Fa|]. apply Forall_app. now split.
  Qed.

End FetcherInvariants.

(** ** Failure of one source *)

Lemma log_exists_recorded (job : job_data) (w : world) :
  log_exists (recorded job w) = true.
Proof.
  unfold recorded, log_exists. simpl. now destruct (log_file w).
Qed.

Lemma log_file_time_sleep (seconds : Z) (w : world) :
  log_file (fst (time_sleep seconds w)) = log_file w.
Proof.
  unfold time_sleep. now destruct (seconds <? 0)%Z.
Qed.

Lemma log_exists_time_sleep (seconds : Z) (w : world) :
  log_exists w = true -> log_exists (fst (time_sleep seconds w)) = true.
Proof.
  unfold log_exists. now rewrite log_file_time_sleep.
Qed.

Lemma is_str_hashable (job : job_data) :
  is_str (job_url job) = true -> hashable_url job = true.
Proof.
  unfold hashable_url. now destruct (job_url job).
Qed.

(** With the log file in place, the three fetchers return records whose
    URLs are strings, and the de-duplication returns. *)
Lemma fetch_all_jobs_with_log (self : JobBot) (net : network) (w : world) :
  log_exists w = true ->
  exists wa wb wc from_a from_b from_c,
    fetch_remoteok_jobs self (remoteok_api net) w = (wa, Return from_a) /\
    fetch_wwr_jobs self (weworkremotely_page net) (paced self wa) = (wb, Return from_b) /\
    fetch_remotive_jobs self (remotive_api net) (paced self wb) = (wc, Return from_c) /\
    fetch_all_jobs self net w
    = (paced self wc, Return (first_seen_wins (from_a ++ from_b ++ from_c)%list)) /\
    forallb hashable_url (from_a ++ from_b ++ from_c)%list = true.
Proof.
  intro L.
  destruct (fetch_all_jobs_runs_all self
              (fun w => log_exists w = true) (fun j => hashable_url j = true))
    with (net := net) (w := w)
    as (wa & wb & wc & ja & jb & jc & Ea & Eb & Ec & E & _ & F); try exact L.
  - intros w0 jd W _ _ U. split; [apply log_exists_recorded|].
    apply is_str_hashable, U, W.
  - intros w0 jd W _ _ U. split; [apply log_exists_recorded|].
    apply is_str_hashable, U, W.
  - intros w0 jd W _ _ U. split; [apply log_exists_recorded|].
    apply is_str_hashable, U.
  - intros w0 seconds W. now apply log_exists_time_sleep.
  - exists wa, wb, wc, ja, jb, jc.
    assert (forallb hashable_url (ja ++ jb ++ jc)%list = true) as H.
    { apply forallb_forall. rewrite Forall_forall in F. exact F. }
    repeat split; try assumption.
    rewrite E. now rewrite remove_duplicates_spec.
Qed.

Lemma remoteok_entry_not_dict (self : JobBot) (job : pyval) :
  is_dict job = false ->
  forall jl w, exists e, remoteok_entry self job jl w = (w, Raise e).
Proof.
  intros H jl w. destruct job; try discriminate; exists AttributeError; reflexivity.
Qed.

Lemma remotive_entry_not_dict (self : JobBot) (job : pyval) :
  is_dict job = false ->
  forall jl w, exists e, remotive_entry self job jl w = (w, Raise e).
Proof.
  intros H jl w. destruct job; try discriminate; exists AttributeError; reflexivity.
Qed.

(** A loop over elements none of which is an object returns the empty
    list when there is no element, and raises at the first otherwise. *)
Lemma remoteok_loop_no_dict (self : JobBot) (l : list pyval) (w : world) :
  Forall (fun x => is_dict x = false) l ->
  remoteok_loop self l [] w = (w, Return []) \/
  exists e, remoteok_loop self l [] w = (w, Raise e).
Proof.
  intro F. destruct F as [|x l D _]; [now left|]. right.
  cbn [remoteok_loop]. unfold bind.
  destruct (remoteok_entry_not_dict self x D [] w) as [e ->]. eauto.
Qed.

Lemma remotive_loop_no_dict (self : JobBot) (l : list pyval) (w : world) :
  Forall (fun x => is_dict x = false) l ->
  remotive_loop self l [] w = (w, Return []) \/
  exists e, remotive_loop self l [] w = (w, Raise e).
Proof.
  intro F. destruct F as [|x l D _]; [now left|]. right.
  cbn [remotive_loop]. unfold bind.
  destruct (remotive_entry_not_dict self x D [] w) as [e ->]. eauto.
Qed.

Lemma chars_of_no_dict (s : string) : Forall (fun x => is_dict x = false) (chars_of s).
Proof. induction s; simpl; constructor; auto. Qed.

Lemma keys_no_dict (d : list (string * pyval)) :
  Forall (fun x => is_dict x = false) (map (fun kv => PStr (fst kv)) d).
Proof. induction d; simpl; constructor; auto. Qed.

Lemma fetch_remoteok_jobs_failed (self : JobBot) (r : fetched (option pyval)) (w : world) :
  remoteok_fetch_failed r = true -> fetch_remoteok_jobs self r w = (w, Return []).
Proof.
  destruct r as [e|c|[v|]]; try reflexivity.
  destruct v as [| | | s | |d]; try reflexivity; try discriminate. intros _.
  unfold fetch_remoteok_jobs, try_except, bind, response_body, response_json,
    lift, ret. cbn [py_slice_from_1 py_iter].
  destruct (remoteok_loop_no_dict self _ w (chars_of_no_dict
              match s with EmptyString => EmptyString | String _ s' => s' end))
    as [-> | [e ->]]; reflexivity.
Qed.

Lemma fetch_remotive_jobs_failed (self : JobBot) (r : fetched (option pyval)) (w : world) :
  remotive_fetch_failed r = true -> fetch_remotive_jobs self r w = (w, Return []).
Proof.
  destruct r as [e|c|[v|]]; try (destruct e; reflexivity); try reflexivity.
  destruct v as [| | | s | |d]; try reflexivity.
  unfold remotive_fetch_failed, fetch_remotive_jobs, try_except, bind, response_body,
    response_json, lift, ret, py_get.
  destruct (assoc "jobs" d) as [[| | | s | |d']|]; try discriminate; intros _;
    try reflexivity; cbn [py_iter].
  - destruct (remotive_loop_no_dict self _ w (chars_of_no_dict s)) as [-> | [e ->]];
      [reflexivity | destruct e; reflexivity].
  - destruct (remotive_loop_no_dict self _ w (keys_no_dict d')) as [-> | [e ->]];
      [reflexivity | destruct e; reflexivity].
Qed.

Lemma fetch_wwr_jobs_failed (self : JobBot) (r : fetched soup) (w : world) :
  page_fetch_failed r = true -> fetch_wwr_jobs self r w = (w, Return []).
Proof.
  destruct r as [e|c|page]; [destruct e; reflexivity|reflexivity|discriminate].
Qed.

(** A fetcher returns a list whatever it is given. *)
Lemma fetchers_never_raise (self : JobBot) (w : world) :
  (forall r, exists w' jobs, fetch_remoteok_jobs self r w = (w', Return jobs)) /\
  (forall r, exists w' jobs, fetch_wwr_jobs self r w = (w', Return jobs)) /\
  (forall r, exists w' jobs, fetch_remotive_jobs self r w = (w', Return jobs)).
Proof.
  assert (forall r : world * outcome (list job_data),
             returned_by (fun _ => True) (fun _ => True) r ->
             exists w' jobs, r = (w', Return jobs)) as R.
  { intros [w' o] [_ (jobs & E & _)]. simpl in E. subst o. eauto. }
  split; [|split]; intro r; apply R.
  - apply fetch_remoteok_jobs_returned; auto.
  - apply fetch_wwr_jobs_returned; auto.
  - apply fetch_remotive_jobs_returned; auto.
Qed.



(** ** Header values and [send_email] *)

Lemma has_line_boundary_app (a b : string) :
  has_line_boundary (a ++ b) = has_line_boundary a || has_line_boundary b.
Proof.
  induction a as [|c a IH]; [reflexivity|].
  cbn [append has_line_boundary]. now rewrite IH, orb_assoc.
Qed.

Lemma append_not_empty (line : string) (c : ascii) :
  String.eqb (line ++ String c EmptyString) EmptyString = false.
Proof. destruct line; reflexivity. Qed.

(** A text without line boundary is at most one line. *)
Lemma splitlines_from_plain (s : string) :
  forall line,
    has_line_boundary s = false ->
    splitlines_from line s = if String.eqb (line ++ s) EmptyString then [] else [line ++ s].
Proof.
  induction s as [|c s IH]; intros line H.
  - cbn [splitlines_from]. now rewrite append_empty_r.
  - cbn [has_line_boundary] in H. apply orb_false_iff in H as [Hc Hs].
    cbn [splitlines_from]. rewrite Hc, (IH _ Hs).
    now rewrite append_assoc.
Qed.

(** A line begun is a line. *)
Lemma splitlines_from_begun (s line : string) :
  String.eqb line EmptyString = false -> (1 <= List.length (splitlines_from line s))%nat.
Proof.
  revert line. induction s as [|c s IH]; intros line H.
  - cbn [splitlines_from]. rewrite H. simpl. lia.
  - cbn [splitlines_from]. destruct (is_line_boundary c).
    + simpl. lia.
    + apply IH, append_not_empty.
Qed.

Lemma splitlines_from_not_empty (s line : string) :
  s <> EmptyString -> (1 <= List.length (splitlines_from line s))%nat.
Proof.
  destruct s as [|c s]; [congruence|]. intros _.
  cbn [splitlines_from]. destruct (is_line_boundary c).
  - simpl. lia.
  - apply splitlines_from_begun, append_not_empty.
Qed.

(** A line boundary with text after it makes several lines. *)
Lemma splitlines_from_broken (t b : string) :
  forall line,
    has_line_boundary t = true -> has_line_boundary b = false -> b <> EmptyString ->
    (2 <= List.length (splitlines_from line (t ++ b)))%nat.
Proof.
  induction t as [|c t IH]; intros line Ht Hb Nb; [discriminate|].
  cbn [append splitlines_from]. destruct (is_line_boundary c) eqn:Bc.
  - cbn [List.length]. apply le_n_S.
    destruct (t ++ b) as [|c' rest'] eqn:E.
    { destruct t; [simpl in E; congruence | discriminate]. }
    destruct (Ascii.eqb c CR && Ascii.eqb c' LF) eqn:P.
    + apply andb_true_iff in P as [_ P]. apply Ascii.eqb_eq in P. subst c'.
      destruct t as [|c1 t1].
      * simpl in E. subst b. discriminate.
      * cbn [append] in E. injection E as _ <-.
        apply splitlines_from_not_empty.
        destruct t1; [simpl; exact Nb | discriminate].
    + now apply splitlines_from_not_empty.
  - cbn [has_line_boundary] in Ht. rewrite Bc in Ht. now apply IH.
Qed.

Lemma splitlines_from_prefix (a s : string) :
  forall line,
    has_line_boundary a = false ->
    splitlines_from line (a ++ s) = splitlines_from (line ++ a) s.
Proof.
  induction a as [|c a IH]; intros line H.
  - cbn [append]. now rewrite append_empty_r.
  - cbn [has_line_boundary] in H. apply orb_false_iff in H as [Hc Ha].
    cbn [append splitlines_from]. rewrite Hc, (IH _ Ha).
    now rewrite append_assoc.
Qed.

Lemma header_stored_plain (s : string) :
  has_line_boundary s = false -> header_stored s = true.
Proof.
  intro H. unfold header_stored, header_store_parse, splitlines.
  rewrite (splitlines_from_plain _ _ H).
  now destruct (String.eqb (EmptyString ++ s) EmptyString).
Qed.

(** A value between two fixed texts is stored when it holds no line
    boundary, and only then. *)
Lemma header_stored_between (a t b : string) :
  has_line_boundary a = false -> has_line_boundary b = false -> b <> EmptyString ->
  header_stored (a ++ t ++ b) = negb (has_line_boundary t).
Proof.
  intros Ha Hb Nb. destruct (has_line_boundary t) eqn:Ht.
  - unfold header_stored, header_store_parse, splitlines.
    rewrite (splitlines_from_prefix _ _ _ Ha).
    pose proof (splitlines_from_broken t b (EmptyString ++ a) Ht Hb Nb) as L.
    destruct (Nat.ltb_spec 1 (List.length (splitlines_from (EmptyString ++ a) (t ++ b))));
      [reflexivity | lia].
  - apply header_stored_plain. rewrite !has_line_boundary_app, Ha, Ht, Hb. reflexivity.
Qed.

Lemma has_line_boundary_uint (d : Decimal.uint) :
  has_line_boundary (NilEmpty.string_of_uint d) = false.
Proof. induction d; cbn [NilEmpty.string_of_uint has_line_boundary]; auto. Qed.

Lemma has_line_boundary_str_int (z : Z) : has_line_boundary (str_int z) = false.
Proof.
  unfold str_int, NilZero.string_of_int, NilZero.string_of_uint.
  destruct (Z.to_int z) as [d|d]; destruct d;
    cbn [has_line_boundary]; try reflexivity;
    try apply (has_line_boundary_uint (Decimal.D0 _));
    try apply (has_line_boundary_uint (Decimal.D1 _)).
Qed.

(** What a call of [send_email] does. *)
Lemma send_email_run (self : JobBot) (m : mail) (w : world) :
  send_email self m w
  = if headers_stored self m
    then (set_outbox (outbox w ++ [m])%list w, Return (smtp_accepts w m))
    else (w, Return false).
Proof.
  unfold send_email, try_except, bind, lift, ret, headers_stored, header_stored.
  destruct (header_store_parse (subject_of m)); [reflexivity|].
  destruct (header_store_parse (email self)); [reflexivity|].
  destruct (header_store_parse (recipient_of self m)); reflexivity.
Qed.

(** The subjects of the two reports are stored. *)
Lemma report_subject_stored (m : mail) :
  (forall job address, m <> Application job address) ->
  header_stored (subject_of m) = true.
Proof.
  intro N. destruct m as [job address|total|jobs applied_count new_total].
  - now destruct (N job address).
  - reflexivity.
  - apply header_stored_plain. unfold subject_of, fmt_len.
    rewrite !has_line_boundary_app, has_line_boundary_str_int. reflexivity.
Qed.

(** The subject of an application is stored when the title holds no line
    boundary, and only then. *)
Lemma application_subject_stored (job : job_data) (address : string) :
  header_stored (subject_of (Application job address))
  = negb (has_line_boundary (fmt (job_title job))).
Proof.
  unfold subject_of. apply header_stored_between; [reflexivity | reflexivity | discriminate].
Qed.

(** ** Who is applied to *)

Lemma outbox_recorded (job : job_data) (w : world) :
  outbox (recorded job w) = outbox w.
Proof. reflexivity. Qed.

Lemma outbox_time_sleep (seconds : Z) (w : world) :
  outbox (fst (time_sleep seconds w)) = outbox w.
Proof.
  unfold time_sleep. now destruct (seconds <? 0)%Z.
Qed.

Lemma unique_loop_incl (l acc : list job_data) (seen : list hkey) (out : list job_data) :
  unique_loop l acc seen = Return out ->
  forall j, In j out -> In j acc \/ In j l.
Proof.
  revert acc seen. induction l as [|x l IH]; intros acc seen H j I; simpl in H.
  - injection H as <-. now left.
  - destruct (py_hash_key (job_url x)) as [e|k]; [discriminate|].
    destruct (existsb (hkey_eqb k) seen).
    + destruct (IH _ _ H j I); [now left | right; now right].
    + destruct (IH _ _ H j I) as [A | A]; [|right; now right].
      apply in_app_or in A as [A | [-> | []]]; [now left | right; now left].
Qed.

Lemma all_of_group_insert (job : job_data) (groups : list (string * list job_data))
      (x : job_data) :
  In x (all_of (group_insert job groups)) -> x = job \/ In x (all_of groups).
Proof.
  unfold all_of. induction groups as [|[source source_jobs] groups IH]; simpl.
  - intros [<- | []]. now left.
  - destruct (String.eqb source (job_source job)); simpl; intro H;
      apply in_app_or in H as [H | H].
    + apply in_app_or in H as [H | [<- | []]]; [|now left].
      right. apply in_or_app. now left.
    + right. apply in_or_app. now right.
    + right. apply in_or_app. now left.
    + destruct (IH H); [now left|]. right. apply in_or_app. now right.
Qed.

Lemma all_of_jobs_by_source (jobs : list job_data) (x : job_data) :
  In x (all_of (jobs_by_source jobs)) -> In x jobs.
Proof.
  unfold jobs_by_source.
  assert (forall groups,
             In x (all_of (fold_left (fun g j => group_insert j g) jobs groups)) ->
             In x (all_of groups) \/ In x jobs) as G.
  { induction jobs as [|j jobs IH]; simpl; intros groups H; [now left|].
    destruct (IH _ H) as [H1 | H1]; [|right; now right].
    destruct (all_of_group_insert _ _ _ H1); [right; left; congruence | now left]. }
  intro H. destruct (G [] H) as [[] | H1]. exact H1.
Qed.

Lemma only_applications_refl (jobs : list job_data) (w w' : world) :
  outbox w' = outbox w -> only_applications jobs w w'.
Proof.
  intros E m I. left. now rewrite <- E.
Qed.

Lemma only_applications_trans (js1 js2 js : list job_data) (w1 w2 w3 : world) :
  only_applications js1 w1 w2 -> only_applications js2 w2 w3 ->
  incl js1 js -> incl js2 js ->
  only_applications js w1 w3.
Proof.
  intros H1 H2 I1 I2 m I.
  destruct (H2 m I) as [I' | (j & a & -> & Ij & E)].
  - destruct (H1 m I') as [I'' | (j & a & -> & Ij & E)]; [now left|].
    right. exists j, a. auto.
  - right. exists j, a. auto.
Qed.

(** A job is applied to when its record has an address, and only then. *)
Lemma process_job_outbox (self : JobBot) (job : job_data) (n : nat) (w : world) :
  exists w' n',
    process_job self job n w = (w', Return n') /\
    only_applications [job] w w' /\
    (job_email job = None -> w' = w).
Proof.
  unfold process_job, email_present, apply_to_job, bind, time_sleep, ret.
  destruct (job_email job) as [address|] eqn:E.
  - destruct (negb (String.eqb address EmptyString)); simpl.
    + rewrite send_email_run. destruct (headers_stored self (Application job address)).
      * eexists. eexists. split; [reflexivity|]. split; [|discriminate].
        intros m I. simpl in I. apply in_app_or in I as [I | [<- | []]]; [now left|].
        right. exists job, address. simpl. auto.
      * eexists. eexists. split; [reflexivity|]. split; [|discriminate].
        intros m I. simpl in I. now left.
    + exists w, n. split; [reflexivity|]. split; [|reflexivity].
      now apply only_applications_refl.
  - exists w, n. split; [reflexivity|]. split; [|reflexivity].
    now apply only_applications_refl.
Qed.

Lemma process_jobs_outbox (self : JobBot) (jobs : list job_data) (n : nat) (w : world) :
  exists w' n',
    process_jobs self jobs n w = (w', Return n') /\ only_applications jobs w w'.
Proof.
  revert n w. induction jobs as [|job jobs IH]; intros n w; simpl.
  - exists w, n. split; [reflexivity|]. now apply only_applications_refl.
  - unfold bind.
    destruct (process_job_outbox self job n w) as (w1 & n1 & -> & O1 & _).
    destruct (IH n1 w1) as (w2 & n2 & -> & O2).
    exists w2, n2. split; [reflexivity|].
    apply (only_applications_trans [job] jobs _ w w1 w2); auto.
    + intros x [<- | []]. now left.
    + intros x I. now right.
Qed.

Lemma process_groups_outbox (self : JobBot) (groups : list (string * list job_data))
      (n : nat) (w : world) :
  exists w' n',
    process_groups self groups n w = (w', Return n') /\
    only_applications (all_of groups) w w'.
Proof.
  revert n w. induction groups as [|[source jobs] groups IH]; intros n w; simpl.
  - exists w, n. split; [reflexivity|]. now apply only_applications_refl.
  - unfold bind.
    destruct (process_jobs_outbox self jobs n w) as (w1 & n1 & -> & O1).
    destruct (IH n1 w1) as (w2 & n2 & -> & O2).
    exists w2, n2. split; [reflexivity|].
    apply (only_applications_trans jobs (all_of groups) _ w w1 w2); auto;
      intros x I; unfold all_of; simpl; apply in_or_app; auto.
Qed.

Lemma get_stats_returns (self : JobBot) (w : world) :
  exists w' s, get_stats self w = (w', Return s) /\ outbox w' = outbox w.
Proof.
  unfold get_stats. destruct (log_file w); eexists; eexists; split; reflexivity.
Qed.

(** The records [fetch_all_jobs] returns: a record of the source
    WeWorkRemotely has no address; the outbox is as it was. *)
Lemma fetch_all_jobs_wwr_records (self : JobBot) (net : network) (w : world) :
  exists w',
    outbox w' = outbox w /\
    ((exists e, fetch_all_jobs self net w = (w', Raise e)) \/
     (exists jobs,
         fetch_all_jobs self net w = (w', Return jobs) /\
         Forall (fun j => job_source j = "WeWorkRemotely" -> job_email j = None) jobs)).
Proof.
  destruct (fetch_all_jobs_runs_all self
              (fun w' => outbox w' = outbox w)
              (fun j => job_source j = "WeWorkRemotely" -> job_email j = None))
    with (net := net) (w := w)
    as (wa & wb & wc & ja & jb & jc & _ & _ & _ & E & W & F); try reflexivity.
  - intros w0 jd W S _ _. split; [exact W|]. rewrite S. discriminate.
  - intros w0 jd W S _ _. split; [exact W|]. rewrite S. discriminate.
  - intros w0 jd W _ N _. split; [exact W|]. intros _. exact N.
  - intros w0 seconds W. now rewrite outbox_time_sleep.
  - exists (paced self wc). split; [exact W|].
    rewrite E. destruct (remove_duplicates (ja ++ jb ++ jc)%list) as [e|jobs] eqn:R.
    + left. eauto.
    + right. exists jobs. split; [reflexivity|].
      rewrite Forall_forall in *. intros j I. apply F.
      destruct (unique_loop_incl _ _ _ _ R j I) as [[] | I']. exact I'.
Qed.

(** C10.  Every record [fetch_wwr_jobs] returns has no address and the
    source tag [WeWorkRemotely]; a record without address is passed over by
    the summary loop and refused by [apply_to_job], the world left as it
    was; and an application that a cycle hands to the mail server is for a
    record with an address whose source is not WeWorkRemotely. *)
Theorem wwr_records_are_never_applied_to (self : JobBot) (net : network) (w : world) :
  (forall r w0 w1 jobs,
      fetch_wwr_jobs self r w0 = (w1, Return jobs) ->
      Forall (fun j => job_email j = None /\ job_source j = "WeWorkRemotely") jobs) /\
  (forall job n w0,
      job_email job = None ->
      apply_to_job self job w0 = (w0, Return false) /\
      process_job self job n w0 = (w0, Return n)) /\
  (forall job address,
      In (Application job address) (outbox (fst (run_job_search self net w))) ->
      In (Application job address) (outbox w) \/
      (job_email job = Some address /\ job_source job <> "WeWorkRemotely")).
Proof.
  split; [|split].
  - intros r w0 w1 jobs H.
    destruct (fetch_wwr_jobs_returned self (fun _ => True)
                (fun j => job_email j = None /\ job_source j = "WeWorkRemotely"))
      with (response := r) (w := w0) as [_ (jl & E & F)]; auto.
    rewrite H in E. simpl in E. injection E as ->. exact F.
  - intros job n w0 N. unfold process_job, email_present, apply_to_job.
    rewrite N. split; reflexivity.
  - intros job address.
    unfold run_job_search, bind.
    destruct (get_stats_returns self w) as (w1 & st & -> & O1).
    destruct (fetch_all_jobs_wwr_records self net w1)
      as (w2 & O2 & [[e ->] | (jobs & -> & F)]).
    + simpl. rewrite O2, O1. now left.
    + assert (forall w3, only_applications jobs w w3 ->
                         In (Application job address) (outbox w3) ->
                         In (Application job address) (outbox w) \/
                         (job_email job = Some address /\
                          job_source job <> "WeWorkRemotely")) as Conclude.
      { intros w3 O I. destruct (O _ I) as [I' | (j & a & E & Ij & Ea)]; [now left|].
        injection E as <- <-. right. split; [exact Ea|].
        rewrite Forall_forall in F. intro S. rewrite (F _ Ij S) in Ea. discriminate. }
      destruct jobs as [|j0 jobs0].
      * rewrite send_email_run. unfold ret.
        destruct (headers_stored self (NoNewJobs (total_applications st)));
          simpl; intro I.
        -- apply in_app_or in I as [I | [I | []]]; [|discriminate].
           left. now rewrite <- O1, <- O2.
        -- left. now rewrite <- O1, <- O2.
      * remember (j0 :: jobs0) as jobs eqn:Ej.
        destruct (process_groups_outbox self (jobs_by_source jobs) 0 w2)
          as (w3 & n3 & -> & O3).
        rewrite send_email_run. unfold ret. intro I.
        assert (In (Application job address) (outbox w3)) as I3.
        { destruct (headers_stored self _); simpl in I; [|exact I].
          apply in_app_or in I as [I | [I | []]]; [exact I | discriminate]. }
        clear I. rename I3 into I.
        apply (Conclude w3); [|exact I].
        intros m Im. destruct (O3 m Im) as [I' | (j & a & E & Ij & Ea)].
        -- left. now rewrite <- O1, <- O2.
        -- right. exists j, a. split; [exact E|]. split; [|exact Ea].
           now apply all_of_jobs_by_source.
Qed.

(** ** Entries of an unexpected shape *)

Lemma remoteok_entry_dict (self : JobBot) (d : list (string * pyval))
      (job_list : list job_data) (w : world) :
  remoteok_entry self (PDict d) job_list w
  = emit_if_new self "RemoteOK" "company" (PDict d)
      (remoteok_title d) (field "description" (PStr EmptyString) d) job_list w.
Proof.
  unfold remoteok_entry, emit_if_new, remoteok_title, field, bind, lift, ret, py_get.
  destruct (truthy match assoc "position" d with Some v => v | None => PNone end);
    reflexivity.
Qed.

Lemma remotive_entry_dict (self : JobBot) (d : list (string * pyval))
      (job_list : list job_data) (w : world) :
  remotive_entry self (PDict d) job_list w
  = emit_if_new self "Remotive" "company_name" (PDict d)
      (field "title" (PStr EmptyString) d) (field "description" (PStr EmptyString) d)
      job_list w.
Proof. reflexivity. Qed.

Lemma matches_keywords_falsy_or_text (self : JobBot) (v : pyval) :
  truthy v = false \/ is_str v = true ->
  exists b, matches_keywords self v = Return b.
Proof.
  unfold matches_keywords. intros [T | S].
  - rewrite T. simpl. eauto.
  - destruct v; try discriminate. destruct (negb (truthy (PStr s))); eauto.
Qed.

Lemma field_text_or_missing (key : string) (default : pyval) (d : list (string * pyval)) :
  text_or_missing key d = true ->
  truthy default = false \/ is_str default = true ->
  truthy (field key default d) = false \/ is_str (field key default d) = true.
Proof.
  unfold text_or_missing, field.
  destruct (assoc key d) as [[| | | s | |]|]; try discriminate; auto.
Qed.

Lemma emit_if_new_lacks_url (self : JobBot) (source company_key : string)
      (d : list (string * pyval)) (title desc : pyval) (job_list : list job_data)
      (w : world) :
  truthy title = false \/ is_str title = true ->
  truthy desc = false \/ is_str desc = true ->
  truthy (field "url" (PStr EmptyString) d) = false ->
  emit_if_new self source company_key (PDict d) title desc job_list w
  = (w, Return job_list).
Proof.
  intros Ht Hd Hu.
  destruct (matches_keywords_falsy_or_text self title Ht) as [b1 M1].
  destruct (matches_keywords_falsy_or_text self desc Hd) as [b2 M2].
  unfold emit_if_new, bind, lift, ret, py_get. rewrite M1, M2.
  assert (or_else (Return b1) (Return b2) = Return (b1 || b2)) as -> by now destruct b1.
  destruct (b1 || b2); [|reflexivity].
  unfold is_new_link. fold (field "url" (PStr EmptyString) d). now rewrite Hu.
Qed.

Lemma lacks_url_fields (d : list (string * pyval)) :
  lacks_url (PDict d) = true ->
  text_or_missing "position" d = true /\ text_or_missing "title" d = true /\
  text_or_missing "description" d = true /\
  truthy (field "url" (PStr EmptyString) d) = false.
Proof.
  unfold lacks_url, field. intro H. repeat (apply andb_true_iff in H as [H ?]).
  repeat split; try assumption.
  destruct (assoc "url" d) as [[| | | [|] | |]|]; try discriminate; reflexivity.
Qed.

Lemma remoteok_entry_lacks_url (self : JobBot) (job : pyval) (job_list : list job_data)
      (w : world) :
  lacks_url job = true ->
  remoteok_entry self job job_list w = (w, Return job_list).
Proof.
  destruct job as [| | | | |d]; try discriminate. intro H.
  apply lacks_url_fields in H as (Hp & Ht & Hd & Hu).
  rewrite remoteok_entry_dict. apply emit_if_new_lacks_url; [| |exact Hu].
  - unfold remoteok_title.
    destruct (truthy (field "position" PNone d)) eqn:T.
    + destruct (field_text_or_missing "position" PNone d Hp) as [F | F];
        [now left | congruence | now right].
    + apply field_text_or_missing; auto.
  - apply field_text_or_missing; auto.
Qed.

Lemma remotive_entry_lacks_url (self : JobBot) (job : pyval) (job_list : list job_data)
      (w : world) :
  lacks_url job = true ->
  remotive_entry self job job_list w = (w, Return job_list).
Proof.
  destruct job as [| | | | |d]; try discriminate. intro H.
  apply lacks_url_fields in H as (Hp & Ht & Hd & Hu).
  rewrite remotive_entry_dict. apply emit_if_new_lacks_url; [| |exact Hu];
    apply field_text_or_missing; auto.
Qed.

Lemma wwr_entry_lacks (self : JobBot) (li : li_tag) (job_list : list job_data) (w : world) :
  lacks_link_or_title li = true ->
  wwr_entry self li job_list w = (w, Return job_list).
Proof.
  unfold lacks_link_or_title, wwr_entry.
  destruct (li_href li); [|reflexivity].
  destruct (li_title li); [discriminate | reflexivity].
Qed.

Section SkippedElement.

Variables (X : Type) (step : X -> list job_data -> M (list job_data)).
Variable loop : list X -> list job_data -> M (list job_data).
Hypothesis loop_nil : forall jl w, loop [] jl w = (w, Return jl).
Hypothesis loop_cons : forall x l jl w,
    loop (x :: l) jl w = bind (step x jl) (loop l) w.

(** An element that the body of a loop passes over can be left out. *)
Lemma loop_skips (before after : list X) (x : X) :
  (forall jl w, step x jl w = (w, Return jl)) ->
  forall jl w, loop (before ++ x :: after) jl w = loop (before ++ after) jl w.
Proof.
  intro S. induction before as [|y before IH]; intros jl w; simpl.
  - rewrite loop_cons. unfold bind. now rewrite S.
  - rewrite !loop_cons. unfold bind.
    destruct (step y jl w) as [w1 [e|jl1]]; [reflexivity | apply IH].
Qed.

(** An element on which the body raises makes the loop raise, at that
    element or before. *)
Lemma loop_raises (before after : list X) (x : X) :
  (forall jl w, exists e, step x jl w = (w, Raise e)) ->
  forall jl w, exists w' e, loop (before ++ x :: after) jl w = (w', Raise e).
Proof.
  intro S. induction before as [|y before IH]; intros jl w; simpl.
  - rewrite loop_cons. unfold bind. destruct (S jl w) as [e ->]. eauto.
  - rewrite loop_cons. unfold bind.
    destruct (step y jl w) as [w1 [e|jl1]]; [eauto | apply IH].
Qed.

End SkippedElement.

(** C4, as the code has it.  An entry of a JSON payload that is an object
    without usable [url] (its text fields text or missing), and a list item
    of the page without anchor or without title, is passed over: the fetch
    returns the same records and leaves the same world as for the payload
    without that entry.  An entry that is not an object makes the fetch
    return the empty list. *)
Theorem entry_without_url_is_skipped
    (self : JobBot) (meta : pyval) (before after : list pyval) (bad : pyval) (w : world) :
  lacks_url bad = true ->
  fetch_remoteok_jobs self (remoteok_body meta (before ++ bad :: after)) w
  = fetch_remoteok_jobs self (remoteok_body meta (before ++ after)) w /\
  fetch_remotive_jobs self (remotive_body (before ++ bad :: after)) w
  = fetch_remotive_jobs self (remotive_body (before ++ after)) w /\
  (forall sections_before sections_after items_before items_after item,
      lacks_link_or_title item = true ->
      fetch_wwr_jobs self
        (Body (sections_before ++ (items_before ++ item :: items_after) :: sections_after)%list) w
      = fetch_wwr_jobs self
          (Body (sections_before ++ (items_before ++ items_after) :: sections_after)%list) w) /\
  (forall other,
      is_dict other = false ->
      snd (fetch_remoteok_jobs self (remoteok_body meta (before ++ other :: after)) w)
      = Return [] /\
      snd (fetch_remotive_jobs self (remotive_body (before ++ other :: after)) w)
      = Return []).
Proof.
  intro H. split; [|split; [|split]].
  - unfold fetch_remoteok_jobs, remoteok_body, try_except, bind, response_body,
      response_json, lift, ret. simpl.
    rewrite (loop_skips _ (remoteok_entry self) (remoteok_loop self)); try reflexivity.
    intros jl w0. now apply remoteok_entry_lacks_url.
  - unfold fetch_remotive_jobs, remotive_body, try_except, bind, response_body,
      response_json, lift, ret. simpl.
    rewrite (loop_skips _ (remotive_entry self) (remotive_loop self)); try reflexivity.
    intros jl w0. now apply remotive_entry_lacks_url.
  - intros sb sa ib ia item L.
    unfold fetch_wwr_jobs, try_except, bind, response_body, ret.
    assert (forall jl w0,
               wwr_section self (ib ++ item :: ia)%list jl w0
               = wwr_section self (ib ++ ia)%list jl w0)
      as Sec.
    { apply (loop_skips _ (wwr_entry self) (wwr_section self)); try reflexivity.
      intros jl w0. now apply wwr_entry_lacks. }
    assert (forall jl w0,
               wwr_loop self (sb ++ (ib ++ item :: ia) :: sa)%list jl w0
               = wwr_loop self (sb ++ (ib ++ ia) :: sa)%list jl w0) as ->; [|reflexivity].
    induction sb as [|s sb IH]; intros jl w0; simpl; unfold bind.
    + now rewrite Sec.
    + destruct (wwr_section self s jl w0) as [w1 [e|jl1]]; [reflexivity | apply IH].
  - intros other D. split.
    + unfold fetch_remoteok_jobs, remoteok_body, try_except, bind, response_body,
        response_json, lift, ret. simpl.
      destruct (loop_raises _ (remoteok_entry self) (remoteok_loop self))
        with (before := before) (after := after) (x := other) (jl := @nil job_data) (w := w)
        as (w' & e & ->); try reflexivity.
      now apply remoteok_entry_not_dict.
    + unfold fetch_remotive_jobs, remotive_body, try_except, bind, response_body,
        response_json, lift, ret. simpl.
      destruct (loop_raises _ (remotive_entry self) (remotive_loop self))
        with (before := before) (after := after) (x := other) (jl := @nil job_data) (w := w)
        as (w' & e & ->); try (destruct e); reflexivity || idtac.
      now apply remotive_entry_not_dict.
Qed.

Lemma entry_without_url_is_skipped_witness :
  let w := world_at morning (Some EmptyString) in
  lacks_url entry_without_url = true /\
  fetch_remoteok_jobs sample_bot
    (remoteok_body metadata ([python_entry] ++ entry_without_url :: [react_entry])) w
  = fetch_remoteok_jobs sample_bot
      (remoteok_body metadata ([python_entry] ++ [react_entry])) w.
Proof.
  split; [reflexivity|].
  apply (entry_without_url_is_skipped sample_bot metadata
           [python_entry] [react_entry] entry_without_url
           (world_at morning (Some EmptyString)) eq_refl).
Defined.

(** C4 as stated fails: with [null], or an object whose [position] is a
    number, after a well-formed entry, the fetch returns the empty list and
    not the record of the well-formed entry. *)
Lemma malformed_entry_empties_the_fetch :
  let w := world_at morning (Some EmptyString) in
  let fetch payload := snd (fetch_remoteok_jobs sample_bot (remoteok_body metadata payload) w) in
  (exists record, fetch [python_entry] = Return [record]) /\
  fetch [python_entry; PNone] = Return [] /\
  fetch [python_entry; entry_with_number] = Return [].
Proof.
  split; [eexists; vm_compute; reflexivity|].
  split; vm_compute; reflexivity.
Qed.

(** ** The loop of [run_continuous] *)

Lemma iteration_exit (self : JobBot) (net : network) (interrupt : option phase)
      (w w' : world) (exit : loop_exit) :
  iteration self net interrupt w = (w', Some exit) -> interrupt <> None.
Proof.
  destruct interrupt as [p|]; [discriminate|].
  unfold iteration, cooldown. simpl.
  destruct (run_job_search self net w) as [w1 [e|u]]; [discriminate|].
  destruct (time_sleep (run_interval_hours self * 3600) w1) as [w2 [e|u']]; discriminate.
Qed.

Lemma run_continuous_exit (self : JobBot) (nets : nat -> network)
      (interrupts : nat -> option phase) (n i : nat) (w w' : world) (exit : loop_exit) :
  run_continuous n self nets interrupts i w = (w', Some exit) ->
  exists k, i <= k < i + n /\ interrupts k <> None.
Proof.
  revert i w. induction n as [|n IH]; intros i w H; simpl in H; [discriminate|].
  destruct (iteration self (nets i) (interrupts i) w) as [w1 [e|]] eqn:It.
  - exists i. split; [lia|]. exact (iteration_exit _ _ _ _ _ _ It).
  - destruct (IH _ _ H) as (k & K & N). exists k. split; [lia | exact N].
Qed.

(** C8.  With an interval of at least one hour: the cooldown of 300
    seconds is shorter than the pause between two cycles, which is the
    sleep that follows a cycle that returned; a cycle that raises is
    followed by the cooldown, and the loop begins the next iteration; the
    loop is left only in an iteration in which an interrupt arrived, and
    without interrupts it is still running after any number of
    iterations. *)
Theorem loop_survives_a_failed_cycle
    (self : JobBot) (nets : nat -> network) (interrupts : nat -> option phase) :
  (1 <= run_interval_hours self)%Z ->
  (COOLDOWN_SECONDS < run_interval_hours self * 3600)%Z /\
  (forall net w w1,
      run_job_search self net w = (w1, Return tt) ->
      exists w2,
        iteration self net None w = (w2, None) /\
        slept w2 = (slept w1 ++ [run_interval_hours self * 3600])%list%Z) /\
  (forall net w w1 e,
      run_job_search self net w = (w1, Raise e) ->
      exists w2,
        iteration self net None w = (w2, None) /\
        slept w2 = (slept w1 ++ [COOLDOWN_SECONDS])%list) /\
  (forall n i w w1 e,
      interrupts i = None ->
      run_job_search self (nets i) w = (w1, Raise e) ->
      run_continuous (S n) self nets interrupts i w
      = run_continuous n self nets interrupts (S i)
          (fst (time_sleep COOLDOWN_SECONDS w1))) /\
  (forall n i w w' exit,
      run_continuous n self nets interrupts i w = (w', Some exit) ->
      exists k, i <= k < i + n /\ interrupts k <> None) /\
  (forall n i w,
      (forall k, interrupts k = None) ->
      snd (run_continuous n self nets interrupts i w) = None).
Proof.
  intro H. split; [|split; [|split; [|split; [|split]]]].
  - unfold COOLDOWN_SECONDS. lia.
  - intros net w w1 R. unfold iteration. cbn [is_phase]. rewrite R.
    unfold time_sleep.
    destruct (run_interval_hours self * 3600 <? 0)%Z eqn:N;
      [apply Z.ltb_lt in N; lia|].
    eexists. split; reflexivity.
  - intros net w w1 e R. unfold iteration. cbn [is_phase]. rewrite R.
    unfold cooldown. cbn [is_phase]. eexists. split; reflexivity.
  - intros n i w w1 e N R. cbn [run_continuous].
    unfold iteration. rewrite N. cbn [is_phase]. rewrite R.
    unfold cooldown. cbn [is_phase]. reflexivity.
  - intros n i w w' exit. apply run_continuous_exit.
  - intros n i w N.
    destruct (run_continuous n self nets interrupts i w) as [w' [exit|]] eqn:R;
      [|reflexivity].
    destruct (run_continuous_exit _ _ _ _ _ _ _ _ R) as (k & _ & K).
    elim K. apply N.
Qed.

Lemma loop_survives_a_failed_cycle_witness :
  let w := world_at morning None in
  let net := with_remoteok [metadata; list_url_entry] in
  (1 <= run_interval_hours sample_bot)%Z /\
  snd (run_job_search sample_bot net w) = Raise TypeError /\
  exists w2,
    iteration sample_bot net None w = (w2, None) /\
    slept w2 = (slept (fst (run_job_search sample_bot net w)) ++ [COOLDOWN_SECONDS])%list.
Proof.
  split; [vm_compute; discriminate|].
  split; [vm_compute; reflexivity|].
  apply (loop_survives_a_failed_cycle sample_bot (fun _ => no_answer) (fun _ => None))
    with (e := TypeError); [vm_compute; discriminate|].
  rewrite (surjective_pairing (run_job_search _ _ _)).
  f_equal; vm_compute; reflexivity.
Defined.

(** ** The membership test on a Ledger written by [csv.writer] *)

Lemma has_char_special (s : ascii) (u : string) :
  csv_special s = true -> csv_needs_quotes u = false -> has_char s u = false.
Proof.
  intro S. induction u as [|c u IH]; simpl; [reflexivity|].
  intro H. apply orb_false_iff in H as [C H]. rewrite (IH H), orb_false_r.
  destruct (Ascii.eqb s c) eqn:E; [|reflexivity].
  apply Ascii.eqb_eq in E. congruence.
Qed.

Lemma prefix_cons (x : ascii) (u : string) (y : ascii) (s : string) :
  String.prefix (String x u) (String y s) = Ascii.eqb x y && String.prefix u s.
Proof.
  simpl. destruct (ascii_dec x y) as [-> | N].
  - now rewrite Ascii.eqb_refl.
  - apply Ascii.eqb_neq in N. now rewrite N.
Qed.

Lemma prefix_nil (s : string) : String.prefix EmptyString s = true.
Proof. now destruct s. Qed.

(** A text without the character [s] is a prefix of [a ++ s b] only when it
    is a prefix of [a]. *)
Lemma prefix_separator (s : ascii) (u a b : string) :
  has_char s u = false ->
  String.prefix u (a ++ String s b) = String.prefix u a.
Proof.
  revert a. induction u as [|x u IH]; intros a H; [now rewrite !prefix_nil|].
  simpl in H. apply orb_false_iff in H as [X H].
  destruct a as [|y a].
  - change (EmptyString ++ String s b) with (String s b).
    rewrite prefix_cons, Ascii.eqb_sym, X. reflexivity.
  - change (String y a ++ String s b) with (String y (a ++ String s b)).
    rewrite !prefix_cons, IH by exact H. reflexivity.
Qed.

Lemma py_in_empty (u : string) : nonempty u = true -> py_in u EmptyString = false.
Proof. destruct u; [discriminate | reflexivity]. Qed.

(** An occurrence of a text does not go across a character the text does
    not have. *)
Lemma py_in_separator (s : ascii) (u a b : string) :
  nonempty u = true -> has_char s u = false ->
  py_in u (a ++ String s b) = py_in u a || py_in u b.
Proof.
  intros N H. induction a as [|c a IH].
  - change (EmptyString ++ String s b) with (String s b).
    rewrite py_in_cons, py_in_empty by exact N.
    destruct u as [|x u]; [discriminate|].
    simpl in H. apply orb_false_iff in H as [X _].
    rewrite prefix_cons, Ascii.eqb_sym, X. reflexivity.
  - change (String c a ++ String s b) with (String c (a ++ String s b)).
    rewrite !py_in_cons, IH.
    change (String c (a ++ String s b)) with (String c a ++ String s b).
    rewrite prefix_separator by exact H. now rewrite orb_assoc.
Qed.

Section PlainText.

Variable u : string.
Hypothesis u_plain : plain u = true.

Lemma plain_nonempty : nonempty u = true.
Proof. unfold plain in u_plain. now apply andb_true_iff in u_plain as [H _]. Qed.

Lemma plain_no_special (s : ascii) : csv_special s = true -> has_char s u = false.
Proof.
  intro S. apply has_char_special; [exact S|].
  unfold plain in u_plain. apply andb_true_iff in u_plain as [_ H].
  now apply negb_true_iff in H.
Qed.

Lemma py_in_special (s : ascii) (a b : string) :
  csv_special s = true -> py_in u (a ++ String s b) = py_in u a || py_in u b.
Proof.
  intro S. apply py_in_separator; [apply plain_nonempty | now apply plain_no_special].
Qed.

Lemma py_in_plain_empty : py_in u EmptyString = false.
Proof. apply py_in_empty, plain_nonempty. Qed.

Lemma append_snoc (p : string) (c : ascii) (t : string) :
  (p ++ String c EmptyString) ++ t = p ++ String c t.
Proof. now rewrite append_assoc. Qed.

(** Doubling the quote characters changes no occurrence. *)
Lemma py_in_double_quotes (t p : string) :
  py_in u (p ++ csv_double_quotes t) = py_in u (p ++ t).
Proof.
  revert p. induction t as [|c t IH]; intro p; [reflexivity|].
  pose proof (IH EmptyString) as IH0. cbn [append] in IH0.
  cbn [csv_double_quotes]. destruct (Ascii.eqb c DQUOTE) eqn:Q.
  - apply Ascii.eqb_eq in Q. subst c.
    rewrite !py_in_special by reflexivity.
    change (String DQUOTE (csv_double_quotes t))
      with (EmptyString ++ String DQUOTE (csv_double_quotes t)).
    rewrite py_in_special by reflexivity.
    now rewrite py_in_plain_empty, IH0.
  - destruct (csv_special c) eqn:S.
    + rewrite !py_in_special by exact S. now rewrite IH0.
    + rewrite <- (append_snoc p c (csv_double_quotes t)), <- (append_snoc p c t).
      apply IH.
Qed.

Lemma py_in_csv_field (t : string) : py_in u (csv_field t) = py_in u t.
Proof.
  unfold csv_field. destruct (csv_needs_quotes t); [|reflexivity].
  change (String DQUOTE (csv_double_quotes t ++ String DQUOTE EmptyString))
    with (EmptyString ++ String DQUOTE (csv_double_quotes t ++ String DQUOTE EmptyString)).
  rewrite py_in_special by reflexivity.
  rewrite py_in_special by reflexivity.
  rewrite py_in_plain_empty, orb_false_r. simpl.
  apply (py_in_double_quotes t EmptyString).
Qed.

(** Universal newlines change no occurrence. *)
Lemma py_in_universal_newlines (n : nat) (t p : string) :
  String.length t <= n ->
  py_in u (p ++ universal_newlines t) = py_in u (p ++ t).
Proof.
  revert t p. induction n as [|n IH]; intros t p L.
  - destruct t; [reflexivity | simpl in L; lia].
  - assert (forall t', String.length t' <= n ->
                       py_in u (universal_newlines t') = py_in u t') as IH0.
    { intros t' L'. exact (IH t' EmptyString L'). }
    destruct t as [|c t]; [reflexivity|].
    simpl in L. cbn [universal_newlines].
    destruct (Ascii.eqb c CR) eqn:C.
    + apply Ascii.eqb_eq in C. subst c.
      destruct t as [|c' t].
      * rewrite !py_in_special by reflexivity. reflexivity.
      * destruct (Ascii.eqb c' LF) eqn:F.
        -- apply Ascii.eqb_eq in F. subst c'.
           rewrite !py_in_special by reflexivity.
           rewrite IH0 by (simpl in L; lia).
           change (String LF t) with (EmptyString ++ String LF t).
           rewrite py_in_special by reflexivity.
           now rewrite py_in_plain_empty.
        -- rewrite !py_in_special by reflexivity.
           now rewrite IH0 by (simpl in *; lia).
    + destruct (csv_special c) eqn:S.
      * rewrite !py_in_special by exact S.
        now rewrite IH0 by lia.
      * rewrite <- (append_snoc p c (universal_newlines t)), <- (append_snoc p c t).
        apply IH. lia.
Qed.

Lemma py_in_read (t : string) : py_in u (universal_newlines t) = py_in u t.
Proof.
  exact (py_in_universal_newlines (String.length t) t EmptyString (le_n _)).
Qed.

(** In a row, and in rows one after the other, the text occurs when it
    occurs in a field. *)
Lemma row_text_append (r : ledger_row) (rest : string) :
  row_text r ++ rest
  = csv_field (isoformat (fst r)) ++
    String COMMA (csv_field (csv_text (job_url (snd r))) ++
    String COMMA (csv_field (csv_text (job_title (snd r))) ++
    String COMMA (csv_field (csv_text (job_company (snd r))) ++
    String CR (String LF rest)))).
Proof.
  unfold row_text, csv_row, row_fields, CRLF. cbn [map String.concat].
  repeat first [rewrite append_assoc | progress cbn [append]].
  reflexivity.
Qed.

Lemma py_in_row (r : ledger_row) (rest : string) :
  py_in u (row_text r ++ rest)
  = existsb (fun v => py_in u (csv_text v)) (row_fields r) || py_in u rest.
Proof.
  rewrite row_text_append.
  rewrite !py_in_special by reflexivity.
  change (String LF rest) with (EmptyString ++ String LF rest).
  rewrite py_in_special by reflexivity.
  rewrite py_in_plain_empty, !py_in_csv_field.
  unfold row_fields. cbn [existsb csv_text py_str].
  rewrite !orb_false_r, (orb_false_l (py_in u rest)), !orb_assoc. reflexivity.
Qed.

Lemma py_in_ledger_text (rows : list ledger_row) :
  py_in u (ledger_text rows) = in_some_field u rows.
Proof.
  induction rows as [|r rows IH]; simpl.
  - apply py_in_plain_empty.
  - rewrite py_in_row, IH. reflexivity.
Qed.

End PlainText.

(** *** Timestamps *)

Lemma all_chars_append (cls : ascii -> bool) (a b : string) :
  all_chars cls (a ++ b) = all_chars cls a && all_chars cls b.
Proof.
  induction a as [|c a IH]; simpl; [reflexivity|]. now rewrite IH, andb_assoc.
Qed.

Lemma digit_is_digit (n : N) : is_digit (digit n) = true.
Proof.
  unfold digit.
  assert (n mod 10 < 10)%N as H by (apply N.mod_lt; discriminate).
  destruct (n mod 10)%N as [|p]; [reflexivity|].
  do 4 (destruct p as [p|p|]; try reflexivity; try (exfalso; lia)).
Qed.

Lemma digit_iso (n : N) : iso_char (digit n) = true.
Proof. unfold iso_char. now rewrite digit_is_digit. Qed.

Lemma pad2_iso (n : N) : all_chars iso_char (pad2 n) = true.
Proof. unfold pad2. cbn [all_chars]. now rewrite !digit_iso. Qed.

Lemma pad4_iso (n : N) : all_chars iso_char (pad4 n) = true.
Proof. unfold pad4. cbn [all_chars]. now rewrite !digit_iso, pad2_iso. Qed.

Lemma pad6_iso (n : N) : all_chars iso_char (pad6 n) = true.
Proof. unfold pad6. cbn [all_chars]. now rewrite !digit_iso, pad4_iso. Qed.

Lemma isoformat_chars (d : datetime) : all_chars iso_char (isoformat d) = true.
Proof.
  unfold isoformat.
  repeat (rewrite all_chars_append; apply andb_true_iff; split);
    try apply pad2_iso; try apply pad4_iso; try reflexivity.
  destruct (microsecond d =? 0)%N; [reflexivity|].
  rewrite all_chars_append, pad6_iso. reflexivity.
Qed.

Lemma all_chars_substring (cls : ascii -> bool) (u t : string) :
  all_chars cls t = true -> py_in u t = true -> all_chars cls u = true.
Proof.
  intros A H. apply py_in_true in H as (a & b & ->).
  rewrite !all_chars_append in A.
  apply andb_true_iff in A as [_ A]. now apply andb_true_iff in A as [A _].
Qed.

Lemma py_in_refl (u : string) : py_in u u = true.
Proof.
  apply py_in_true. exists EmptyString, EmptyString.
  now rewrite append_empty_r.
Qed.

(** *** The membership test is exact for an unmistakable URL *)

Lemma in_some_field_exact (universe : list (pyval * pyval * pyval)) (u : string)
      (rows : list ledger_row) :
  unmistakable universe u = true ->
  Forall (fun r => In (row_texts (snd r)) universe) rows ->
  in_some_field u rows = in_ledger rows u.
Proof.
  unfold unmistakable. intros U F.
  apply andb_true_iff in U as [U A]. apply andb_true_iff in U as [_ I].
  apply negb_true_iff in I. rewrite forallb_forall in A.
  induction F as [|r rows R _ IH]; [reflexivity|].
  unfold in_some_field, in_ledger in *. cbn [existsb]. rewrite IH. f_equal.
  specialize (A _ R). unfold row_texts in A.
  unfold row_fields. cbn [existsb csv_text py_str]. unfold has_url.
  apply andb_true_iff in A as [A Au]. apply andb_true_iff in A as [At Ac].
  apply negb_true_iff in At, Ac. rewrite At, Ac, !orb_false_r.
  assert (py_in u (isoformat (fst r)) = false) as ->.
  { destruct (py_in u (isoformat (fst r))) eqn:P; [|reflexivity].
    rewrite (all_chars_substring _ _ _ (isoformat_chars _) P) in I. discriminate. }
  cbn [orb].
  destruct (job_url (snd r)) as [| | | u' | |];
    try (apply negb_true_iff in Au; exact Au).
  change (csv_text (PStr u')) with u'.
  destruct (String.eqb u u') eqn:E.
  - apply String.eqb_eq in E. subst u'. apply py_in_refl.
  - rewrite orb_false_r in Au. now apply negb_true_iff in Au.
Qed.

Lemma membership_exact (universe : list (pyval * pyval * pyval)) (u : string)
      (rows : list ledger_row) :
  unmistakable universe u = true ->
  Forall (fun r => In (row_texts (snd r)) universe) rows ->
  py_in u (universal_newlines (ledger_text rows)) = in_ledger rows u.
Proof.
  intros U F.
  assert (plain u = true) as P.
  { unfold unmistakable in U. apply andb_true_iff in U as [U _].
    now apply andb_true_iff in U as [U _]. }
  rewrite (py_in_read u P), (py_in_ledger_text u P).
  now apply in_some_field_exact with (universe := universe).
Qed.

(** ** A cycle over well-formed payloads *)

Lemma ledger_text_app (rows : list ledger_row) (r : ledger_row) :
  ledger_text (rows ++ [r])%list = ledger_text rows ++ row_text r.
Proof.
  induction rows as [|x rows IH]; simpl.
  - now rewrite append_empty_r.
  - now rewrite IH, append_assoc.
Qed.

Lemma log_file_recorded (job : job_data) (w : world) (rows : list ledger_row) :
  log_file w = Some (ledger_text rows) ->
  log_file (recorded job w)
  = Some (ledger_text (rows ++ [(clock w (S (tick w)), job)])%list).
Proof.
  intro L. unfold recorded. simpl. rewrite L, ledger_text_app. reflexivity.
Qed.

Lemma extract_email_falsy_or_text (self : JobBot) (v : pyval) :
  truthy v = false \/ is_str v = true ->
  exists a, extract_email self v = Return a.
Proof.
  unfold extract_email. intros [T | S].
  - rewrite T. simpl. eauto.
  - destruct v; try discriminate. destruct (negb (truthy (PStr s))); eauto.
Qed.

Lemma field_text (key : string) (d : list (string * pyval)) :
  text_or_missing key d = true ->
  field key (PStr EmptyString) d = PNone \/
  exists u, field key (PStr EmptyString) d = PStr u.
Proof.
  unfold text_or_missing, field.
  destruct (assoc key d) as [[| | | u | |]|]; try discriminate; eauto.
Qed.

(** On an object with text fields, the body of the loop does what
    [run_candidate] says, provided the membership test is exact for the
    URL of the object. *)
Lemma emit_if_new_typed (self : JobBot) (source company_key : string)
      (d : list (string * pyval)) (title : pyval) (job_list : list job_data)
      (w : world) (rows : list ledger_row) :
  let c := json_candidate self source company_key d title in
  truthy title = false \/ is_str title = true ->
  text_or_missing "description" d = true ->
  text_or_missing "url" d = true ->
  log_file w = Some (ledger_text rows) ->
  (forall u, usable_url (cand_record c) = Some u ->
             py_in u (universal_newlines (ledger_text rows)) = in_ledger rows u) ->
  emit_if_new self source company_key (PDict d) title
    (field "description" (PStr EmptyString) d) job_list w
  = run_candidate (Some c) rows job_list w.
Proof.
  intros c Ht Hd Hu L X.
  assert (truthy (field "description" (PStr EmptyString) d) = false \/
          is_str (field "description" (PStr EmptyString) d) = true) as Hd'
      by (apply field_text_or_missing; auto).
  destruct (matches_keywords_falsy_or_text self title Ht) as [b1 M1].
  destruct (matches_keywords_falsy_or_text self _ Hd') as [b2 M2].
  destruct (extract_email_falsy_or_text self _ Hd') as [a Ea].
  unfold run_candidate, eligible, eligible_for.
  assert (cand_matches c = b1 || b2) as Mc.
  { unfold c, json_candidate. cbn [cand_matches]. rewrite M1, M2. now destruct b1. }
  assert (job_url (cand_record c) = field "url" (PStr EmptyString) d) as Uc by reflexivity.
  unfold emit_if_new, bind, lift, ret, py_get. rewrite M1, M2, Mc.
  assert (or_else (Return b1) (Return b2) = Return (b1 || b2)) as -> by now destruct b1.
  destruct (b1 || b2); [|reflexivity]. cbn [andb].
  fold (field "url" (PStr EmptyString) d).
  fold (field company_key (PStr "Unknown") d).
  fold (field "description" (PStr EmptyString) d).
  unfold usable_url in *. rewrite Uc in *.
  destruct (field_text "url" d Hu) as [E | [u E]]; rewrite E in *; [reflexivity|].
  unfold is_new_link, job_already_applied, bind, ret. rewrite truthy_str.
  destruct (nonempty u) eqn:N; [|reflexivity].
  rewrite L, (X u eq_refl).
  destruct (in_ledger rows u); [reflexivity|]. cbn [negb].
  rewrite Ea.
  unfold now, mark_as_applied, bind. cbn [fst snd].
  assert (dated c w
          = {| job_title := title;
               job_company := field company_key (PStr "Unknown") d;
               job_url := PStr u;
               job_email := a;
               job_date := strftime_minutes (clock w (tick w));
               job_source := source |}) as D.
  { unfold dated, c, json_candidate.
    cbn [cand_record job_url job_title job_company job_email job_source].
    now rewrite Ea, E. }
  unfold recorded. rewrite D. reflexivity.
Qed.

Lemma wwr_entry_candidate (self : JobBot) (li : li_tag) (job_list : list job_data)
      (w : world) (rows : list ledger_row) :
  log_file w = Some (ledger_text rows) ->
  (forall c u, wwr_candidate self li = Some c ->
               usable_url (cand_record c) = Some u ->
               py_in u (universal_newlines (ledger_text rows)) = in_ledger rows u) ->
  wwr_entry self li job_list w = run_candidate (wwr_candidate self li) rows job_list w.
Proof.
  intros L X. unfold wwr_entry, wwr_candidate in *.
  destruct (li_href li) as [href|]; [|reflexivity].
  destruct (li_title li) as [title_text|]; [|reflexivity].
  destruct (matches_keywords_falsy_or_text self (PStr title_text) (or_intror eq_refl))
    as [b M].
  unfold run_candidate, eligible, eligible_for, usable_url.
  cbn [cand_matches cand_record job_url].
  specialize (X _ (WWR_BASE ++ href) eq_refl).
  unfold usable_url in X. cbn [cand_record job_url] in X.
  assert (nonempty (WWR_BASE ++ href) = true) as N by reflexivity.
  rewrite N in *. specialize (X eq_refl).
  unfold bind, lift, ret. rewrite M. cbn [returned_true].
  destruct b; [|reflexivity]. cbn [andb].
  unfold job_already_applied. rewrite L, X.
  destruct (in_ledger rows (WWR_BASE ++ href)); reflexivity.
Qed.

Lemma sequence_ext (k1 k2 : string -> bool) (cs : list candidate) :
  (forall u, k1 u = k2 u) -> sequence k1 cs = sequence k2 cs.
Proof.
  revert k1 k2. induction cs as [|c cs IH]; intros k1 k2 H; [reflexivity|].
  simpl. unfold eligible_for.
  destruct (usable_url (cand_record c)) as [u|].
  - rewrite (H u).
    destruct (cand_matches c && negb (k2 u)); [f_equal|]; apply IH; auto.
    intro u'. now rewrite H.
  - rewrite andb_false_r. now apply IH.
Qed.

Lemma in_ledger_snoc (rows : list ledger_row) (r : ledger_row) (u : string) :
  in_ledger (rows ++ [r]) u = in_ledger rows u || has_url u (snd r).
Proof.
  unfold in_ledger. rewrite existsb_app. simpl. now rewrite orb_false_r.
Qed.

Section Sequence.

Variables (X : Type) (step : X -> list job_data -> M (list job_data)).
Variable loop : list X -> list job_data -> M (list job_data).
Hypothesis loop_nil : forall jl w, loop [] jl w = (w, Return jl).
Hypothesis loop_cons : forall x l jl w,
    loop (x :: l) jl w = bind (step x jl) (loop l) w.

Variable cand_of : X -> option candidate.
Variable universe : list (pyval * pyval * pyval).
Variable good : X -> Prop.

Local Abbreviation within rows :=
  (Forall (fun r : ledger_row => In (row_texts (snd r)) universe) rows).

Hypothesis step_spec : forall x jl w rows,
    good x -> log_file w = Some (ledger_text rows) -> within rows ->
    step x jl w = run_candidate (cand_of x) rows jl w.

Hypothesis good_universe : forall x c,
    good x -> cand_of x = Some c ->
    In (row_texts (cand_record c)) universe /\
    without_date (cand_record c) = cand_record c.

(** A loop over well-formed elements returns, writes one row for each
    record it adds, and adds the records of [sequence]. *)
Lemma loop_sequence (l : list X) :
  forall jl w rows,
    Forall good l -> log_file w = Some (ledger_text rows) -> within rows ->
    exists w' new_rows,
      loop l jl w = (w', Return (jl ++ map snd new_rows)%list) /\
      log_file w' = Some (ledger_text (rows ++ new_rows)%list) /\
      within (rows ++ new_rows)%list /\
      map (fun r => without_date (snd r)) new_rows
      = sequence (in_ledger rows) (somes (map cand_of l)).
Proof.
  induction l as [|x l IH]; intros jl w rows G L W.
  - exists w, []. rewrite loop_nil, !app_nil_r. auto.
  - inversion G as [|? ? Gx Gl]; subst.
    rewrite loop_cons. unfold bind.
    rewrite (step_spec x jl w rows Gx L W). unfold run_candidate.
    cbn [map somes].
    destruct (cand_of x) as [c|] eqn:C.
    + cbn [sequence]. fold (eligible rows c).
      destruct (eligible rows c) eqn:E.
      * destruct (good_universe x c Gx C) as [U D].
        set (r := (clock w (S (tick w)), dated c w) : ledger_row).
        assert (within (rows ++ [r])%list) as W'.
        { apply Forall_app. split; [exact W|]. constructor; [exact U | constructor]. }
        destruct (IH (jl ++ [dated c w])%list (recorded (dated c w) w) (rows ++ [r])%list
                    Gl (log_file_recorded _ _ _ L) W')
          as (w' & new_rows & R & L' & W'' & S).
        exists w', (r :: new_rows). rewrite R. cbn [map snd].
        rewrite <- !app_assoc in *. cbn [app] in *.
        repeat split; try assumption.
        unfold r. cbn [map snd].
        change (without_date (dated c w)) with (without_date (cand_record c)).
        rewrite D, S. f_equal. apply sequence_ext.
        intro u. now rewrite in_ledger_snoc.
      * now apply IH.
    + now apply IH.
Qed.

End Sequence.

(** *** The candidates one after the other, and first-seen-wins *)

Lemma usable_url_str (j : job_data) (y : string) :
  usable_url j = Some y -> job_url j = PStr y.
Proof.
  unfold usable_url. destruct (job_url j); try discriminate.
  destruct (nonempty s); [|discriminate]. now intros [= ->].
Qed.

Lemma has_url_usable (j : job_data) (y u : string) :
  usable_url j = Some y -> has_url u j = String.eqb u y.
Proof.
  intro H. unfold has_url. now rewrite (usable_url_str _ _ H).
Qed.

Lemma same_url_has_url (a j : job_data) (y : string) :
  usable_url a = Some y -> same_url a j = has_url y j.
Proof.
  intro H. unfold same_url, has_url. rewrite (usable_url_str _ _ H).
  destruct (job_url j); reflexivity.
Qed.

(** Making one more URL known takes the records of that URL away. *)
Lemma sequence_add (cs : list candidate) :
  forall (known known' : string -> bool) (x : string),
    (forall u, known' u = known u || String.eqb u x) ->
    sequence known' cs = filter (fun j => negb (has_url x j)) (sequence known cs).
Proof.
  induction cs as [|c cs IH]; intros known known' x K; [reflexivity|].
  cbn [sequence]. unfold eligible_for.
  destruct (cand_matches c); cbn [andb]; [|now apply IH].
  destruct (usable_url (cand_record c)) as [y|] eqn:Y; [|now apply IH].
  rewrite K. destruct (known y); cbn [orb negb]; [now apply IH|].
  cbn [filter]. rewrite (has_url_usable _ _ x Y), (String.eqb_sym x y).
  destruct (String.eqb y x) eqn:E; cbn [negb].
  - apply String.eqb_eq in E. subst y. apply IH.
    intro u. rewrite K, (has_url_usable _ _ u Y).
    now destruct (known u), (String.eqb u x).
  - f_equal. apply IH.
    intro u. rewrite K, (has_url_usable _ _ u Y).
    now destruct (known u), (String.eqb u x), (String.eqb u y).
Qed.

(** Going through the candidates one after the other gives the first
    record of every URL among the eligible candidates. *)
Lemma sequence_first_seen_wins (cs : list candidate) (known : string -> bool) :
  sequence known cs
  = first_seen_wins (map cand_record (filter (eligible_for known) cs)).
Proof.
  revert known. induction cs as [|c cs IH]; intro known; [reflexivity|].
  cbn [sequence filter].
  destruct (eligible_for known c) eqn:E; [|apply IH].
  cbn [map first_seen_wins]. f_equal.
  unfold eligible_for in E. apply andb_true_iff in E as [_ E].
  destruct (usable_url (cand_record c)) as [y|] eqn:Y; [|discriminate].
  rewrite (sequence_add cs known _ y).
  - rewrite IH. apply filter_ext. intro j. now rewrite (same_url_has_url _ j y Y).
  - intro u. now rewrite (has_url_usable _ _ u Y).
Qed.

Lemma sequence_app (cs1 cs2 : list candidate) :
  forall known,
    sequence known (cs1 ++ cs2)
    = (sequence known cs1 ++
       sequence (fun u => known u || existsb (has_url u) (sequence known cs1)) cs2)%list.
Proof.
  induction cs1 as [|c cs1 IH]; intro known.
  - cbn [app sequence existsb]. apply sequence_ext. intro u. now rewrite orb_false_r.
  - cbn [app sequence]. destruct (eligible_for known c).
    + cbn [app]. f_equal. rewrite IH. f_equal. apply sequence_ext.
      intro u. cbn [existsb]. now rewrite orb_assoc.
    + apply IH.
Qed.

Lemma somes_app {A : Type} (l1 l2 : list (option A)) :
  somes (l1 ++ l2) = (somes l1 ++ somes l2)%list.
Proof.
  induction l1 as [|[a|] l1 IH]; simpl; [reflexivity| |exact IH]. now rewrite IH.
Qed.

Lemma in_ledger_app (rows new_rows : list ledger_row) (u : string) :
  in_ledger (rows ++ new_rows) u
  = in_ledger rows u
    || existsb (has_url u) (map (fun r => without_date (snd r)) new_rows).
Proof.
  unfold in_ledger. rewrite existsb_app. f_equal.
  induction new_rows as [|r new_rows IH]; [reflexivity|].
  cbn [existsb map]. now rewrite IH.
Qed.

Lemma filter_without_date (j : job_data) (xs : list job_data) :
  map without_date (filter (fun x => negb (same_url j x)) xs)
  = filter (fun x => negb (same_url (without_date j) x)) (map without_date xs).
Proof.
  induction xs as [|x xs IH]; [reflexivity|].
  cbn [filter map].
  change (same_url (without_date j) (without_date x)) with (same_url j x).
  destruct (negb (same_url j x)); cbn [map]; now rewrite IH.
Qed.

Lemma first_seen_wins_without_date (l : list job_data) :
  map without_date (first_seen_wins l) = first_seen_wins (map without_date l).
Proof.
  induction l as [|j l IH]; [reflexivity|].
  cbn [first_seen_wins map]. f_equal. now rewrite <- IH, filter_without_date.
Qed.

Lemma first_seen_wins_of_distinct (l : list job_data) :
  distinct_urls l -> first_seen_wins l = l.
Proof.
  induction l as [|j l IH]; [reflexivity|]. intros [H D].
  cbn [first_seen_wins]. rewrite (IH D). f_equal.
  apply filter_all. intros x I. now rewrite (H x I).
Qed.

Lemma first_seen_wins_idempotent (l : list job_data) :
  first_seen_wins (first_seen_wins l) = first_seen_wins l.
Proof. apply first_seen_wins_of_distinct, first_seen_wins_distinct. Qed.

(** *** The three fetchers on well-formed payloads *)

Section WellFormedCycle.

Variable self : JobBot.
Variable history : list ledger_row.
Variable cands : list candidate.
Hypothesis cands_unambiguous : unambiguous history cands = true.

Local Abbreviation universe := (universe_of history cands).

Lemma candidate_in_universe (c : candidate) :
  In c cands -> In (row_texts (cand_record c)) universe.
Proof.
  intro I. unfold universe_of. apply in_or_app. right.
  apply (in_map (fun c => row_texts (cand_record c))). exact I.
Qed.

Lemma candidate_exact (c : candidate) (u : string) (rows : list ledger_row) :
  In c cands -> usable_url (cand_record c) = Some u ->
  rows_within universe rows ->
  py_in u (universal_newlines (ledger_text rows)) = in_ledger rows u.
Proof.
  intros I U W. apply membership_exact with (universe := universe); [|exact W].
  unfold unambiguous in cands_unambiguous.
  rewrite forallb_forall in cands_unambiguous.
  specialize (cands_unambiguous c I). now rewrite U in cands_unambiguous.
Qed.

Local Abbreviation known_entry := (known_entry_in cands).
Local Abbreviation known_item := (known_item_in self cands).

Lemma typed_entry_fields (d : list (string * pyval)) :
  typed_entry (PDict d) = true ->
  text_or_missing "position" d = true /\ text_or_missing "title" d = true /\
  text_or_missing "description" d = true /\ text_or_missing "url" d = true.
Proof.
  unfold typed_entry. intro H. repeat (apply andb_true_iff in H as [H ?]). auto.
Qed.

Lemma remoteok_title_text (d : list (string * pyval)) :
  text_or_missing "position" d = true -> text_or_missing "title" d = true ->
  truthy (remoteok_title d) = false \/ is_str (remoteok_title d) = true.
Proof.
  intros Hp Ht. unfold remoteok_title.
  destruct (truthy (field "position" PNone d)) eqn:T.
  - destruct (field_text_or_missing "position" PNone d Hp) as [F | F];
      [now left | congruence | now right].
  - apply field_text_or_missing; auto.
Qed.

Lemma remoteok_step (job : pyval) (jl : list job_data) (w : world)
      (rows : list ledger_row) :
  known_entry (remoteok_candidate self) job ->
  log_file w = Some (ledger_text rows) -> rows_within universe rows ->
  remoteok_entry self job jl w = run_candidate (remoteok_candidate self job) rows jl w.
Proof.
  intros [T K] L W. destruct job as [| | | | |d]; try discriminate.
  destruct (typed_entry_fields d T) as (Hp & Ht & Hd & Hu).
  rewrite remoteok_entry_dict. cbn [remoteok_candidate].
  apply emit_if_new_typed; auto.
  - now apply remoteok_title_text.
  - intros u U. apply (candidate_exact _ u rows (K _ eq_refl) U W).
Qed.

Lemma remotive_step (job : pyval) (jl : list job_data) (w : world)
      (rows : list ledger_row) :
  known_entry (remotive_candidate self) job ->
  log_file w = Some (ledger_text rows) -> rows_within universe rows ->
  remotive_entry self job jl w = run_candidate (remotive_candidate self job) rows jl w.
Proof.
  intros [T K] L W. destruct job as [| | | | |d]; try discriminate.
  destruct (typed_entry_fields d T) as (Hp & Ht & Hd & Hu).
  rewrite remotive_entry_dict. cbn [remotive_candidate].
  apply emit_if_new_typed; auto.
  - apply field_text_or_missing; auto.
  - intros u U. apply (candidate_exact _ u rows (K _ eq_refl) U W).
Qed.

Lemma wwr_step (li : li_tag) (jl : list job_data) (w : world) (rows : list ledger_row) :
  known_item li ->
  log_file w = Some (ledger_text rows) -> rows_within universe rows ->
  wwr_entry self li jl w = run_candidate (wwr_candidate self li) rows jl w.
Proof.
  intros K L W. apply wwr_entry_candidate; [exact L|].
  intros c u C U. apply (candidate_exact c u rows (K _ C) U W).
Qed.

Lemma json_candidate_dateless (source company_key : string)
      (d : list (string * pyval)) (title : pyval) :
  without_date (cand_record (json_candidate self source company_key d title))
  = cand_record (json_candidate self source company_key d title).
Proof. reflexivity. Qed.

Lemma remoteok_loop_result (jobs : list pyval) (jl : list job_data) (w : world)
      (rows : list ledger_row) :
  Forall (known_entry (remoteok_candidate self)) jobs ->
  log_file w = Some (ledger_text rows) -> rows_within universe rows ->
  loop_result universe rows (somes (map (remoteok_candidate self) jobs)) jl
    (remoteok_loop self jobs jl w).
Proof.
  intros G L W.
  destruct (loop_sequence pyval (remoteok_entry self) (remoteok_loop self))
    with (cand_of := remoteok_candidate self) (universe := universe)
         (good := known_entry (remoteok_candidate self))
         (l := jobs) (jl := jl) (w := w) (rows := rows)
    as (w' & new_rows & R & L' & W' & S); try reflexivity; try assumption.
  - intros x jl0 w0 rows0 Gx L0 W0. now apply remoteok_step.
  - intros x c [T K] C. split; [apply candidate_in_universe, K, C|].
    destruct x; try discriminate. injection C as <-. reflexivity.
  - exists new_rows. rewrite R. auto.
Qed.

Lemma remotive_loop_result (jobs : list pyval) (jl : list job_data) (w : world)
      (rows : list ledger_row) :
  Forall (known_entry (remotive_candidate self)) jobs ->
  log_file w = Some (ledger_text rows) -> rows_within universe rows ->
  loop_result universe rows (somes (map (remotive_candidate self) jobs)) jl
    (remotive_loop self jobs jl w).
Proof.
  intros G L W.
  destruct (loop_sequence pyval (remotive_entry self) (remotive_loop self))
    with (cand_of := remotive_candidate self) (universe := universe)
         (good := known_entry (remotive_candidate self))
         (l := jobs) (jl := jl) (w := w) (rows := rows)
    as (w' & new_rows & R & L' & W' & S); try reflexivity; try assumption.
  - intros x jl0 w0 rows0 Gx L0 W0. now apply remotive_step.
  - intros x c [T K] C. split; [apply candidate_in_universe, K, C|].
    destruct x; try discriminate. injection C as <-. reflexivity.
  - exists new_rows. rewrite R. auto.
Qed.

Lemma wwr_section_result (lis : list li_tag) (jl : list job_data) (w : world)
      (rows : list ledger_row) :
  Forall known_item lis ->
  log_file w = Some (ledger_text rows) -> rows_within universe rows ->
  loop_result universe rows (somes (map (wwr_candidate self) lis)) jl
    (wwr_section self lis jl w).
Proof.
  intros G L W.
  destruct (loop_sequence li_tag (wwr_entry self) (wwr_section self))
    with (cand_of := wwr_candidate self) (universe := universe)
         (good := known_item)
         (l := lis) (jl := jl) (w := w) (rows := rows)
    as (w' & new_rows & R & L' & W' & S); try reflexivity; try assumption.
  - intros x jl0 w0 rows0 Gx L0 W0. now apply wwr_step.
  - intros x c K C. split; [apply candidate_in_universe, K, C|].
    unfold wwr_candidate in C.
    destruct (li_href x); [|discriminate]. destruct (li_title x); [|discriminate].
    injection C as <-. reflexivity.
  - exists new_rows. rewrite R. auto.
Qed.

(** Two loops one after the other. *)
Lemma loop_result_then (rows : list ledger_row) (cs1 cs2 : list candidate)
      (jl : list job_data) (w1 : world) (jl1 : list job_data)
      (r2 : world * outcome (list job_data)) :
  loop_result universe rows cs1 jl (w1, Return jl1) ->
  (forall rows1, log_file w1 = Some (ledger_text rows1) ->
                 rows_within universe rows1 ->
                 (forall u, in_ledger rows1 u
                            = in_ledger rows u
                              || existsb (has_url u) (sequence (in_ledger rows) cs1)) ->
                 loop_result universe rows1 cs2 jl1 r2) ->
  loop_result universe rows (cs1 ++ cs2) jl r2.
Proof.
  intros (n1 & R1 & L1 & W1 & S1) H. cbn [fst snd] in *.
  injection R1 as ->.
  assert (forall u, in_ledger (rows ++ n1) u
                    = in_ledger rows u
                      || existsb (has_url u) (sequence (in_ledger rows) cs1)) as K.
  { intro u. now rewrite in_ledger_app, S1. }
  destruct (H (rows ++ n1)%list L1 W1 K) as (n2 & R2 & L2 & W2 & S2).
  exists (n1 ++ n2)%list. rewrite R2, L2, map_app, !app_assoc, map_app.
  repeat split; try reflexivity.
  - exact W2.
  - rewrite sequence_app, S1, S2. f_equal. apply sequence_ext.
    exact K.
Qed.

Lemma wwr_loop_result (page : soup) :
  forall jl w rows,
    Forall (Forall known_item) page ->
    log_file w = Some (ledger_text rows) -> rows_within universe rows ->
    loop_result universe rows (somes (map (wwr_candidate self) (List.concat page))) jl
      (wwr_loop self page jl w).
Proof.
  induction page as [|lis page IH]; intros jl w rows G L W.
  - exists []. cbn. rewrite !app_nil_r. auto.
  - inversion G as [|? ? Gl Gp]; subst.
    cbn [wwr_loop List.concat]. rewrite map_app, somes_app. unfold bind.
    pose proof (wwr_section_result lis jl w rows Gl L W) as R1.
    destruct (wwr_section self lis jl w) as [w1 [e|jl1]].
    + destruct R1 as (n1 & R1 & _). discriminate.
    + apply (loop_result_then rows _ _ jl w1 jl1); [exact R1|].
      intros rows1 L1 W1 _. now apply IH.
Qed.

Lemma fetch_remoteok_jobs_result (meta : pyval) (jobs : list pyval) (w : world)
      (rows : list ledger_row) :
  Forall (known_entry (remoteok_candidate self)) jobs ->
  log_file w = Some (ledger_text rows) -> rows_within universe rows ->
  loop_result universe rows (somes (map (remoteok_candidate self) jobs)) []
    (fetch_remoteok_jobs self (remoteok_body meta jobs) w).
Proof.
  intros G L W. pose proof (remoteok_loop_result jobs [] w rows G L W) as R.
  unfold fetch_remoteok_jobs, remoteok_body, try_except, bind, response_body,
    response_json, lift, ret. cbn [py_slice_from_1 py_iter List.tl].
  destruct (remoteok_loop self jobs [] w) as [w' [e|jl]]; [|exact R].
  destruct R as (n & R & _). discriminate.
Qed.

Lemma fetch_remotive_jobs_result (jobs : list pyval) (w : world)
      (rows : list ledger_row) :
  Forall (known_entry (remotive_candidate self)) jobs ->
  log_file w = Some (ledger_text rows) -> rows_within universe rows ->
  loop_result universe rows (somes (map (remotive_candidate self) jobs)) []
    (fetch_remotive_jobs self (remotive_body jobs) w).
Proof.
  intros G L W. pose proof (remotive_loop_result jobs [] w rows G L W) as R.
  unfold fetch_remotive_jobs, remotive_body, try_except, bind, response_body,
    response_json, lift, ret. cbn [py_get assoc String.eqb Ascii.eqb Bool.eqb py_iter].
  destruct (remotive_loop self jobs [] w) as [w' [e|jl]]; [|exact R].
  destruct R as (n & R & _). discriminate.
Qed.

Lemma fetch_wwr_jobs_result (page : soup) (w : world) (rows : list ledger_row) :
  Forall (Forall known_item) page ->
  log_file w = Some (ledger_text rows) -> rows_within universe rows ->
  loop_result universe rows (somes (map (wwr_candidate self) (List.concat page))) []
    (fetch_wwr_jobs self (Body page) w).
Proof.
  intros G L W. pose proof (wwr_loop_result page [] w rows G L W) as R.
  unfold fetch_wwr_jobs, try_except, bind, response_body, ret.
  destruct (wwr_loop self page [] w) as [w' [e|jl]]; [|exact R].
  destruct R as (n & R & _). discriminate.
Qed.

End WellFormedCycle.

(** *** The whole cycle *)

Lemma in_somes_map {A B : Type} (f : A -> option B) (l : list A) (x : A) (b : B) :
  In x l -> f x = Some b -> In b (somes (map f l)).
Proof.
  induction l as [|y l IH]; [contradiction|].
  intros [-> | I] E; cbn [map somes].
  - rewrite E. now left.
  - destruct (f y); [right|]; now apply IH.
Qed.

Lemma history_within (history : list ledger_row) (cands : list candidate) :
  rows_within (universe_of history cands) history.
Proof.
  apply Forall_forall. intros r I. unfold universe_of. apply in_or_app. left.
  apply (in_map (fun r => row_texts (snd r))). exact I.
Qed.

Lemma log_file_paced (self : JobBot) (w : world) :
  log_file (paced self w) = log_file w.
Proof. apply log_file_time_sleep. Qed.

Lemma matches_keywords_spec (self : JobBot) (text : string) :
  matches_keywords self (PStr text) = Return true <->
  nonempty text = true /\
  exists keyword,
    In keyword (job_keywords self) /\ substring_of (lower keyword) (lower text).
Proof.
  unfold matches_keywords. rewrite truthy_str.
  destruct (nonempty text); cbn [negb].
  - split.
    + intros [= H]. split; [reflexivity|].
      apply existsb_exists in H as (k & I & P). exists k. split; [exact I|].
      now apply py_in_true.
    + intros (_ & k & I & P). f_equal. apply existsb_exists. exists k.
      split; [exact I | now apply py_in_true].
  - split; [discriminate | intros [H _]; discriminate].
Qed.

Lemma eligible_for_fields (known : string -> bool) (c : candidate) :
  eligible_for known c = true <->
  cand_matches c = true /\
  exists u, usable_url (cand_record c) = Some u /\ known u = false.
Proof.
  unfold eligible_for. split.
  - intro H. apply andb_true_iff in H as [M H]. split; [exact M|].
    destruct (usable_url (cand_record c)) as [u|]; [|discriminate].
    exists u. split; [reflexivity | now apply negb_true_iff].
  - intros (M & u & U & K). now rewrite M, U, K.
Qed.

(** The URLs of the expected records are those of the eligible
    candidates. *)
Lemma expected_records_urls (history : list ledger_row) (cands : list candidate)
      (u : string) :
  (exists j, In j (expected_records history cands) /\ job_url j = PStr u) <->
  (exists c, In c cands /\ cand_matches c = true /\
             usable_url (cand_record c) = Some u /\ in_ledger history u = false).
Proof.
  unfold expected_records. split.
  - intros (j & I & U). apply first_seen_wins_in in I.
    apply in_map_iff in I as (c & <- & I). apply filter_In in I as [I E].
    apply eligible_for_fields in E as (M & u' & U' & K).
    exists c. rewrite (usable_url_str _ _ U') in U. injection U as <-. auto.
  - intros (c & I & M & U & K).
    destruct (first_seen_wins_covers
                (map cand_record (filter (eligible_for (in_ledger history)) cands))
                (cand_record c)) as (j & Ij & S).
    + apply forallb_forall. intros j Ij.
      apply in_map_iff in Ij as (c' & <- & Ic). apply filter_In in Ic as [_ E].
      apply eligible_for_fields in E as (_ & u' & U' & _).
      unfold hashable_url. now rewrite (usable_url_str _ _ U').
    + apply in_map. apply filter_In. split; [exact I|].
      apply eligible_for_fields. eauto.
    + exists j. split; [exact Ij|].
      rewrite same_url_sym, (same_url_has_url _ j u U) in S.
      unfold has_url in S. destruct (job_url j); try discriminate.
      apply String.eqb_eq in S. now subst.
Qed.

(** C2, as the code has it.  When the three sources answer with
    well-formed payloads (the elements of the two JSON arrays are objects
    whose text fields are text or missing), the log file holds the rows of
    [history], and no usable URL of a candidate can be mistaken in the
    Ledger, [fetch_all_jobs] returns, apart from the dates, the records of
    the candidates that match a keyword, have a non-empty URL that no row
    of [history] has, the first candidate of every URL: a URL is the URL
    of a record of the output exactly when a candidate with that URL
    matches a keyword and no row of [history] has it.  A text matches when
    it is not empty and the lower-case form of a keyword is a substring of
    its lower-case form. *)
Theorem cycle_returns_new_matching_listings
    (self : JobBot) (meta : pyval) (remoteok_jobs : list pyval) (page : soup)
    (remotive_jobs : list pyval) (history : list ledger_row) (w : world) :
  let cands := cycle_candidates self remoteok_jobs page remotive_jobs in
  forallb typed_entry remoteok_jobs = true ->
  forallb typed_entry remotive_jobs = true ->
  log_file w = Some (ledger_text history) ->
  unambiguous history cands = true ->
  exists w' jobs,
    fetch_all_jobs self (answers meta remoteok_jobs page remotive_jobs) w
    = (w', Return jobs) /\
    map without_date jobs = expected_records history cands /\
    (forall u,
        (exists job, In job jobs /\ job_url job = PStr u) <->
        (exists c, In c cands /\ cand_matches c = true /\
                   usable_url (cand_record c) = Some u /\
                   in_ledger history u = false)) /\
    (forall text,
        matches_keywords self (PStr text) = Return true <->
        nonempty text = true /\
        exists keyword,
          In keyword (job_keywords self) /\
          substring_of (lower keyword) (lower text)).
Proof.
  intros cands Ta Tc L U.
  set (csa := somes (map (remoteok_candidate self) remoteok_jobs)).
  set (csb := somes (map (wwr_candidate self) (List.concat page))).
  set (csc := somes (map (remotive_candidate self) remotive_jobs)).
  assert (cands = (csa ++ csb ++ csc)%list) as Ec by reflexivity.
  assert (Forall (known_entry_in cands (remoteok_candidate self)) remoteok_jobs) as Ga.
  { apply Forall_forall. intros x I. split.
    - rewrite forallb_forall in Ta. now apply Ta.
    - intros c C. rewrite Ec. apply in_or_app. left.
      exact (in_somes_map _ _ _ _ I C). }
  assert (Forall (Forall (known_item_in self cands)) page) as Gb.
  { apply Forall_forall. intros lis Il. apply Forall_forall. intros x I c C.
    rewrite Ec. apply in_or_app. right. apply in_or_app. left.
    apply (in_somes_map _ _ x); [|exact C].
    apply in_concat. eauto. }
  assert (Forall (known_entry_in cands (remotive_candidate self)) remotive_jobs) as Gc.
  { apply Forall_forall. intros x I. split.
    - rewrite forallb_forall in Tc. now apply Tc.
    - intros c C. rewrite Ec. apply in_or_app. right. apply in_or_app. right.
      exact (in_somes_map _ _ _ _ I C). }
  destruct (fetch_all_jobs_with_log self
              (answers meta remoteok_jobs page remotive_jobs) w)
    as (wa & wb & wc & ja & jb & jc & Ea & Eb & Eqc & E & _).
  { unfold log_exists. now rewrite L. }
  cbn [answers remoteok_api weworkremotely_page remotive_api] in Ea, Eb, Eqc.
  (* RemoteOK *)
  destruct (fetch_remoteok_jobs_result self history cands U meta remoteok_jobs w history
              Ga L (history_within _ _)) as (na & Ra & La & Wa & Sa).
  rewrite Ea in Ra, La. cbn [fst snd app] in Ra, La. injection Ra as ->.
  (* WeWorkRemotely *)
  destruct (fetch_wwr_jobs_result self history cands U page (paced self wa)
              (history ++ na)%list Gb) as (nb & Rb & Lb & Wb & Sb);
    [now rewrite log_file_paced | exact Wa |].
  rewrite Eb in Rb, Lb. cbn [fst snd app] in Rb, Lb. injection Rb as ->.
  (* Remotive *)
  destruct (fetch_remotive_jobs_result self history cands U remotive_jobs (paced self wb)
              ((history ++ na) ++ nb)%list Gc) as (nc & Rc & Lc & Wc & Sc);
    [now rewrite log_file_paced | exact Wb |].
  rewrite Eqc in Rc, Lc. cbn [fst snd app] in Rc, Lc. injection Rc as ->.
  (* the records, one source after the other *)
  assert (map without_date (map snd na ++ map snd nb ++ map snd nc)%list
          = sequence (in_ledger history) cands) as S.
  { rewrite Ec, !map_app, !map_map, Sa, Sb, Sc.
    rewrite sequence_app. f_equal. rewrite sequence_app. f_equal.
    - apply sequence_ext. intro u. now rewrite in_ledger_app, Sa.
    - apply sequence_ext. intro u.
      rewrite !in_ledger_app, Sa, Sb. f_equal. f_equal.
      apply sequence_ext. intro u'. now rewrite in_ledger_app, Sa. }
  exists (paced self wc), (first_seen_wins (map snd na ++ map snd nb ++ map snd nc)%list).
  assert (map without_date
            (first_seen_wins (map snd na ++ map snd nb ++ map snd nc)%list)
          = expected_records history cands) as X.
  { rewrite first_seen_wins_without_date, S, sequence_first_seen_wins.
    apply first_seen_wins_idempotent. }
  split; [exact E|]. split; [exact X|]. split; [|apply matches_keywords_spec].
  intro u. rewrite <- expected_records_urls, <- X. split.
  - intros (job & I & Uj). exists (without_date job). split; [now apply in_map | exact Uj].
  - intros (j & I & Uj). apply in_map_iff in I as (job & <- & I). eauto.
Qed.

Lemma cycle_returns_new_matching_listings_witness :
  let w := world_at noon (Some (ledger_text sample_history)) in
  let cands :=
    cycle_candidates sample_bot sample_remoteok_jobs sample_page [django_entry] in
  forallb typed_entry sample_remoteok_jobs = true /\
  unambiguous sample_history cands = true /\
  exists w' jobs,
    fetch_all_jobs sample_bot
      (answers metadata sample_remoteok_jobs sample_page [django_entry]) w
    = (w', Return jobs) /\
    map without_date jobs = expected_records sample_history cands.
Proof.
  split; [reflexivity|]. split; [vm_compute; reflexivity|].
  destruct (cycle_returns_new_matching_listings sample_bot metadata
              sample_remoteok_jobs sample_page [django_entry] sample_history
              (world_at noon (Some (ledger_text sample_history))))
    as (w' & jobs & E & X & _);
    [reflexivity | reflexivity | reflexivity | vm_compute; reflexivity |].
  exists w', jobs. split; assumption.
Defined.

(** C2 as stated fails: with an empty Ledger, the second of two listings
    with one URL matches a keyword and is not in the output; and a listing
    that matches is not in the output when [null] follows it in the
    payload. *)
Lemma matching_new_listing_left_out :
  let w := world_at morning (Some EmptyString) in
  let run payload := snd (fetch_all_jobs sample_bot (with_remoteok payload) w) in
  matches_keywords sample_bot (PStr "Senior Python Developer") = Return true /\
  (exists record,
      run [metadata; python_entry; senior_python_entry] = Return [record] /\
      job_title record = PStr "Python Developer") /\
  matches_keywords sample_bot (PStr "Python Developer") = Return true /\
  run [metadata; python_entry; PNone] = Return [].
Proof.
  split; [vm_compute; reflexivity|].
  split; [eexists; split; vm_compute; reflexivity|].
  split; vm_compute; reflexivity.
Qed.

(** ** The groups of the summary *)

Lemma group_insert_new (job : job_data) (groups : list (string * list job_data)) :
  existsb (String.eqb (job_source job)) (map fst groups) = false ->
  group_insert job groups = (groups ++ [(job_source job, [job])])%list.
Proof.
  induction groups as [|[s g] rest IH]; simpl; intro H; [reflexivity|].
  apply orb_false_iff in H as [H1 H2].
  rewrite String.eqb_sym, H1. now rewrite IH.
Qed.

Lemma group_insert_old (job : job_data) (groups : list (string * list job_data)) :
  NoDup (map fst groups) ->
  existsb (String.eqb (job_source job)) (map fst groups) = true ->
  group_insert job groups
  = map (fun sg => (fst sg, if from_source (fst sg) job then (snd sg ++ [job])%list else snd sg))
      groups.
Proof.
  induction groups as [|[s g] rest IH]; simpl; intros N H; [discriminate|].
  inversion N as [|? ? NI N']; subst.
  unfold from_source at 1. simpl.
  destruct (String.eqb s (job_source job)) eqn:E.
  - f_equal. apply String.eqb_eq in E. subst s.
    clear IH H N. induction rest as [|[s' g'] rest IH]; [reflexivity|].
    simpl in *. inversion N' as [|? ? NI' N'']; subst.
    unfold from_source at 1. simpl.
    destruct (String.eqb s' (job_source job)) eqn:E'.
    + apply String.eqb_eq in E'. subst. exfalso. apply NI. now left.
    + f_equal. apply IH; [|exact N'']. intro I. apply NI. now right.
  - rewrite String.eqb_sym, E in H. simpl in H. f_equal. now apply IH.
Qed.

Lemma map_fst_group_insert (job : job_data) (groups : list (string * list job_data)) :
  map fst (group_insert job groups)
  = if existsb (String.eqb (job_source job)) (map fst groups)
    then map fst groups
    else (map fst groups ++ [job_source job])%list.
Proof.
  induction groups as [|[s g] rest IH]; simpl; [reflexivity|].
  rewrite (String.eqb_sym (job_source job) s).
  destruct (String.eqb s (job_source job)); simpl; [reflexivity|].
  rewrite IH. now destruct (existsb _ _).
Qed.

Lemma existsb_eqb_In (s : string) (l : list string) :
  existsb (String.eqb s) l = true <-> In s l.
Proof.
  rewrite existsb_exists. split.
  - intros (x & I & E). apply String.eqb_eq in E. now subst.
  - intro I. exists s. split; [exact I | apply String.eqb_refl].
Qed.

Lemma NoDup_group_insert (job : job_data) (groups : list (string * list job_data)) :
  NoDup (map fst groups) -> NoDup (map fst (group_insert job groups)).
Proof.
  intro N. rewrite map_fst_group_insert.
  destruct (existsb _ _) eqn:E; [exact N|].
  apply NoDup_app; [exact N | repeat constructor; auto |].
  intros x I [<-|[]]. apply existsb_eqb_In in I. congruence.
Qed.

Lemma fold_group_insert (l : list job_data) :
  forall acc : list (string * list job_data),
    NoDup (map fst acc) ->
    fold_left (fun groups job => group_insert job groups) l acc
    = (map (fun sg => (fst sg, (snd sg ++ filter (from_source (fst sg)) l)%list)) acc ++
       map (fun s => (s, filter (from_source s) l))
         (filter (fun s => negb (existsb (String.eqb s) (map fst acc)))
            (sources_in_order l)))%list.
Proof.
  induction l as [|j l IH]; intros acc N.
  - simpl. rewrite app_nil_r. rewrite <- (map_id acc) at 1.
    apply map_ext. intros [s g]. simpl. now rewrite app_nil_r.
  - cbn [fold_left]. rewrite (IH _ (NoDup_group_insert j acc N)).
    rewrite map_fst_group_insert.
    destruct (existsb (String.eqb (job_source j)) (map fst acc)) eqn:E.
    + rewrite (group_insert_old j acc N E). rewrite map_map. cbn [fst snd].
      f_equal.
      * apply map_ext. intros [s g]. cbn [fst snd filter].
        destruct (from_source s j); [|reflexivity].
        now rewrite <- app_assoc.
      * cbn [sources_in_order filter].
        pose proof E as E'.
        rewrite E'. cbn [negb].
        rewrite filter_filter.
        assert (forall s, negb (existsb (String.eqb s) (map fst acc)) = true ->
                          from_source s j = false) as F.
        { intros s H. unfold from_source. destruct (String.eqb s (job_source j)) eqn:X;
            [|reflexivity].
          apply String.eqb_eq in X. subst s. now rewrite E' in H. }
        assert (filter (fun x => negb (String.eqb x (job_source j)) &&
                                 negb (existsb (String.eqb x) (map fst acc)))
                  (sources_in_order l)
                = filter (fun s => negb (existsb (String.eqb s) (map fst acc)))
                    (sources_in_order l)) as ->.
        { apply filter_ext. intro s.
          destruct (negb (existsb (String.eqb s) (map fst acc))) eqn:P.
          - apply F in P. unfold from_source in P. now rewrite P.
          - now rewrite andb_false_r. }
        apply map_ext_in. intros s I. apply filter_In in I as [_ P].
        now rewrite (F s P).
    + rewrite (group_insert_new j acc E). rewrite map_app. cbn [map fst snd].
      rewrite <- app_assoc. f_equal.
      * apply map_ext_in. intros [s g] I. cbn [fst snd filter].
        assert (from_source s j = false) as ->; [|reflexivity].
        unfold from_source. destruct (String.eqb s (job_source j)) eqn:X; [|reflexivity].
        apply String.eqb_eq in X. subst s.
        assert (existsb (String.eqb (job_source j)) (map fst acc) = true); [|congruence].
        apply existsb_eqb_In. now apply (in_map fst) in I.
      * cbn [sources_in_order filter app].
        rewrite E.
        cbn [negb map].
        assert (from_source (job_source j) j = true) as -> by apply String.eqb_refl.
        f_equal. rewrite filter_filter.
        assert (filter (fun s => negb (existsb (String.eqb s) (map fst acc ++ [job_source j])))
                  (sources_in_order l)
                = filter (fun x => negb (String.eqb x (job_source j)) &&
                                   negb (existsb (String.eqb x) (map fst acc)))
                    (sources_in_order l)) as ->.
        { apply filter_ext. intro s. rewrite existsb_app. cbn [existsb].
          rewrite orb_false_r, negb_orb. apply andb_comm. }
        apply map_ext_in. intros s I. apply filter_In in I as [_ P].
        apply andb_true_iff in P as [P _]. apply negb_true_iff in P.
        unfold from_source at 2. now rewrite P.
Qed.

Lemma filter_true {A : Type} (l : list A) : filter (fun _ => true) l = l.
Proof. induction l as [|x l IH]; simpl; [reflexivity | now rewrite IH]. Qed.

Lemma sources_in_order_In (jobs : list job_data) (s : string) :
  In s (sources_in_order jobs) <-> exists job, In job jobs /\ job_source job = s.
Proof.
  induction jobs as [|j l IH]; simpl.
  - split; [intros [] | intros (x & [] & _)].
  - rewrite filter_In, IH. split.
    + intros [<- | ((x & I & <-) & _)]; [exists j | exists x]; auto.
    + intros (x & [<- | I] & <-); [now left|].
      destruct (String.eqb (job_source x) (job_source j)) eqn:E.
      * left. apply String.eqb_eq in E. now symmetry.
      * right. split; [exists x; auto | reflexivity].
Qed.

Lemma sources_in_order_NoDup (jobs : list job_data) : NoDup (sources_in_order jobs).
Proof.
  induction jobs as [|j l IH]; simpl; constructor.
  - intro I. apply filter_In in I as [_ E]. now rewrite String.eqb_refl in E.
  - now apply NoDup_filter.
Qed.

Lemma filter_split {A : Type} (f : A -> bool) (l : list A) :
  Permutation (filter f l ++ filter (fun x => negb (f x)) l) l.
Proof.
  induction l as [|x l IH]; simpl; [constructor|].
  destruct (f x); simpl.
  - now constructor.
  - rewrite <- Permutation_middle. now constructor.
Qed.

(** The groups of distinct sources that cover the records hold every record
    once. *)
Lemma groups_cover (ss : list string) :
  forall l : list job_data,
    NoDup ss -> (forall job, In job l -> In (job_source job) ss) ->
    Permutation (List.concat (map (fun s => filter (from_source s) l) ss)) l.
Proof.
  induction ss as [|s ss IH]; intros l N C.
  - destruct l as [|j l]; [constructor|]. destruct (C j (or_introl eq_refl)).
  - inversion N as [|? ? NI N']; subst. cbn [map List.concat].
    apply (Permutation_trans (l' := (filter (from_source s) l ++
                                      filter (fun x => negb (from_source s x)) l)%list));
      [|apply filter_split].
    apply Permutation_app_head.
    apply (Permutation_trans
             (l' := List.concat (map (fun s' => filter (from_source s')
                                        (filter (fun x => negb (from_source s x)) l)) ss))).
    2: apply (IH (filter (fun x => negb (from_source s x)) l) N').
    + apply Permutation_refl'. f_equal. apply map_ext_in. intros s' I.
      rewrite filter_filter. apply filter_ext_in. intros x _.
      destruct (from_source s x) eqn:E; [|reflexivity].
      unfold from_source in *. apply String.eqb_eq in E. subst s.
      destruct (String.eqb s' (job_source x)) eqn:E'; [|reflexivity].
      apply String.eqb_eq in E'. subst s'. contradiction.
    + intros job I. apply filter_In in I as [I E].
      destruct (C job I) as [X | I']; [|exact I'].
      unfold from_source in E. rewrite X, String.eqb_refl in E. discriminate.
Qed.

Lemma jobs_by_source_grouped (jobs : list job_data) : jobs_by_source jobs = grouped jobs.
Proof.
  unfold jobs_by_source, grouped. rewrite (fold_group_insert jobs []); [|constructor].
  cbn [map app existsb negb]. now rewrite filter_true.
Qed.

Lemma all_of_jobs_by_source_permutation (jobs : list job_data) :
  Permutation (all_of (jobs_by_source jobs)) jobs.
Proof.
  rewrite jobs_by_source_grouped. unfold all_of, grouped. rewrite map_map. cbn [snd].
  apply groups_cover; [apply sources_in_order_NoDup|].
  intros job I. apply sources_in_order_In. now exists job.
Qed.

(** X1. The dictionary [jobs_by_source] built by [run_job_search] holds
    every source of the records once, in the order of its first record,
    and under each source exactly the records of that source in the order
    they came; the groups together hold every record once. *)
Theorem jobs_by_source_groups_in_order (jobs : list job_data) :
  jobs_by_source jobs = grouped jobs /\
  NoDup (sources_in_order jobs) /\
  (forall source,
      In source (sources_in_order jobs) <->
      exists job, In job jobs /\ job_source job = source) /\
  Permutation (all_of (jobs_by_source jobs)) jobs.
Proof.
  split; [apply jobs_by_source_grouped|].
  split; [apply sources_in_order_NoDup|].
  split; [apply sources_in_order_In|].
  apply all_of_jobs_by_source_permutation.
Qed.

(** ** [fetch_all_jobs]: a URL that cannot be a member of a set *)

Lemma unique_loop_unhashable (l : list job_data) :
  forall (unique_jobs : list job_data) (seen_urls : list hkey),
    forallb hashable_url l = false ->
    unique_loop l unique_jobs seen_urls = Raise TypeError.
Proof.
  induction l as [|j l IH]; intros acc seen H; [discriminate|].
  simpl in *. unfold hashable_url in H.
  destruct (job_url j); simpl in *;
    try reflexivity;
    match goal with
    | |- context [existsb ?f seen] => destruct (existsb f seen); now apply IH
    end.
Qed.

Lemma first_seen_wins_hashable (l : list job_data) :
  forallb hashable_url l = true -> forallb hashable_url (first_seen_wins l) = true.
Proof.
  intro H. apply forallb_forall. intros j I.
  apply first_seen_wins_in in I. revert j I. now apply forallb_forall.
Qed.

Lemma first_seen_wins_length (l : list job_data) :
  List.length (first_seen_wins l) <= List.length l.
Proof.
  induction l as [|j l IH]; simpl; [lia|].
  pose proof (filter_length_le (fun later => negb (same_url j later)) (first_seen_wins l)).
  lia.
Qed.

(** X2. The loop of [fetch_all_jobs] that removes duplicates raises
    [TypeError] exactly when the URL of some record is a list or an object,
    whatever the other records are; otherwise it keeps the first record of
    every URL.  What it returns has no duplicates left: going through it
    again changes nothing, and it is never longer than what went in. *)
Theorem remove_duplicates_raises_or_settles (all_jobs : list job_data) :
  remove_duplicates all_jobs
  = (if forallb hashable_url all_jobs then Return (first_seen_wins all_jobs)
     else Raise TypeError) /\
  (forall unique_jobs,
      remove_duplicates all_jobs = Return unique_jobs ->
      remove_duplicates unique_jobs = Return unique_jobs /\
      List.length unique_jobs <= List.length all_jobs /\
      (unique_jobs = [] <-> all_jobs = [])).
Proof.
  assert (remove_duplicates all_jobs
          = if forallb hashable_url all_jobs then Return (first_seen_wins all_jobs)
            else Raise TypeError) as R.
  { destruct (forallb hashable_url all_jobs) eqn:H.
    - now apply remove_duplicates_spec.
    - now apply unique_loop_unhashable. }
  split; [exact R|]. intros u E. rewrite R in E.
  destruct (forallb hashable_url all_jobs) eqn:H; [|discriminate].
  injection E as <-. split; [|split].
  - rewrite remove_duplicates_spec by now apply first_seen_wins_hashable.
    now rewrite first_seen_wins_idempotent.
  - apply first_seen_wins_length.
  - destruct all_jobs; simpl; split; intro; (reflexivity || discriminate).
Qed.

(** ** [matches_keywords] *)

Lemma lower_append (a b : string) : lower (a ++ b) = lower a ++ lower b.
Proof. induction a as [|c a IH]; simpl; [reflexivity | now rewrite IH]. Qed.

Lemma lower_char_idempotent (c : ascii) : lower_char (lower_char c) = lower_char c.
Proof. destruct c as [[|] [|] [|] [|] [|] [|] [|] [|]]; reflexivity. Qed.

Lemma lower_idempotent (s : string) : lower (lower s) = lower s.
Proof.
  induction s as [|c s IH]; simpl; [reflexivity|].
  now rewrite lower_char_idempotent, IH.
Qed.

Lemma lower_nonempty (s : string) : nonempty (lower s) = nonempty s.
Proof. destruct s; reflexivity. Qed.

Lemma substring_of_context (sub before text after : string) :
  substring_of sub text -> substring_of sub (before ++ text ++ after).
Proof.
  intros (p & q & ->). exists (before ++ p), (q ++ after).
  now rewrite !append_assoc.
Qed.

Lemma matches_keywords_str (self : JobBot) (s : string) :
  matches_keywords self (PStr s)
  = Return (nonempty s &&
            existsb (fun keyword => py_in (lower keyword) (lower s)) (job_keywords self)).
Proof.
  unfold matches_keywords. rewrite truthy_str.
  destruct (nonempty s); reflexivity.
Qed.

(** X3. [matches_keywords] looks for the keywords anywhere in the text and
    ignores case: two texts that differ in case only get the same answer,
    writing the keywords in small letters changes nothing, and a text that
    matches still matches with any text before and after it. *)
Theorem matches_keywords_ignores_case_and_context
    (self : JobBot) (text text' before after : string) :
  lower text = lower text' ->
  matches_keywords self (PStr text') = matches_keywords self (PStr text) /\
  matches_keywords (with_keywords (map lower (job_keywords self)) self) (PStr text)
  = matches_keywords self (PStr text) /\
  (matches_keywords self (PStr text) = Return true ->
   matches_keywords self (PStr (before ++ text' ++ after)) = Return true).
Proof.
  intro L.
  assert (nonempty text' = nonempty text) as N.
  { now rewrite <- (lower_nonempty text), <- (lower_nonempty text'), L. }
  split; [|split].
  - now rewrite !matches_keywords_str, N, L.
  - rewrite !matches_keywords_str. f_equal. f_equal. cbn [with_keywords job_keywords].
    induction (job_keywords self) as [|k ks IH]; simpl; [reflexivity|].
    now rewrite lower_idempotent, IH.
  - intro H. apply matches_keywords_spec in H as (Ne & k & I & S).
    apply matches_keywords_spec. split.
    + rewrite !nonempty_append, N, Ne. now rewrite orb_true_r.
    + exists k. split; [exact I|]. rewrite !lower_append, <- L.
      now apply substring_of_context.
Qed.

Lemma matches_keywords_ignores_case_and_context_witness :
  lower "Senior PYTHON Developer" = lower "senior python developer" /\
  matches_keywords sample_bot (PStr "senior python developer")
  = matches_keywords sample_bot (PStr "Senior PYTHON Developer").
Proof.
  split; [reflexivity|].
  exact (proj1 (matches_keywords_ignores_case_and_context sample_bot
                  "Senior PYTHON Developer" "senior python developer"
                  EmptyString EmptyString eq_refl)).
Defined.

(** ** Reading the Ledger back *)

(** Universal newlines work on the two parts of a text separately, unless
    a line feed at the cut could belong to a carriage return before it. *)
Lemma universal_newlines_append_upto (n : nat) (a b : string) :
  String.length a <= n ->
  starts_outside (Ascii.eqb LF) b = true ->
  universal_newlines (a ++ b) = universal_newlines a ++ universal_newlines b.
Proof.
  revert a. induction n as [|n IH]; intros a L S.
  - destruct a; [reflexivity | simpl in L; lia].
  - destruct a as [|c a]; [reflexivity|].
    simpl in L. cbn [append universal_newlines].
    destruct (Ascii.eqb c CR) eqn:C.
    + destruct a as [|c' a].
      * cbn [append]. destruct b as [|x b]; [reflexivity|].
        cbn [starts_outside] in S. apply negb_true_iff in S.
        rewrite Ascii.eqb_sym in S. rewrite S. reflexivity.
      * cbn [append]. destruct (Ascii.eqb c' LF).
        -- cbn [append]. f_equal. apply IH; [simpl in L; lia | exact S].
        -- cbn [append]. f_equal.
           apply (IH (String c' a)); [simpl in *; lia | exact S].
    + cbn [append]. f_equal. apply IH; [lia | exact S].
Qed.

Lemma universal_newlines_append (a b : string) :
  starts_outside (Ascii.eqb LF) b = true ->
  universal_newlines (a ++ b) = universal_newlines a ++ universal_newlines b.
Proof. apply (universal_newlines_append_upto (String.length a)), le_n. Qed.

Lemma universal_newlines_no_CR (s : string) :
  has_char CR s = false -> universal_newlines s = s.
Proof.
  induction s as [|c s IH]; [reflexivity|]. cbn [has_char universal_newlines].
  intro H. apply orb_false_iff in H as [C H].
  rewrite Ascii.eqb_sym, C. now rewrite IH.
Qed.

Lemma iso_char_not_special (c : ascii) : iso_char c = true -> csv_special c = false.
Proof. destruct c as [[|] [|] [|] [|] [|] [|] [|] [|]]; intro H; (reflexivity || discriminate). Qed.

Lemma all_iso_no_quotes (s : string) :
  all_chars iso_char s = true -> csv_needs_quotes s = false.
Proof.
  induction s as [|c s IH]; [reflexivity|]. simpl. intro H.
  apply andb_true_iff in H as [C H]. now rewrite (iso_char_not_special c C), IH.
Qed.

Lemma csv_field_isoformat (d : datetime) : csv_field (isoformat d) = isoformat d.
Proof. unfold csv_field. now rewrite (all_iso_no_quotes _ (isoformat_chars d)). Qed.

Lemma digit_not_LF (n : N) : Ascii.eqb LF (digit n) = false.
Proof.
  pose proof (digit_is_digit n) as D. revert D.
  generalize (digit n). intro c.
  destruct c as [[|] [|] [|] [|] [|] [|] [|] [|]]; intro H; (reflexivity || discriminate).
Qed.

(** A row begins with the first digit of the year. *)
Lemma row_text_starts (r : ledger_row) (rest : string) :
  starts_outside (Ascii.eqb LF) (row_text r ++ rest) = true.
Proof.
  rewrite row_text_append, csv_field_isoformat.
  unfold isoformat, pad4. cbn [append starts_outside].
  now rewrite digit_not_LF.
Qed.

Lemma py_in_append_l (u a b : string) : py_in u a = true -> py_in u (a ++ b) = true.
Proof.
  rewrite !py_in_true. intros (p & q & ->). exists p, (q ++ b).
  now rewrite !append_assoc.
Qed.

Lemma py_in_append_r (u a b : string) : py_in u b = true -> py_in u (a ++ b) = true.
Proof.
  rewrite !py_in_true. intros (p & q & ->). exists (a ++ p), q.
  now rewrite !append_assoc.
Qed.

(** What was found in the file is found after a row is appended. *)
Lemma seen_append_row (contents u : string) (r : ledger_row) :
  seen contents u = true -> seen (contents ++ row_text r) u = true.
Proof.
  unfold seen. intro H.
  rewrite <- (append_empty_r (row_text r)).
  rewrite universal_newlines_append by apply row_text_starts.
  now apply py_in_append_l.
Qed.

Lemma csv_double_quotes_none (u : string) :
  has_char DQUOTE u = false -> csv_double_quotes u = u.
Proof.
  induction u as [|c u IH]; [reflexivity|]. cbn [has_char csv_double_quotes].
  intro H. apply orb_false_iff in H as [C H].
  rewrite Ascii.eqb_sym, C. now rewrite IH.
Qed.

Lemma has_char_append (c : ascii) (a b : string) :
  has_char c (a ++ b) = has_char c a || has_char c b.
Proof.
  induction a as [|x a IH]; [reflexivity|]. simpl. now rewrite IH, orb_assoc.
Qed.

Section RoundTrip.

Variable u : string.
Hypothesis u_survives : survives_round_trip u = true.

Lemma survives_no_quote : has_char DQUOTE u = false.
Proof.
  unfold survives_round_trip in u_survives.
  apply andb_true_iff in u_survives as [Q _]. now apply negb_true_iff in Q.
Qed.

Lemma survives_no_CR : has_char CR u = false.
Proof.
  unfold survives_round_trip in u_survives.
  apply andb_true_iff in u_survives as [_ C]. now apply negb_true_iff in C.
Qed.

Lemma csv_field_no_CR : has_char CR (csv_field u) = false.
Proof.
  unfold csv_field. destruct (csv_needs_quotes u); [|apply survives_no_CR].
  rewrite (csv_double_quotes_none u survives_no_quote).
  cbn [has_char]. rewrite has_char_append, survives_no_CR. reflexivity.
Qed.

Lemma csv_field_holds : py_in u (csv_field u) = true.
Proof.
  unfold csv_field. destruct (csv_needs_quotes u); [|apply py_in_refl].
  rewrite (csv_double_quotes_none u survives_no_quote).
  apply py_in_true. exists (String DQUOTE EmptyString), (String DQUOTE EmptyString).
  reflexivity.
Qed.

Lemma csv_field_starts (rest : string) :
  starts_outside (Ascii.eqb LF) (csv_field u ++ String COMMA rest) = true.
Proof.
  unfold csv_field. destruct (csv_needs_quotes u) eqn:Q; [reflexivity|].
  destruct u as [|c u']; [reflexivity|].
  cbn [append starts_outside]. cbn [csv_needs_quotes] in Q.
  apply orb_false_iff in Q as [Q _]. unfold csv_special in Q.
  apply orb_false_iff in Q as [_ Q]. rewrite Ascii.eqb_sym. now rewrite Q.
Qed.

(** The URL of a row is found in the file the row was appended to. *)
Lemma seen_own_url (contents : string) (r : ledger_row) :
  job_url (snd r) = PStr u -> seen (contents ++ row_text r) u = true.
Proof.
  intro U. unfold seen.
  rewrite <- (append_empty_r (row_text r)).
  rewrite universal_newlines_append by apply row_text_starts.
  apply py_in_append_r.
  rewrite row_text_append, U. cbn [csv_text py_str].
  match goal with
  | |- context [csv_field u ++ ?rest] =>
      rewrite <- (append_snoc (csv_field (isoformat (fst r))) COMMA (csv_field u ++ rest))
  end.
  rewrite universal_newlines_append by apply csv_field_starts.
  apply py_in_append_r.
  rewrite universal_newlines_append by reflexivity.
  apply py_in_append_l.
  rewrite (universal_newlines_no_CR _ csv_field_no_CR).
  apply csv_field_holds.
Qed.

End RoundTrip.

Lemma log_file_mark_as_applied (self : JobBot) (job : job_data) (w : world) :
  log_file (fst (mark_as_applied self job w))
  = append_text (row_text (clock w (tick w), job)) (log_file w).
Proof. reflexivity. Qed.

Lemma contains_seen (self : JobBot) (u : string) (w : world) :
  contains self u w
  = Return (match log_file w with
            | Some contents => seen contents u
            | None => false
            end).
Proof.
  unfold contains, job_already_applied. now destruct (log_file w).
Qed.

Lemma append_all_cons (self : JobBot) (job : job_data) (rest : list job_data) (w : world) :
  fst (append_all self (job :: rest) w)
  = fst (append_all self rest (fst (mark_as_applied self job w))).
Proof. reflexivity. Qed.

Lemma contains_stays (self : JobBot) (v : string) (entries : list job_data) :
  forall w,
    contains self v w = Return true ->
    contains self v (fst (append_all self entries w)) = Return true.
Proof.
  induction entries as [|job rest IH]; intros w H; [exact H|].
  rewrite append_all_cons. apply IH.
  rewrite contains_seen in *. rewrite log_file_mark_as_applied.
  destruct (log_file w) as [contents|]; [|discriminate].
  cbn [append_text]. injection H as H. now rewrite seen_append_row.
Qed.

(** X4. A URL that [mark_as_applied] wrote is found by
    [job_already_applied] right away and after any number of later rows,
    provided it holds no double quote and no carriage return; and whatever
    [job_already_applied] finds, it still finds after more rows were
    written. *)
Theorem marked_url_is_found_from_then_on
    (self : JobBot) (job : job_data) (u : string) (later : list job_data) (w : world) :
  job_url job = PStr u ->
  survives_round_trip u = true ->
  contains self u (fst (mark_as_applied self job w)) = Return true /\
  contains self u (fst (append_all self (job :: later) w)) = Return true /\
  (forall v entries w0,
      contains self v w0 = Return true ->
      contains self v (fst (append_all self entries w0)) = Return true).
Proof.
  intros U S.
  assert (contains self u (fst (mark_as_applied self job w)) = Return true) as H.
  { rewrite contains_seen, log_file_mark_as_applied.
    destruct (log_file w) as [contents|]; cbn [append_text]; f_equal.
    - now apply seen_own_url.
    - change (row_text (clock w (tick w), job))
        with (EmptyString ++ row_text (clock w (tick w), job)).
      now apply seen_own_url. }
  split; [exact H|]. split.
  - rewrite append_all_cons. now apply contains_stays.
  - intros v entries w0. apply contains_stays.
Qed.

Lemma marked_url_is_found_from_then_on_witness :
  contains sample_bot "https://remoteok.io/jobs?tags=python,django"
    (fst (mark_as_applied sample_bot
            (listing "Python Developer" "https://remoteok.io/jobs?tags=python,django")
            (world_at morning None)))
  = Return true.
Proof.
  exact (proj1 (marked_url_is_found_from_then_on sample_bot
                  (listing "Python Developer" "https://remoteok.io/jobs?tags=python,django")
                  "https://remoteok.io/jobs?tags=python,django" []
                  (world_at morning None) eq_refl eq_refl)).
Defined.

(** ** Counting the rows *)

Lemma split_lines_append (p : string) :
  forall cur b,
    split_lines cur (p ++ String LF b)
    = (split_lines cur (p ++ String LF EmptyString) ++ split_lines EmptyString b)%list.
Proof.
  induction p as [|c p IH]; intros cur b.
  - cbn [append split_lines]. rewrite Ascii.eqb_refl. reflexivity.
  - cbn [append split_lines]. destruct (Ascii.eqb c LF).
    + now rewrite IH.
    + apply IH.
Qed.

Lemma split_lines_one (body : string) :
  forall cur,
    has_char LF body = false ->
    split_lines cur (body ++ String LF EmptyString)
    = [cur ++ body ++ String LF EmptyString].
Proof.
  induction body as [|c body IH]; intros cur H.
  - cbn [append split_lines]. now rewrite Ascii.eqb_refl.
  - cbn [has_char] in H. apply orb_false_iff in H as [C H].
    cbn [append split_lines]. rewrite Ascii.eqb_sym, C.
    rewrite (IH _ H). now rewrite append_assoc.
Qed.

Lemma universal_newlines_line (body : string) :
  has_char CR body = false ->
  universal_newlines (body ++ CRLF) = body ++ String LF EmptyString.
Proof.
  induction body as [|c body IH]; intro H; [reflexivity|].
  cbn [has_char] in H. apply orb_false_iff in H as [C H].
  cbn [append universal_newlines]. rewrite Ascii.eqb_sym, C. now rewrite IH.
Qed.

Lemma universal_newlines_CR_LF (s : string) :
  universal_newlines (String CR (String LF s)) = String LF (universal_newlines s).
Proof. reflexivity. Qed.

Lemma universal_newlines_CR (y : ascii) (s : string) :
  Ascii.eqb y LF = false ->
  universal_newlines (String CR (String y s)) = String LF (universal_newlines (String y s)).
Proof.
  intro H. change (universal_newlines (String CR (String y s)))
    with (if Ascii.eqb y LF then String LF (universal_newlines s)
          else String LF (universal_newlines (String y s))).
  now rewrite H.
Qed.

Lemma universal_newlines_other (x : ascii) (s : string) :
  Ascii.eqb x CR = false ->
  universal_newlines (String x s) = String x (universal_newlines s).
Proof.
  intro H. change (universal_newlines (String x s))
    with (if Ascii.eqb x CR
          then match s with
               | String c' s'' =>
                   if Ascii.eqb c' LF then String LF (universal_newlines s'')
                   else String LF (universal_newlines s)
               | EmptyString => String LF EmptyString
               end
          else String x (universal_newlines s)).
  now rewrite H.
Qed.

(** A file of complete lines reads as nothing or as a text that ends with
    a line feed. *)
Lemma complete_lines_read_upto (n : nat) (contents : string) :
  String.length contents <= n ->
  complete_lines contents = true ->
  contents = EmptyString \/
  exists p, universal_newlines contents = p ++ String LF EmptyString.
Proof.
  revert contents. induction n as [|n IH]; intros c L H.
  - destruct c; [now left | simpl in L; lia].
  - destruct c as [|x rest]; [now left|]. right. simpl in L.
    destruct rest as [|y rest'].
    + cbn [complete_lines] in H. cbn [universal_newlines].
      destruct (Ascii.eqb x CR) eqn:C; [now exists EmptyString|].
      rewrite orb_false_r in H. apply Ascii.eqb_eq in H. subst x.
      now exists EmptyString.
    + change (complete_lines (String x (String y rest')))
        with (complete_lines (String y rest')) in H.
      destruct (Ascii.eqb x CR) eqn:C.
      * apply Ascii.eqb_eq in C. subst x.
        destruct (Ascii.eqb y LF) eqn:F.
        -- apply Ascii.eqb_eq in F. subst y. rewrite universal_newlines_CR_LF.
           destruct rest' as [|z rest''].
           ++ now exists EmptyString.
           ++ change (complete_lines (String LF (String z rest'')))
                with (complete_lines (String z rest'')) in H.
              destruct (IH (String z rest'')) as [E | (p & E)];
                [simpl in *; lia | exact H | discriminate |].
              rewrite E. now exists (String LF p).
        -- rewrite (universal_newlines_CR y rest' F).
           destruct (IH (String y rest')) as [E | (p & E)];
             [simpl in *; lia | exact H | discriminate |].
           rewrite E. now exists (String LF p).
      * rewrite (universal_newlines_other x _ C).
        destruct (IH (String y rest')) as [E | (p & E)];
          [simpl in *; lia | exact H | discriminate |].
        rewrite E. now exists (String x p).
Qed.

Lemma complete_lines_append (a : string) (c : ascii) (b : string) :
  complete_lines (a ++ String c b) = complete_lines (String c b).
Proof.
  induction a as [|x a IH]; [reflexivity|].
  cbn [append]. destruct a as [|y a]; [reflexivity|].
  change (complete_lines (String x (String y a ++ String c b)))
    with (complete_lines (String y a ++ String c b)).
  exact IH.
Qed.

Lemma has_char_double_quotes (x : ascii) (s : string) :
  Ascii.eqb x DQUOTE = false -> has_char x s = false ->
  has_char x (csv_double_quotes s) = false.
Proof.
  intros Q. induction s as [|c s IH]; [reflexivity|].
  cbn [has_char csv_double_quotes]. intro K. apply orb_false_iff in K as [K1 K2].
  destruct (Ascii.eqb c DQUOTE).
  - cbn [has_char]. rewrite Q. cbn [orb]. now apply IH.
  - cbn [has_char]. rewrite K1. now apply IH.
Qed.

Lemma one_line_csv_field (s : string) :
  one_line s = true -> one_line (csv_field s) = true.
Proof.
  unfold csv_field, one_line. intro H. destruct (csv_needs_quotes s); [|exact H].
  apply andb_true_iff in H as [C F]. apply negb_true_iff in C, F.
  cbn [has_char]. rewrite !has_char_append. cbn [has_char].
  rewrite (has_char_double_quotes CR s eq_refl C), (has_char_double_quotes LF s eq_refl F).
  reflexivity.
Qed.

Lemma one_line_isoformat (d : datetime) : one_line (isoformat d) = true.
Proof.
  pose proof (all_iso_no_quotes _ (isoformat_chars d)) as Q.
  unfold one_line.
  rewrite (has_char_special CR _ eq_refl Q), (has_char_special LF _ eq_refl Q).
  reflexivity.
Qed.

Lemma one_line_append (a b : string) :
  one_line (a ++ b) = one_line a && one_line b.
Proof.
  unfold one_line. rewrite !has_char_append, !negb_orb.
  destruct (has_char CR a), (has_char LF a), (has_char CR b), (has_char LF b); reflexivity.
Qed.

Lemma one_line_comma (s : string) : one_line (String COMMA s) = one_line s.
Proof. reflexivity. Qed.

(** The row of a record without line breaks is one line. *)
Lemma row_text_one_line (r : ledger_row) :
  one_line_record (snd r) = true ->
  exists body, one_line body = true /\ row_text r = body ++ CRLF.
Proof.
  unfold one_line_record. intro H.
  apply andb_true_iff in H as [H Hc]. apply andb_true_iff in H as [Hu Ht].
  exists (csv_field (isoformat (fst r)) ++
          String COMMA (csv_field (csv_text (job_url (snd r))) ++
          String COMMA (csv_field (csv_text (job_title (snd r))) ++
          String COMMA (csv_field (csv_text (job_company (snd r))))))).
  split.
  - repeat first [rewrite one_line_append | rewrite one_line_comma].
    rewrite !one_line_csv_field; auto using one_line_isoformat.
  - rewrite <- (append_empty_r (row_text r)), row_text_append.
    unfold CRLF. repeat first [rewrite append_assoc | progress cbn [append]].
    reflexivity.
Qed.

Lemma readlines_append_row (contents : string) (r : ledger_row) :
  complete_lines contents = true ->
  one_line_record (snd r) = true ->
  List.length (readlines (contents ++ row_text r)) = S (List.length (readlines contents)) /\
  complete_lines (contents ++ row_text r) = true.
Proof.
  intros C O.
  destruct (row_text_one_line r O) as (body & B & E).
  unfold one_line in B. apply andb_true_iff in B as [B1 B2].
  apply negb_true_iff in B1, B2.
  split.
  - unfold readlines.
    rewrite <- (append_empty_r (row_text r)).
    rewrite universal_newlines_append by apply row_text_starts.
    rewrite append_empty_r, E, (universal_newlines_line body B1).
    destruct (complete_lines_read_upto _ contents (le_n _) C) as [-> | (p & ->)].
    + cbn [universal_newlines append]. now rewrite (split_lines_one body EmptyString B2).
    + rewrite append_assoc. cbn [append].
      rewrite split_lines_append, length_app, (split_lines_one body EmptyString B2).
      simpl. lia.
  - rewrite E. unfold CRLF.
    rewrite <- append_assoc. rewrite complete_lines_append. reflexivity.
Qed.

Lemma count_lines (self : JobBot) (w : world) :
  count self w
  = Return (match log_file w with
            | Some contents => List.length (readlines contents)
            | None => 0
            end).
Proof.
  unfold count, get_stats. now destruct (log_file w).
Qed.

(** X5. [get_stats] counts one application more for every row that
    [mark_as_applied] writes, when the file holds complete lines (or is
    empty or missing) and the URL, title and company of the records hold no
    line break. *)
Theorem count_grows_by_one_per_row
    (self : JobBot) (entries : list job_data) (w : world) :
  complete_log w = true ->
  forallb one_line_record entries = true ->
  exists n,
    count self w = Return n /\
    count self (fst (append_all self entries w)) = Return (n + List.length entries) /\
    complete_log (fst (append_all self entries w)) = true.
Proof.
  revert w. induction entries as [|job rest IH]; intros w C O.
  - rewrite count_lines. eexists. split; [reflexivity|].
    split; [|exact C]. cbn [append_all ret fst List.length]. rewrite count_lines.
    now rewrite Nat.add_0_r.
  - cbn [forallb] in O. apply andb_true_iff in O as [Oj O].
    rewrite append_all_cons.
    assert (complete_log (fst (mark_as_applied self job w)) = true /\
            count self (fst (mark_as_applied self job w))
            = Return (S (match log_file w with
                         | Some contents => List.length (readlines contents)
                         | None => 0
                         end))) as [C1 N1].
    { unfold complete_log in *. rewrite count_lines, log_file_mark_as_applied.
      destruct (log_file w) as [contents|]; cbn [append_text].
      - destruct (readlines_append_row contents (clock w (tick w), job) C Oj) as [L K].
        split; [exact K | now rewrite L].
      - destruct (readlines_append_row EmptyString (clock w (tick w), job) eq_refl Oj)
          as [L K].
        cbn [append] in L, K. split; [exact K | now rewrite L]. }
    destruct (IH _ C1 O) as (n & N & N' & C').
    rewrite N1 in N. injection N as <-.
    rewrite count_lines. eexists. split; [reflexivity|].
    split; [|exact C']. rewrite N'. f_equal. cbn [List.length]. lia.
Qed.

Lemma count_grows_by_one_per_row_witness :
  exists n,
    count sample_bot (world_at morning None) = Return n /\
    count sample_bot
      (fst (append_all sample_bot
              [listing "Python Developer" "https://remoteok.io/jobs/12";
               listing "Support, Tier 2" "https://remoteok.io/jobs/13"]
              (world_at morning None)))
    = Return (n + 2).
Proof.
  destruct (count_grows_by_one_per_row sample_bot
              [listing "Python Developer" "https://remoteok.io/jobs/12";
               listing "Support, Tier 2" "https://remoteok.io/jobs/13"]
              (world_at morning None) eq_refl eq_refl) as (n & A & B & _).
  exists n. split; [exact A | exact B].
Defined.

(** ** The mails of a cycle *)

Lemma after_applications_nil (self : JobBot) (w : world) :
  after_applications self [] w = w.
Proof.
  destruct w. unfold after_applications, handed, set_slept, set_outbox. simpl.
  now rewrite !app_nil_r.
Qed.

Lemma handed_app (self : JobBot) (a b : list mail) :
  handed self (a ++ b)%list = (handed self a ++ handed self b)%list.
Proof. apply filter_app. Qed.

Lemma after_applications_app (self : JobBot) (a b : list mail) (w : world) :
  after_applications self b (after_applications self a w)
  = after_applications self (a ++ b)%list w.
Proof.
  destruct w. unfold after_applications, set_slept, set_outbox. simpl.
  now rewrite handed_app, map_app, !app_assoc.
Qed.

Lemma smtp_accepts_after_applications (self : JobBot) (calls : list mail) (w : world) :
  smtp_accepts (after_applications self calls w) = smtp_accepts w.
Proof. reflexivity. Qed.

Lemma accepted_app (accepts : mail -> bool) (a b : list mail) :
  accepted accepts (a ++ b)%list = accepted accepts a + accepted accepts b.
Proof. unfold accepted. now rewrite filter_app, length_app. Qed.

(** The headers of a report are stored when the address of the bot is. *)
Lemma report_headers_stored (self : JobBot) (m : mail) :
  (forall job address, m <> Application job address) ->
  headers_stored self m = header_stored (email self).
Proof.
  intro N. unfold headers_stored. rewrite (report_subject_stored m N).
  destruct m as [job address|total|jobs applied_count new_total];
    [now destruct (N job address) | |];
    cbn [recipient_of andb]; now destruct (header_stored (email self)).
Qed.

(** The headers of an application are stored when the title holds no line
    boundary and the two addresses are stored, and only then. *)
Lemma application_headers_stored (self : JobBot) (job : job_data) (address : string) :
  address <> EmptyString ->
  headers_stored self (Application job address)
  = negb (has_line_boundary (fmt (job_title job))) &&
    header_stored (email self) && header_stored address.
Proof.
  intro N. unfold headers_stored. rewrite application_subject_stored.
  cbn [recipient_of]. apply String.eqb_neq in N. now rewrite N.
Qed.

Lemma process_job_run (self : JobBot) (job : job_data) (n : nat) (w : world) :
  process_job self job n w
  = (after_applications self (application job) w,
     Return (n + accepted (smtp_accepts w) (handed self (application job)))).
Proof.
  unfold process_job, email_present, apply_to_job, application.
  destruct (job_email job) as [address|].
  - destruct (negb (String.eqb address EmptyString)).
    + unfold bind. rewrite send_email_run. unfold after_applications, handed.
      cbn [filter]. destruct (headers_stored self (Application job address)).
      * unfold time_sleep, ret, accepted. cbn [Z.ltb Z.compare filter].
        destruct (smtp_accepts w (Application job address)) eqn:A.
        -- cbn [List.length]. rewrite Nat.add_1_r. destruct w. reflexivity.
        -- cbn [List.length]. rewrite Nat.add_0_r. destruct w. reflexivity.
      * unfold time_sleep, ret, accepted. cbn [Z.ltb Z.compare filter List.length].
        rewrite Nat.add_0_r. destruct w. unfold set_slept, set_outbox. simpl.
        now rewrite app_nil_r.
    + unfold ret. now rewrite after_applications_nil, Nat.add_0_r.
  - unfold ret. now rewrite after_applications_nil, Nat.add_0_r.
Qed.

Lemma process_jobs_run (self : JobBot) (jobs : list job_data) :
  forall n w,
    process_jobs self jobs n w
    = (after_applications self (applications jobs) w,
       Return (n + accepted (smtp_accepts w) (handed self (applications jobs)))).
Proof.
  induction jobs as [|job rest IH]; intros n w.
  - cbn [process_jobs applications flat_map]. unfold ret, accepted.
    now rewrite after_applications_nil, Nat.add_0_r.
  - cbn [process_jobs]. unfold bind. rewrite process_job_run, IH.
    rewrite after_applications_app, smtp_accepts_after_applications.
    cbn [applications flat_map]. now rewrite handed_app, accepted_app, Nat.add_assoc.
Qed.

Lemma applications_app (a b : list job_data) :
  applications (a ++ b)%list = (applications a ++ applications b)%list.
Proof. apply flat_map_app. Qed.

Lemma process_groups_run (self : JobBot) (groups : list (string * list job_data)) :
  forall n w,
    process_groups self groups n w
    = (after_applications self (applications (all_of groups)) w,
       Return (n + accepted (smtp_accepts w) (handed self (applications (all_of groups))))).
Proof.
  induction groups as [|[s g] rest IH]; intros n w.
  - cbn [process_groups]. unfold ret, all_of, accepted. cbn.
    now rewrite after_applications_nil, Nat.add_0_r.
  - cbn [process_groups]. unfold bind. rewrite process_jobs_run, IH.
    rewrite after_applications_app, smtp_accepts_after_applications.
    unfold all_of. cbn [map List.concat snd]. rewrite applications_app.
    now rewrite handed_app, accepted_app, Nat.add_assoc.
Qed.

Lemma get_stats_run (self : JobBot) (w : world) :
  exists w0 stats,
    get_stats self w = (w0, Return stats) /\
    count self w = Return (total_applications stats) /\
    outbox w0 = outbox w /\ slept w0 = slept w /\ log_file w0 = log_file w /\
    smtp_accepts w0 = smtp_accepts w.
Proof.
  unfold count, get_stats. destruct (log_file w) as [contents|] eqn:L.
  - eexists _, _. split; [reflexivity|]. simpl. rewrite L. auto.
  - eexists _, _. split; [reflexivity|]. simpl. auto.
Qed.

Lemma fetch_all_jobs_outbox (self : JobBot) (net : network) (w : world) :
  outbox (fst (fetch_all_jobs self net w)) = outbox w.
Proof.
  destruct (fetch_all_jobs_wwr_records self net w) as (w' & O & [(e & ->) | (jobs & -> & _)]);
    exact O.
Qed.

Lemma send_email_report (self : JobBot) (m : mail) (w : world) :
  exists w1 success,
    send_email self m w = (w1, Return success) /\
    outbox w1 = (outbox w ++ handed self [m])%list /\
    slept w1 = slept w /\ log_file w1 = log_file w.
Proof.
  rewrite send_email_run. unfold handed. cbn [filter].
  destruct (headers_stored self m).
  - eexists _, _. split; [reflexivity|]. auto.
  - eexists _, _. split; [reflexivity|]. rewrite app_nil_r. auto.
Qed.

Lemma run_job_search_after_fetch (self : JobBot) (net : network)
      (w w0 : world) (stats : stats) (w' : world) (jobs : list job_data) :
  get_stats self w = (w0, Return stats) ->
  fetch_all_jobs self net w0 = (w', Return jobs) ->
  let calls := applications (all_of (jobs_by_source jobs)) in
  exists w1,
    run_job_search self net w = (w1, Return tt) /\
    outbox w1
    = (outbox w' ++
       handed self (calls ++
                    [report self (total_applications stats) jobs (smtp_accepts w')]))%list /\
    slept w1 = (slept w' ++ map (fun _ => 1%Z) calls)%list /\
    log_file w1 = log_file w'.
Proof.
  intros G F calls. unfold run_job_search, bind. rewrite G, F.
  destruct jobs as [|job rest].
  - destruct (send_email_report self (NoNewJobs (total_applications stats)) w')
      as (w1 & success & -> & O & S & L).
    exists w1. split; [reflexivity|]. cbn. rewrite app_nil_r. auto.
  - rewrite process_groups_run. fold calls.
    match goal with
    | |- context [send_email self ?m ?w2] =>
        destruct (send_email_report self m w2) as (w1 & success & -> & O & S & L)
    end.
    exists w1. split; [reflexivity|]. rewrite O, S, L, handed_app.
    unfold report. fold calls. cbn [after_applications outbox slept log_file
      set_slept set_outbox smtp_accepts Nat.add].
    rewrite <- app_assoc. auto.
Qed.


(** ** What an aggregation leaves behind *)

(** A property of the world that writing a row keeps is kept by the three
    fetchers. *)
Lemma fetchers_keep (self : JobBot) (P : world -> Prop) :
  (forall job w, P w -> P (recorded job w)) ->
  forall w, P w ->
    (forall r, P (fst (fetch_remoteok_jobs self r w))) /\
    (forall r, P (fst (fetch_wwr_jobs self r w))) /\
    (forall r, P (fst (fetch_remotive_jobs self r w))).
Proof.
  intros K w W. repeat split; intro r.
  - apply (fetch_remoteok_jobs_returned self P (fun _ => True)); [|exact W].
    intros w0 jd W0 _ _ _. split; [now apply K | exact I].
  - apply (fetch_wwr_jobs_returned self P (fun _ => True)); [|exact W].
    intros w0 jd W0 _ _ _. split; [now apply K | exact I].
  - apply (fetch_remotive_jobs_returned self P (fun _ => True)); [|exact W].
    intros w0 jd W0 _ _ _. split; [now apply K | exact I].
Qed.

Lemma slept_recorded (job : job_data) (w : world) : slept (recorded job w) = slept w.
Proof. reflexivity. Qed.

Lemma slept_paced (self : JobBot) (w : world) :
  slept (paced self w)
  = (slept w ++ if (rate_limit_delay self <? 0)%Z then [] else [rate_limit_delay self])%list.
Proof.
  unfold paced, time_sleep. destruct (rate_limit_delay self <? 0)%Z; simpl;
    [now rewrite app_nil_r | reflexivity].
Qed.

(** X7. An aggregation pauses after each of the three sources, whatever
    they answer: [fetch_all_jobs] sleeps three times for
    [rate_limit_delay] seconds and not otherwise.  When the delay is
    negative, [time.sleep] refuses it each time and nothing is slept; the
    records of the sources are kept all the same. *)
Theorem fetch_all_jobs_pauses_after_every_source
    (self : JobBot) (net : network) (w : world) :
  slept (fst (fetch_all_jobs self net w)) = (slept w ++ pacing_sleeps self)%list /\
  exists wa wb wc from_a from_b from_c,
    fetch_remoteok_jobs self (remoteok_api net) w = (wa, Return from_a) /\
    fetch_wwr_jobs self (weworkremotely_page net) (paced self wa) = (wb, Return from_b) /\
    fetch_remotive_jobs self (remotive_api net) (paced self wb) = (wc, Return from_c) /\
    snd (fetch_all_jobs self net w) = remove_duplicates (from_a ++ from_b ++ from_c)%list.
Proof.
  destruct (fetch_all_jobs_runs_all self (fun _ => True) (fun _ => True))
    with (net := net) (w := w)
    as (wa & wb & wc & ja & jb & jc & Ea & Eb & Ec & E & _ & _); auto.
  split.
  - rewrite E. cbn [fst].
    assert (forall s w0, slept w0 = s ->
              (forall r, slept (fst (fetch_remoteok_jobs self r w0)) = s) /\
              (forall r, slept (fst (fetch_wwr_jobs self r w0)) = s) /\
              (forall r, slept (fst (fetch_remotive_jobs self r w0)) = s)) as K.
    { intros s w0 S. apply (fetchers_keep self (fun w' => slept w' = s)); [|exact S].
      intros job w1 S1. now rewrite slept_recorded. }
    destruct (K _ w eq_refl) as (Ka & _ & _).
    specialize (Ka (remoteok_api net)). rewrite Ea in Ka. cbn [fst] in Ka.
    destruct (K _ (paced self wa) eq_refl) as (_ & Kb & _).
    specialize (Kb (weworkremotely_page net)). rewrite Eb in Kb. cbn [fst] in Kb.
    destruct (K _ (paced self wb) eq_refl) as (_ & _ & Kc).
    specialize (Kc (remotive_api net)). rewrite Ec in Kc. cbn [fst] in Kc.
    rewrite slept_paced, Kc, slept_paced, Kb, slept_paced, Ka.
    unfold pacing_sleeps. destruct (rate_limit_delay self <? 0)%Z.
    + now rewrite !app_nil_r.
    + now rewrite <- !app_assoc.
  - exists wa, wb, wc, ja, jb, jc. rewrite E. auto.
Qed.

Lemma log_file_recorded_text (job : job_data) (w : world) :
  log_file (recorded job w)
  = append_text (row_text (clock w (S (tick w)), job)) (log_file w).
Proof. reflexivity. Qed.

(** X8. With the log file in place, as [__init__] leaves it,
    [fetch_all_jobs] returns whatever the three sources answer: failed
    requests, error statuses, bodies that are not JSON and entries of any
    shape.  The records it returns have a text as URL, no two of them the
    same, and one of the three source names; and the file is the file as it
    was with rows appended. *)
Theorem fetch_all_jobs_returns_with_log_in_place
    (self : JobBot) (net : network) (w : world) (contents : string) :
  log_file w = Some contents ->
  exists w' jobs suffix,
    fetch_all_jobs self net w = (w', Return jobs) /\
    log_file w' = Some (contents ++ suffix) /\
    Forall (fun job => is_str (job_url job) = true /\
                       known_source (job_source job) = true) jobs /\
    distinct_urls jobs.
Proof.
  intro L.
  destruct (fetch_all_jobs_runs_all self
              (fun w' => exists suffix, log_file w' = Some (contents ++ suffix))
              (fun job => is_str (job_url job) = true /\
                          known_source (job_source job) = true))
    with (net := net) (w := w)
    as (wa & wb & wc & ja & jb & jc & _ & _ & _ & E & (suffix & W) & F).
  - intros w0 jd (suffix & W0) S _ U. split.
    + rewrite log_file_recorded_text, W0. cbn [append_text].
      eexists. now rewrite append_assoc.
    + split; [|now rewrite S]. apply U. unfold log_exists. now rewrite W0.
  - intros w0 jd (suffix & W0) S _ U. split.
    + rewrite log_file_recorded_text, W0. cbn [append_text].
      eexists. now rewrite append_assoc.
    + split; [|now rewrite S]. apply U. unfold log_exists. now rewrite W0.
  - intros w0 jd (suffix & W0) S _ U. split.
    + rewrite log_file_recorded_text, W0. cbn [append_text].
      eexists. now rewrite append_assoc.
    + split; [exact U | now rewrite S].
  - intros w0 seconds (suffix & W0). exists suffix. now rewrite log_file_time_sleep.
  - exists EmptyString. now rewrite append_empty_r.
  - assert (forallb hashable_url (ja ++ jb ++ jc)%list = true) as H.
    { apply forallb_forall. rewrite Forall_forall in F. intros j I.
      apply is_str_hashable. now apply F. }
    exists (paced self wc), (first_seen_wins (ja ++ jb ++ jc)%list), suffix.
    split; [now rewrite E, remove_duplicates_spec|].
    split; [exact W|]. split; [|apply first_seen_wins_distinct].
    rewrite Forall_forall in *. intros j I. apply F. now apply first_seen_wins_in.
Qed.

Lemma fetch_all_jobs_returns_with_log_in_place_witness :
  exists w' jobs suffix,
    fetch_all_jobs sample_bot remoteok_down (world_at morning (Some EmptyString))
    = (w', Return jobs) /\
    log_file w' = Some (EmptyString ++ suffix).
Proof.
  destruct (fetch_all_jobs_returns_with_log_in_place sample_bot remoteok_down
              (world_at morning (Some EmptyString)) EmptyString eq_refl)
    as (w' & jobs & suffix & E & L & _).
  exists w', jobs, suffix. split; [exact E | exact L].
Defined.

(** ** The loop when no cycle fails *)

Lemma log_file_after_applications (self : JobBot) (calls : list mail) (w : world) :
  log_file (after_applications self calls w) = log_file w.
Proof. reflexivity. Qed.

Lemma run_job_search_with_log (self : JobBot) (net : network) (w : world) :
  log_exists w = true ->
  exists w1, run_job_search self net w = (w1, Return tt) /\ log_exists w1 = true.
Proof.
  intro L.
  destruct (get_stats_run self w) as (w0 & stats & G & _ & _ & _ & L0 & _).
  assert (log_exists w0 = true) as L0' by (unfold log_exists in *; now rewrite L0).
  destruct (fetch_all_jobs_with_log self net w0 L0')
    as (wa & wb & wc & ja & jb & jc & Ea & Eb & Ec & E & _).
  assert (log_exists (paced self wc) = true) as Lc.
  { pose proof (fetchers_keep self (fun w' => log_exists w' = true)
                  (fun job w' _ => log_exists_recorded job w')) as K.
    destruct (K w0 L0') as (Ka & _ & _).
    specialize (Ka (remoteok_api net)). rewrite Ea in Ka. cbn [fst] in Ka.
    apply (log_exists_time_sleep (rate_limit_delay self)) in Ka.
    destruct (K _ Ka) as (_ & Kb & _).
    specialize (Kb (weworkremotely_page net)). unfold paced in Eb. rewrite Eb in Kb.
    cbn [fst] in Kb. apply (log_exists_time_sleep (rate_limit_delay self)) in Kb.
    destruct (K _ Kb) as (_ & _ & Kc).
    specialize (Kc (remotive_api net)). unfold paced in Ec. rewrite Ec in Kc.
    cbn [fst] in Kc. now apply log_exists_time_sleep. }
  unfold run_job_search, bind. rewrite G, E.
  destruct (first_seen_wins (ja ++ jb ++ jc)%list) as [|job rest].
  - match goal with
    | |- context [send_email self ?m ?w2] =>
        destruct (send_email_report self m w2) as (w1 & success & -> & _ & _ & L1)
    end.
    exists w1. split; [reflexivity|]. unfold log_exists in *. now rewrite L1.
  - rewrite process_groups_run.
    match goal with
    | |- context [send_email self ?m ?w2] =>
        destruct (send_email_report self m w2) as (w1 & success & -> & _ & _ & L1)
    end.
    exists w1. split; [reflexivity|]. unfold log_exists in *. now rewrite L1.
Qed.

Lemma iteration_quiet (self : JobBot) (net : network) (w : world) :
  log_exists w = true ->
  (0 <= run_interval_hours self)%Z ->
  iteration self net None w = (quiet_iteration self net w, None) /\
  snd (run_job_search self net w) = Return tt /\
  log_exists (quiet_iteration self net w) = true.
Proof.
  intros L H. destruct (run_job_search_with_log self net w L) as (w1 & R & L1).
  unfold iteration, quiet_iteration. cbn [is_phase]. rewrite R. cbn [fst snd].
  unfold time_sleep.
  assert ((run_interval_hours self * 3600 <? 0)%Z = false) as -> by (apply Z.ltb_ge; lia).
  auto.
Qed.

Lemma run_continuous_quiet (self : JobBot) (nets : nat -> network) (n : nat) :
  forall i w,
    log_exists w = true ->
    (0 <= run_interval_hours self)%Z ->
    run_continuous n self nets never i w = (quiet_run n self nets i w, None) /\
    log_exists (quiet_run n self nets i w) = true.
Proof.
  induction n as [|n IH]; intros i w L H; [now split|].
  destruct (iteration_quiet self (nets i) w L H) as (E & _ & L').
  cbn [run_continuous quiet_run]. unfold never at 1. rewrite E.
  now apply IH.
Qed.

Lemma quiet_run_snoc (self : JobBot) (nets : nat -> network) (n : nat) :
  forall i w,
    quiet_run (S n) self nets i w
    = quiet_iteration self (nets (i + n)) (quiet_run n self nets i w).
Proof.
  induction n as [|n IH]; intros i w.
  - cbn [quiet_run]. now rewrite Nat.add_0_r.
  - change (quiet_run (S (S n)) self nets i w)
      with (quiet_run (S n) self nets (S i) (quiet_iteration self (nets i) w)).
    rewrite IH. cbn [quiet_run]. f_equal. f_equal. lia.
Qed.

(** X9. Once the log file is there and the interval is not negative, no
    cycle of [run_continuous] raises, whatever the sources answer and
    whatever the mail server does: as long as nobody interrupts, every
    iteration is a search that returns, followed by the sleep of
    [run_interval_hours] hours; the handler with its wait of five minutes
    is never entered. *)
Theorem run_continuous_takes_no_cooldown_with_log
    (self : JobBot) (nets : nat -> network) (n : nat) (w : world) :
  log_exists w = true ->
  (0 <= run_interval_hours self)%Z ->
  run_continuous n self nets never 0 w = (quiet_run n self nets 0 w, None) /\
  (forall k, k < n ->
     snd (run_job_search self (nets k) (quiet_run k self nets 0 w)) = Return tt /\
     slept (quiet_run (S k) self nets 0 w)
     = (slept (fst (run_job_search self (nets k) (quiet_run k self nets 0 w)))
        ++ [run_interval_hours self * 3600])%list%Z) /\
  log_exists (quiet_run n self nets 0 w) = true.
Proof.
  intros L H. destruct (run_continuous_quiet self nets n 0 w L H) as [E Ln].
  split; [exact E|]. split; [|exact Ln].
  intros k _.
  destruct (run_continuous_quiet self nets k 0 w L H) as [_ Lk].
  destruct (iteration_quiet self (nets k) _ Lk H) as (_ & R & _).
  split; [exact R|].
  rewrite quiet_run_snoc. cbn [Nat.add]. unfold quiet_iteration, time_sleep.
  assert ((run_interval_hours self * 3600 <? 0)%Z = false) as -> by (apply Z.ltb_ge; lia).
  reflexivity.
Qed.

Lemma run_continuous_takes_no_cooldown_with_log_witness :
  run_continuous 2 sample_bot (fun _ => remoteok_down) never 0
    (world_at morning (Some EmptyString))
  = (quiet_run 2 sample_bot (fun _ => remoteok_down) 0
       (world_at morning (Some EmptyString)), None).
Proof.
  refine (proj1 (run_continuous_takes_no_cooldown_with_log sample_bot
                   (fun _ => remoteok_down) 2 (world_at morning (Some EmptyString))
                   eq_refl _)).
  vm_compute. discriminate.
Defined.

(** X10. [main] does nothing at all when the CV file is missing or the
    password is the placeholder of the template.  Otherwise it creates the
    log file if need be, keeping an existing one as it is, and runs the
    loop, in which every cycle is followed by a sleep of twelve hours
    (43200 seconds) and none by the five minutes of the handler, as long as
    nobody interrupts. *)
Theorem main_checks_then_loops_without_cooldown
    (cv_exists : bool) (EMAIL APP_PASSWORD : string) (n : nat)
    (nets : nat -> network) (interrupts : nat -> option phase) (w : world) :
  let bot := main_config EMAIL APP_PASSWORD in
  (cv_exists = false ->
   main cv_exists EMAIL APP_PASSWORD n nets interrupts w = (w, CVNotFound)) /\
  (cv_exists = true -> APP_PASSWORD = "your_app_password_here" ->
   main cv_exists EMAIL APP_PASSWORD n nets interrupts w = (w, PasswordNotSet)) /\
  (cv_exists = true -> APP_PASSWORD <> "your_app_password_here" ->
   log_file (fst (touch_log w))
   = Some (match log_file w with Some contents => contents | None => EmptyString end) /\
   main cv_exists EMAIL APP_PASSWORD n nets never w
   = (quiet_run n bot nets 0 (fst (touch_log w)), Ran None) /\
   (forall net w0,
       slept (quiet_iteration bot net w0)
       = (slept (fst (run_job_search bot net w0)) ++ [43200])%list%Z)).
Proof.
  intro bot. split; [|split].
  - intros ->. reflexivity.
  - intros -> ->. reflexivity.
  - intros -> P.
    assert (log_exists (fst (touch_log w)) = true) as L.
    { unfold touch_log, log_exists. destruct (log_file w) eqn:F; simpl; [now rewrite F | reflexivity]. }
    split; [|split].
    + unfold touch_log. destruct (log_file w) eqn:F; simpl; [exact F | reflexivity].
    + unfold main. cbn [negb].
      apply String.eqb_neq in P. cbn [main_config app_password]. rewrite P.
      destruct (touch_log w) as [w0 o] eqn:T. cbn [fst] in L.
      destruct (run_continuous_quiet bot nets n 0 w0 L) as [E _]; [unfold bot; simpl; lia|].
      fold bot. now rewrite E.
    + intros net w0. reflexivity.
Qed.

(** ** Two cycles in a row *)

Lemma grown_refl (contents : string) : grown contents contents.
Proof. intros u H. exact H. Qed.

Lemma grown_trans (a b c : string) : grown a b -> grown b c -> grown a c.
Proof. intros H1 H2 u H. auto. Qed.

Lemma grown_row (contents : string) (r : ledger_row) :
  grown contents (contents ++ row_text r).
Proof. intros u H. now apply seen_append_row. Qed.

Lemma eligible_for_grown (contents contents' : string) (c : candidate) :
  grown contents contents' ->
  eligible_for (seen contents) c = false ->
  eligible_for (seen contents') c = false.
Proof.
  unfold eligible_for. intros G H.
  destruct (cand_matches c); [|reflexivity]. cbn [andb] in *.
  destruct (usable_url (cand_record c)) as [u|]; [|reflexivity].
  apply negb_false_iff in H. apply negb_false_iff. now apply G.
Qed.

Lemma settled_grown (contents contents' : string) (cs : list candidate) :
  grown contents contents' -> settled contents cs -> settled contents' cs.
Proof. intros G S c I. apply (eligible_for_grown contents); auto. Qed.

Lemma log_file_recorded_some (job : job_data) (w : world) (contents : string) :
  log_file w = Some contents ->
  log_file (recorded job w)
  = Some (contents ++ row_text (clock w (S (tick w)), job)).
Proof. intro L. now rewrite log_file_recorded_text, L. Qed.

(** A clean candidate that was emitted is not emitted again. *)
Lemma eligible_for_emitted (contents : string) (c : candidate) (d : datetime)
      (job : job_data) :
  clean_candidate c = true ->
  job_url job = job_url (cand_record c) ->
  eligible_for (seen (contents ++ row_text (d, job))) c = false.
Proof.
  unfold eligible_for, clean_candidate. intros C U.
  destruct (cand_matches c); [|reflexivity]. cbn [andb].
  destruct (usable_url (cand_record c)) as [u|] eqn:E; [|reflexivity].
  apply negb_false_iff. apply (seen_own_url u C).
  cbn [snd]. rewrite U. now apply usable_url_str.
Qed.

Section Rerun.

Variables (X : Type) (step : X -> list job_data -> M (list job_data)).
Variable loop : list X -> list job_data -> M (list job_data).
Hypothesis loop_nil : forall jl w, loop [] jl w = (w, Return jl).
Hypothesis loop_cons : forall x l jl w,
    loop (x :: l) jl w = bind (step x jl) (loop l) w.

Variable cand_of : X -> option candidate.
Variable good : X -> Prop.

Hypothesis step_seen : forall x jl w contents,
    good x -> log_file w = Some contents ->
    step x jl w = run_seen (cand_of x) contents jl w.

Hypothesis good_clean : forall x c,
    good x -> cand_of x = Some c -> clean_candidate c = true.

(** A loop over clean elements returns and leaves a file on which none of
    its candidates would be emitted. *)
Lemma loop_settles (l : list X) :
  forall jl w contents,
    Forall good l -> log_file w = Some contents ->
    exists w' jl' contents',
      loop l jl w = (w', Return jl') /\
      log_file w' = Some contents' /\
      grown contents contents' /\
      settled contents' (somes (map cand_of l)).
Proof.
  induction l as [|x l IH]; intros jl w contents G L.
  - rewrite loop_nil. exists w, jl, contents.
    repeat split; auto using grown_refl. intros c [].
  - inversion G as [|? ? Gx Gl]; subst.
    rewrite loop_cons. unfold bind. rewrite (step_seen x jl w contents Gx L).
    unfold run_seen. cbn [map somes].
    destruct (cand_of x) as [c|] eqn:Cx.
    + destruct (eligible_for (seen contents) c) eqn:E.
      * pose proof (log_file_recorded_some (dated c w) w contents L) as L1.
        destruct (IH (jl ++ [dated c w])%list _ _ Gl L1)
          as (w' & jl' & contents' & R & L' & G' & S').
        exists w', jl', contents'. split; [exact R|]. split; [exact L'|].
        split; [exact (grown_trans _ _ _ (grown_row _ _) G')|].
        intros c' [<- | I]; [|now apply S'].
        apply (eligible_for_grown _ _ _ G').
        apply eligible_for_emitted; [exact (good_clean x c Gx Cx) | reflexivity].
      * destruct (IH jl w contents Gl L) as (w' & jl' & contents' & R & L' & G' & S').
        exists w', jl', contents'. split; [exact R|]. split; [exact L'|].
        split; [exact G'|].
        intros c' [<- | I]; [|now apply S'].
        now apply (eligible_for_grown _ _ _ G').
    + destruct (IH jl w contents Gl L) as (w' & jl' & contents' & R & L' & G' & S').
      exists w', jl', contents'. auto.
Qed.

(** On such a file the loop changes nothing. *)
Lemma loop_idle (l : list X) :
  forall jl w contents,
    Forall good l -> log_file w = Some contents ->
    settled contents (somes (map cand_of l)) ->
    loop l jl w = (w, Return jl).
Proof.
  induction l as [|x l IH]; intros jl w contents G L S.
  - apply loop_nil.
  - inversion G as [|? ? Gx Gl]; subst.
    rewrite loop_cons. unfold bind. rewrite (step_seen x jl w contents Gx L).
    unfold run_seen. cbn [map somes] in S.
    destruct (cand_of x) as [c|] eqn:Cx.
    + rewrite (S c (or_introl eq_refl)).
      apply (IH jl w contents Gl L). intros c' I. apply S. now right.
    + now apply (IH jl w contents Gl L).
Qed.

End Rerun.

(** *** The three fetchers on clean answers *)

Lemma emit_if_new_seen (self : JobBot) (source company_key : string)
      (d : list (string * pyval)) (title : pyval) (job_list : list job_data)
      (w : world) (contents : string) :
  truthy title = false \/ is_str title = true ->
  text_or_missing "description" d = true ->
  text_or_missing "url" d = true ->
  log_file w = Some contents ->
  emit_if_new self source company_key (PDict d) title
    (field "description" (PStr EmptyString) d) job_list w
  = run_seen (Some (json_candidate self source company_key d title)) contents job_list w.
Proof.
  intros Ht Hd Hu L.
  set (c := json_candidate self source company_key d title).
  assert (truthy (field "description" (PStr EmptyString) d) = false \/
          is_str (field "description" (PStr EmptyString) d) = true) as Hd'
      by (apply field_text_or_missing; auto).
  destruct (matches_keywords_falsy_or_text self title Ht) as [b1 M1].
  destruct (matches_keywords_falsy_or_text self _ Hd') as [b2 M2].
  destruct (extract_email_falsy_or_text self _ Hd') as [a Ea].
  unfold run_seen, eligible_for.
  assert (cand_matches c = b1 || b2) as Mc.
  { unfold c, json_candidate. cbn [cand_matches]. rewrite M1, M2. now destruct b1. }
  assert (job_url (cand_record c) = field "url" (PStr EmptyString) d) as Uc by reflexivity.
  unfold emit_if_new, bind, lift, ret, py_get. rewrite M1, M2, Mc.
  assert (or_else (Return b1) (Return b2) = Return (b1 || b2)) as -> by now destruct b1.
  destruct (b1 || b2); [|reflexivity]. cbn [andb].
  fold (field "url" (PStr EmptyString) d).
  fold (field company_key (PStr "Unknown") d).
  fold (field "description" (PStr EmptyString) d).
  unfold usable_url. rewrite Uc.
  destruct (field_text "url" d Hu) as [E | [u E]]; rewrite E in *; [reflexivity|].
  unfold is_new_link, job_already_applied, bind, ret. rewrite truthy_str.
  destruct (nonempty u) eqn:N; [|reflexivity].
  rewrite L. fold (seen contents u).
  destruct (seen contents u); [reflexivity|]. cbn [negb].
  rewrite Ea.
  unfold now, mark_as_applied, bind. cbn [fst snd].
  assert (dated c w
          = {| job_title := title;
               job_company := field company_key (PStr "Unknown") d;
               job_url := PStr u;
               job_email := a;
               job_date := strftime_minutes (clock w (tick w));
               job_source := source |}) as D.
  { unfold dated, c, json_candidate.
    cbn [cand_record job_url job_title job_company job_email job_source].
    now rewrite Ea, E. }
  unfold recorded. rewrite D. reflexivity.
Qed.

Lemma wwr_entry_seen (self : JobBot) (li : li_tag) (job_list : list job_data)
      (w : world) (contents : string) :
  log_file w = Some contents ->
  wwr_entry self li job_list w = run_seen (wwr_candidate self li) contents job_list w.
Proof.
  intros L. unfold wwr_entry, wwr_candidate.
  destruct (li_href li) as [href|]; [|reflexivity].
  destruct (li_title li) as [title_text|]; [|reflexivity].
  destruct (matches_keywords_falsy_or_text self (PStr title_text) (or_intror eq_refl))
    as [b M].
  unfold run_seen, eligible_for, usable_url.
  cbn [cand_matches cand_record job_url].
  assert (nonempty (WWR_BASE ++ href) = true) as N by reflexivity.
  rewrite N.
  unfold bind, lift, ret. rewrite M. cbn [returned_true].
  destruct b; [|reflexivity]. cbn [andb].
  unfold job_already_applied. rewrite L. fold (seen contents (WWR_BASE ++ href)).
  destruct (seen contents (WWR_BASE ++ href)); reflexivity.
Qed.

Lemma clean_entry_dict (job : pyval) :
  clean_entry job = true ->
  exists d, job = PDict d /\ typed_entry (PDict d) = true /\
            match field "url" (PStr EmptyString) d with
            | PStr u => survives_round_trip u
            | _ => true
            end = true.
Proof.
  unfold clean_entry. intro H. apply andb_true_iff in H as [T U].
  destruct job; try discriminate. eauto.
Qed.

Lemma clean_json_candidate (self : JobBot) (source company_key : string)
      (d : list (string * pyval)) (title : pyval) :
  match field "url" (PStr EmptyString) d with
  | PStr u => survives_round_trip u
  | _ => true
  end = true ->
  clean_candidate (json_candidate self source company_key d title) = true.
Proof.
  unfold clean_candidate, usable_url, json_candidate. cbn [cand_record job_url].
  destruct (field "url" (PStr EmptyString) d); try reflexivity.
  intro H. now destruct (nonempty s).
Qed.

Lemma remoteok_entry_seen (self : JobBot) (job : pyval) (jl : list job_data)
      (w : world) (contents : string) :
  clean_entry job = true -> log_file w = Some contents ->
  remoteok_entry self job jl w = run_seen (remoteok_candidate self job) contents jl w.
Proof.
  intros C L. destruct (clean_entry_dict job C) as (d & -> & T & _).
  destruct (typed_entry_fields d T) as (Hp & Ht & Hd & Hu).
  rewrite remoteok_entry_dict. cbn [remoteok_candidate].
  apply emit_if_new_seen; auto using remoteok_title_text.
Qed.

Lemma remotive_entry_seen (self : JobBot) (job : pyval) (jl : list job_data)
      (w : world) (contents : string) :
  clean_entry job = true -> log_file w = Some contents ->
  remotive_entry self job jl w = run_seen (remotive_candidate self job) contents jl w.
Proof.
  intros C L. destruct (clean_entry_dict job C) as (d & -> & T & _).
  destruct (typed_entry_fields d T) as (Hp & Ht & Hd & Hu).
  rewrite remotive_entry_dict. cbn [remotive_candidate].
  apply emit_if_new_seen; auto.
  destruct (field_text "title" d Ht) as [E | [u E]]; rewrite E; auto.
Qed.

Lemma remoteok_candidate_clean (self : JobBot) (job : pyval) (c : candidate) :
  clean_entry job = true -> remoteok_candidate self job = Some c ->
  clean_candidate c = true.
Proof.
  intros C E. destruct (clean_entry_dict job C) as (d & -> & _ & U).
  injection E as <-. now apply clean_json_candidate.
Qed.

Lemma remotive_candidate_clean (self : JobBot) (job : pyval) (c : candidate) :
  clean_entry job = true -> remotive_candidate self job = Some c ->
  clean_candidate c = true.
Proof.
  intros C E. destruct (clean_entry_dict job C) as (d & -> & _ & U).
  injection E as <-. now apply clean_json_candidate.
Qed.

Lemma wwr_candidate_clean (self : JobBot) (li : li_tag) (c : candidate) :
  clean_item li = true -> wwr_candidate self li = Some c ->
  clean_candidate c = true.
Proof.
  unfold clean_item, wwr_candidate. intros C E.
  destruct (li_href li) as [href|]; [|discriminate].
  destruct (li_title li) as [title_text|]; [|discriminate].
  assert (job_url (cand_record c) = PStr (WWR_BASE ++ href)) as U
      by (injection E as <-; reflexivity).
  clear E. unfold clean_candidate, usable_url. rewrite U.
  assert (nonempty (WWR_BASE ++ href) = true) as -> by reflexivity.
  unfold survives_round_trip in *. rewrite !has_char_append.
  assert (has_char DQUOTE WWR_BASE = false) as -> by reflexivity.
  assert (has_char CR WWR_BASE = false) as -> by reflexivity.
  exact C.
Qed.

Lemma forallb_Forall {A : Type} (f : A -> bool) (l : list A) :
  forallb f l = true -> Forall (fun x => f x = true) l.
Proof. intro H. apply Forall_forall. now apply forallb_forall. Qed.

Lemma settled_app (contents : string) (a b : list candidate) :
  settled contents (a ++ b)%list <-> settled contents a /\ settled contents b.
Proof.
  unfold settled. split.
  - intro H. split; intros c I; apply H, in_or_app; auto.
  - intros [Ha Hb] c I. apply in_app_or in I as [I | I]; auto.
Qed.

Section CleanFetch.

Variable self : JobBot.

Lemma remoteok_loop_settles (jobs : list pyval) (jl : list job_data) (w : world)
      (contents : string) :
  forallb clean_entry jobs = true -> log_file w = Some contents ->
  exists w' jl' contents',
    remoteok_loop self jobs jl w = (w', Return jl') /\
    log_file w' = Some contents' /\ grown contents contents' /\
    settled contents' (somes (map (remoteok_candidate self) jobs)).
Proof.
  intros C L.
  apply (loop_settles pyval (remoteok_entry self) (remoteok_loop self))
    with (good := fun job => clean_entry job = true);
    try reflexivity; auto using forallb_Forall.
  - intros. now apply remoteok_entry_seen.
  - intros x c. apply remoteok_candidate_clean.
Qed.

Lemma remoteok_loop_idle (jobs : list pyval) (jl : list job_data) (w : world)
      (contents : string) :
  forallb clean_entry jobs = true -> log_file w = Some contents ->
  settled contents (somes (map (remoteok_candidate self) jobs)) ->
  remoteok_loop self jobs jl w = (w, Return jl).
Proof.
  intros C L S.
  apply (loop_idle pyval (remoteok_entry self) (remoteok_loop self))
    with (good := fun job => clean_entry job = true) (cand_of := remoteok_candidate self)
         (contents := contents);
    try reflexivity; auto using forallb_Forall.
  intros. now apply remoteok_entry_seen.
Qed.

Lemma remotive_loop_settles (jobs : list pyval) (jl : list job_data) (w : world)
      (contents : string) :
  forallb clean_entry jobs = true -> log_file w = Some contents ->
  exists w' jl' contents',
    remotive_loop self jobs jl w = (w', Return jl') /\
    log_file w' = Some contents' /\ grown contents contents' /\
    settled contents' (somes (map (remotive_candidate self) jobs)).
Proof.
  intros C L.
  apply (loop_settles pyval (remotive_entry self) (remotive_loop self))
    with (good := fun job => clean_entry job = true);
    try reflexivity; auto using forallb_Forall.
  - intros. now apply remotive_entry_seen.
  - intros x c. apply remotive_candidate_clean.
Qed.

Lemma remotive_loop_idle (jobs : list pyval) (jl : list job_data) (w : world)
      (contents : string) :
  forallb clean_entry jobs = true -> log_file w = Some contents ->
  settled contents (somes (map (remotive_candidate self) jobs)) ->
  remotive_loop self jobs jl w = (w, Return jl).
Proof.
  intros C L S.
  apply (loop_idle pyval (remotive_entry self) (remotive_loop self))
    with (good := fun job => clean_entry job = true) (cand_of := remotive_candidate self)
         (contents := contents);
    try reflexivity; auto using forallb_Forall.
  intros. now apply remotive_entry_seen.
Qed.

Lemma wwr_section_settles (lis : list li_tag) (jl : list job_data) (w : world)
      (contents : string) :
  forallb clean_item lis = true -> log_file w = Some contents ->
  exists w' jl' contents',
    wwr_section self lis jl w = (w', Return jl') /\
    log_file w' = Some contents' /\ grown contents contents' /\
    settled contents' (somes (map (wwr_candidate self) lis)).
Proof.
  intros C L.
  apply (loop_settles li_tag (wwr_entry self) (wwr_section self))
    with (good := fun li => clean_item li = true);
    try reflexivity; auto using forallb_Forall.
  - intros. now apply wwr_entry_seen.
  - intros x c. apply wwr_candidate_clean.
Qed.

Lemma wwr_section_idle (lis : list li_tag) (jl : list job_data) (w : world)
      (contents : string) :
  log_file w = Some contents ->
  settled contents (somes (map (wwr_candidate self) lis)) ->
  wwr_section self lis jl w = (w, Return jl).
Proof.
  intros L S.
  apply (loop_idle li_tag (wwr_entry self) (wwr_section self))
    with (good := fun _ => True) (cand_of := wwr_candidate self) (contents := contents);
    try reflexivity; auto.
  - intros. now apply wwr_entry_seen.
  - apply Forall_forall. auto.
Qed.

Lemma wwr_loop_settles (page : soup) :
  forall jl w contents,
    forallb (forallb clean_item) page = true -> log_file w = Some contents ->
    exists w' jl' contents',
      wwr_loop self page jl w = (w', Return jl') /\
      log_file w' = Some contents' /\ grown contents contents' /\
      settled contents' (somes (map (wwr_candidate self) (List.concat page))).
Proof.
  induction page as [|section page IH]; intros jl w contents C L.
  - exists w, jl, contents. repeat split; auto using grown_refl. intros c [].
  - cbn [forallb] in C. apply andb_true_iff in C as [Cs Cp].
    destruct (wwr_section_settles section jl w contents Cs L)
      as (w1 & jl1 & c1 & R1 & L1 & G1 & S1).
    destruct (IH jl1 w1 c1 Cp L1) as (w2 & jl2 & c2 & R2 & L2 & G2 & S2).
    exists w2, jl2, c2. cbn [wwr_loop]. unfold bind. rewrite R1.
    split; [exact R2|]. split; [exact L2|].
    split; [exact (grown_trans _ _ _ G1 G2)|].
    cbn [List.concat]. rewrite map_app, somes_app. apply settled_app.
    split; [exact (settled_grown _ _ _ G2 S1) | exact S2].
Qed.

Lemma wwr_loop_idle (page : soup) :
  forall jl w contents,
    log_file w = Some contents ->
    settled contents (somes (map (wwr_candidate self) (List.concat page))) ->
    wwr_loop self page jl w = (w, Return jl).
Proof.
  induction page as [|section page IH]; intros jl w contents L S; [reflexivity|].
  cbn [List.concat] in S. rewrite map_app, somes_app in S.
  apply settled_app in S as [S1 S2].
  cbn [wwr_loop]. unfold bind. rewrite (wwr_section_idle section jl w contents L S1).
  now apply (IH jl w contents).
Qed.

(** Each fetcher, on a clean answer, returns and leaves a file on which it
    would emit nothing; on such a file it returns nothing and changes
    nothing. *)
Lemma fetch_remoteok_jobs_settles (r : fetched (option pyval)) (w : world)
      (contents : string) :
  forallb clean_entry (remoteok_entries r) = true -> log_file w = Some contents ->
  exists w' jobs contents',
    fetch_remoteok_jobs self r w = (w', Return jobs) /\
    log_file w' = Some contents' /\ grown contents contents' /\
    settled contents' (somes (map (remoteok_candidate self) (remoteok_entries r))).
Proof.
  intros C L.
  destruct (remoteok_fetch_failed r) eqn:F.
  - exists w, [], contents. rewrite (fetch_remoteok_jobs_failed self r w F).
    repeat split; auto using grown_refl.
    destruct r as [e|s|[[]|]]; try discriminate; intros c [].
  - destruct r as [e|s|[[]|]]; try discriminate.
    cbn [remoteok_entries] in *.
    destruct (remoteok_loop_settles (List.tl l) [] w contents C L)
      as (w' & jl' & c' & R & L' & G' & S').
    exists w', jl', c'. unfold fetch_remoteok_jobs, try_except, bind. cbn.
    unfold bind. cbn. rewrite R. auto.
Qed.

Lemma fetch_remoteok_jobs_idle (r : fetched (option pyval)) (w : world)
      (contents : string) :
  forallb clean_entry (remoteok_entries r) = true -> log_file w = Some contents ->
  settled contents (somes (map (remoteok_candidate self) (remoteok_entries r))) ->
  fetch_remoteok_jobs self r w = (w, Return []).
Proof.
  intros C L S.
  destruct (remoteok_fetch_failed r) eqn:F.
  - now apply fetch_remoteok_jobs_failed.
  - destruct r as [e|s|[[]|]]; try discriminate.
    cbn [remoteok_entries] in *.
    unfold fetch_remoteok_jobs, try_except, bind. cbn. unfold bind. cbn.
    now rewrite (remoteok_loop_idle (List.tl l) [] w contents C L S).
Qed.

Lemma fetch_wwr_jobs_settles (r : fetched soup) (w : world) (contents : string) :
  forallb (forallb clean_item) (page_sections r) = true -> log_file w = Some contents ->
  exists w' jobs contents',
    fetch_wwr_jobs self r w = (w', Return jobs) /\
    log_file w' = Some contents' /\ grown contents contents' /\
    settled contents'
      (somes (map (wwr_candidate self) (List.concat (page_sections r)))).
Proof.
  intros C L. destruct r as [e|s|page].
  - exists w, [], contents. rewrite fetch_wwr_jobs_failed by reflexivity.
    repeat split; auto using grown_refl. intros c [].
  - exists w, [], contents. rewrite fetch_wwr_jobs_failed by reflexivity.
    repeat split; auto using grown_refl. intros c [].
  - cbn [page_sections] in *.
    destruct (wwr_loop_settles page [] w contents C L) as (w' & jl' & c' & R & L' & G' & S').
    exists w', jl', c'. unfold fetch_wwr_jobs, try_except, bind. cbn.
    rewrite R. auto.
Qed.

Lemma fetch_wwr_jobs_idle (r : fetched soup) (w : world) (contents : string) :
  log_file w = Some contents ->
  settled contents (somes (map (wwr_candidate self) (List.concat (page_sections r)))) ->
  fetch_wwr_jobs self r w = (w, Return []).
Proof.
  intros L S. destruct r as [e|s|page]; try (now apply fetch_wwr_jobs_failed).
  cbn [page_sections] in *.
  unfold fetch_wwr_jobs, try_except, bind. cbn.
  now rewrite (wwr_loop_idle page [] w contents L S).
Qed.

Lemma fetch_remotive_jobs_body (d : list (string * pyval)) (w : world) :
  remotive_fetch_failed (Body (Some (PDict d))) = false ->
  fetch_remotive_jobs self (Body (Some (PDict d))) w
  = try_except (remotive_loop self (remotive_entries (Body (Some (PDict d)))) [])
      (fun _ => ret []) w.
Proof.
  unfold remotive_fetch_failed, remotive_entries, fetch_remotive_jobs, try_except, bind.
  cbn. destruct (assoc "jobs" d) as [[]|]; try discriminate; intros _; cbn;
    [|reflexivity].
  destruct (remotive_loop self l [] w) as [w' [[]|jl]]; reflexivity.
Qed.

Lemma fetch_remotive_jobs_settles (r : fetched (option pyval)) (w : world)
      (contents : string) :
  forallb clean_entry (remotive_entries r) = true -> log_file w = Some contents ->
  exists w' jobs contents',
    fetch_remotive_jobs self r w = (w', Return jobs) /\
    log_file w' = Some contents' /\ grown contents contents' /\
    settled contents' (somes (map (remotive_candidate self) (remotive_entries r))).
Proof.
  intros C L.
  destruct (remotive_fetch_failed r) eqn:F.
  - exists w, [], contents. rewrite (fetch_remotive_jobs_failed self r w F).
    repeat split; auto using grown_refl.
    destruct r as [e|s|[[]|]]; try (intros c []).
    cbn in *. destruct (assoc "jobs" items) as [[]|]; try discriminate; intros c [].
  - destruct r as [e|s|[[]|]]; try discriminate.
    rewrite (fetch_remotive_jobs_body items w F).
    destruct (remotive_loop_settles _ [] w contents C L) as (w' & jl' & c' & R & L' & G' & S').
    exists w', jl', c'. unfold try_except. rewrite R. auto.
Qed.

Lemma fetch_remotive_jobs_idle (r : fetched (option pyval)) (w : world)
      (contents : string) :
  forallb clean_entry (remotive_entries r) = true -> log_file w = Some contents ->
  settled contents (somes (map (remotive_candidate self) (remotive_entries r))) ->
  fetch_remotive_jobs self r w = (w, Return []).
Proof.
  intros C L S.
  destruct (remotive_fetch_failed r) eqn:F.
  - now apply fetch_remotive_jobs_failed.
  - destruct r as [e|s|[[]|]]; try discriminate.
    rewrite (fetch_remotive_jobs_body items w F).
    unfold try_except. now rewrite (remotive_loop_idle _ [] w contents C L S).
Qed.

End CleanFetch.

Lemma fetch_all_jobs_settles (self : JobBot) (net : network) (w : world)
      (contents : string) :
  clean_answers net = true -> log_file w = Some contents ->
  exists w' jobs contents',
    fetch_all_jobs self net w = (w', Return jobs) /\
    log_file w' = Some contents' /\ grown contents contents' /\
    settled contents' (candidates_of self net).
Proof.
  unfold clean_answers. intros C L.
  apply andb_true_iff in C as [C C3]. apply andb_true_iff in C as [C1 C2].
  assert (log_exists w = true) as Lw by (unfold log_exists; now rewrite L).
  destruct (fetch_all_jobs_with_log self net w Lw)
    as (wa & wb & wc & ja & jb & jc & Ea & Eb & Ec & E & _).
  destruct (fetch_remoteok_jobs_settles self _ w contents C1 L)
    as (w1 & j1 & c1 & R1 & L1 & G1 & S1).
  rewrite Ea in R1. injection R1 as <- <-.
  rewrite <- (log_file_paced self wa) in L1.
  destruct (fetch_wwr_jobs_settles self _ _ c1 C2 L1)
    as (w2 & j2 & c2 & R2 & L2 & G2 & S2).
  rewrite Eb in R2. injection R2 as <- <-.
  rewrite <- (log_file_paced self wb) in L2.
  destruct (fetch_remotive_jobs_settles self _ _ c2 C3 L2)
    as (w3 & j3 & c3 & R3 & L3 & G3 & S3).
  rewrite Ec in R3. injection R3 as <- <-.
  rewrite <- (log_file_paced self wc) in L3.
  exists (paced self wc), (first_seen_wins (ja ++ jb ++ jc)%list), c3.
  split; [exact E|]. split; [exact L3|].
  split; [exact (grown_trans _ _ _ G1 (grown_trans _ _ _ G2 G3))|].
  unfold candidates_of. apply settled_app. split.
  - exact (settled_grown _ _ _ (grown_trans _ _ _ G2 G3) S1).
  - apply settled_app. split; [exact (settled_grown _ _ _ G3 S2) | exact S3].
Qed.

Lemma fetch_all_jobs_idle (self : JobBot) (net : network) (w : world)
      (contents : string) :
  clean_answers net = true -> log_file w = Some contents ->
  settled contents (candidates_of self net) ->
  fetch_all_jobs self net w = (paced self (paced self (paced self w)), Return []).
Proof.
  unfold clean_answers, candidates_of. intros C L S.
  apply andb_true_iff in C as [C C3]. apply andb_true_iff in C as [C1 C2].
  apply settled_app in S as [S1 S]. apply settled_app in S as [S2 S3].
  unfold fetch_all_jobs, bind.
  rewrite (fetch_from_returns self _ [] [] w w
             (fetch_remoteok_jobs_idle self _ w contents C1 L S1)).
  rewrite <- (log_file_paced self w) in L.
  rewrite (fetch_from_returns self _ _ [] _ _
             (fetch_wwr_jobs_idle self _ _ contents L S2)).
  rewrite <- (log_file_paced self (paced self w)) in L.
  rewrite (fetch_from_returns self _ _ [] _ _
             (fetch_remotive_jobs_idle self _ _ contents C3 L S3)).
  reflexivity.
Qed.



(** ** The texts of the messages *)

Lemma substring_of_refl (t : string) : substring_of t t.
Proof. exists EmptyString, EmptyString. now rewrite append_empty_r. Qed.

Lemma substring_of_trans (a b c : string) :
  substring_of a b -> substring_of b c -> substring_of a c.
Proof.
  intros (p & q & ->) (p' & q' & ->). exists (p' ++ p), (q ++ q').
  now rewrite !append_assoc.
Qed.

Lemma substring_of_skip (t a b : string) : substring_of t b -> substring_of t (a ++ b).
Proof. intros (p & q & ->). exists (a ++ p), q. now rewrite !append_assoc. Qed.

Lemma substring_of_keep (t a b : string) : substring_of t a -> substring_of t (a ++ b).
Proof. intros (p & q & ->). exists p, (q ++ b). now rewrite !append_assoc. Qed.

Lemma substring_of_concat {A : Type} (f : A -> string) (l : list A) (x : A) :
  In x l -> substring_of (f x) (String.concat EmptyString (map f l)).
Proof.
  induction l as [|y l IH]; [intros []|].
  assert (String.concat EmptyString (map f (y :: l))
          = f y ++ String.concat EmptyString (map f l)) as ->.
  { destruct l; [now rewrite append_empty_r | reflexivity]. }
  intros [-> | I].
  - apply substring_of_keep, substring_of_refl.
  - apply substring_of_skip. now apply IH.
Qed.

(** The group of the summary a record is listed in. *)
Lemma own_group (jobs : list job_data) (job : job_data) :
  In job jobs ->
  In (job_source job, filter (from_source (job_source job)) jobs) (jobs_by_source jobs) /\
  In job (filter (from_source (job_source job)) jobs).
Proof.
  intro I. rewrite jobs_by_source_grouped. unfold grouped. split.
  - apply (in_map (fun s => (s, filter (from_source s) jobs))).
    apply sources_in_order_In. now exists job.
  - apply filter_In. split; [exact I | apply String.eqb_refl].
Qed.

(** X12. The summary that ends a cycle goes to the owner with the CV
    path as attachment, says how many jobs were found, and lists every
    found record: under the heading of the record's source, which gives the
    number of records of that source, stand its title and company, its URL,
    and its address when it has one. *)
Theorem summary_lists_every_job
    (self : JobBot) (jobs : list job_data) (applied_count new_total : nat)
    (job : job_data) :
  In job jobs ->
  let message := message_of self (Summary jobs applied_count new_total) in
  msg_to message = email self /\
  msg_attachment message = Some (cv_path self) /\
  substring_of (fmt_len jobs ++ " New Jobs Found") (msg_subject message) /\
  substring_of
    ("--- " ++ job_source job ++ " (" ++
     fmt_len (filter (from_source (job_source job)) jobs) ++ " jobs) ---" ++ NL)
    (msg_body message) /\
  substring_of (job_lines job) (msg_body message) /\
  substring_of
    (BULLET ++ " " ++ fmt (job_title job) ++ " at " ++ fmt (job_company job) ++ NL ++
     "  " ++ fmt (job_url job) ++ NL)
    (job_lines job) /\
  (forall address,
      job_email job = Some address -> address <> EmptyString ->
      substring_of ("  " ++ ENVELOPE ++ " " ++ address ++ NL) (job_lines job)).
Proof.
  intros I message. destruct (own_group jobs job I) as [G J].
  assert (substring_of
            (group_lines (job_source job, filter (from_source (job_source job)) jobs))
            (msg_body message)) as B.
  { unfold message, message_of, msg_body, summary_body.
    do 5 apply substring_of_skip. apply substring_of_keep.
    now apply (substring_of_concat group_lines). }
  split; [reflexivity|]. split; [reflexivity|]. split.
  { unfold message, message_of, msg_subject, subject_of. do 2 apply substring_of_skip.
    apply substring_of_refl. }
  split; [|split; [|split]].
  - apply (substring_of_trans _ (group_lines (job_source job,
                                   filter (from_source (job_source job)) jobs))); [|exact B].
    unfold group_lines. cbn [fst snd].
    exists EmptyString. eexists.
    repeat first [rewrite append_assoc | progress cbn [append]]. reflexivity.
  - apply (substring_of_trans _ (group_lines (job_source job,
                                   filter (from_source (job_source job)) jobs))); [|exact B].
    unfold group_lines. cbn [fst snd]. do 6 apply substring_of_skip.
    apply substring_of_keep. now apply (substring_of_concat job_lines).
  - unfold job_lines.
    exists EmptyString. eexists.
    repeat first [rewrite append_assoc | progress cbn [append]]. reflexivity.
  - intros address E N. unfold job_lines. rewrite E.
    apply String.eqb_neq in N. rewrite N. cbn [negb].
    do 9 apply substring_of_skip. apply substring_of_keep.
    apply substring_of_refl.
Qed.

Lemma summary_lists_every_job_witness :
  let jobs := [listing "Python Developer" "https://remoteok.io/jobs/12"] in
  substring_of (job_lines (listing "Python Developer" "https://remoteok.io/jobs/12"))
    (msg_body (message_of sample_bot (Summary jobs 0 0))).
Proof.
  exact (proj1 (proj2 (proj2 (proj2 (proj2
           (summary_lists_every_job sample_bot
              [listing "Python Developer" "https://remoteok.io/jobs/12"] 0 0
              (listing "Python Developer" "https://remoteok.io/jobs/12")
              (or_introl eq_refl))))))).
Defined.

Lemma company_line_unknown (company : pyval) :
  truthy company = false \/ company = PStr "Unknown" ->
  company_line company = EmptyString.
Proof.
  unfold company_line. intros [T | ->]; [now rewrite T | reflexivity].
Qed.

Lemma starts_step (a t r : string) :
  (exists q, r = t ++ q) -> exists q, a ++ r = (a ++ t) ++ q.
Proof. intros (q & ->). exists q. now rewrite append_assoc. Qed.

Lemma starts_substring (t r : string) : (exists q, r = t ++ q) -> substring_of t r.
Proof. intros (q & ->). now exists EmptyString, q. Qed.



(** ** The records of the listing page *)

Lemma wwr_entry_shape (self : JobBot) (li : li_tag) (jl : list job_data) (w : world) :
  wwr_entry self li jl w = (w, Return jl) \/
  exists job,
    wwr_entry self li jl w = (recorded job w, Return (jl ++ [job])%list) /\
    wwr_record_of self li job.
Proof.
  unfold wwr_entry, wwr_record_of.
  destruct (li_href li) as [href|] eqn:H; [|now left].
  destruct (li_title li) as [title_text|] eqn:T; [|now left].
  destruct (matches_keywords_falsy_or_text self (PStr title_text) (or_intror eq_refl))
    as [b M].
  unfold bind, lift, ret. rewrite M.
  destruct b; [|now left].
  destruct (job_already_applied self (PStr (WWR_BASE ++ href)) w) as [w1 [e|applied]] eqn:A.
  - unfold job_already_applied in A. destruct (log_file w); discriminate.
  - assert (w1 = w) as ->.
    { unfold job_already_applied in A. destruct (log_file w); now injection A. }
    destruct applied; [now left|]. right. cbn [negb].
    eexists. split; [reflexivity|].
    exists href, title_text. cbn. repeat split; try reflexivity. exact M.
Qed.

Lemma wwr_section_shape (self : JobBot) (lis : list li_tag) :
  forall (P : job_data -> Prop) jl w w' jl',
    (forall li job, In li lis -> wwr_record_of self li job -> P job) ->
    Forall P jl ->
    wwr_section self lis jl w = (w', Return jl') ->
    Forall P jl'.
Proof.
  induction lis as [|li lis IH]; intros P jl w w' jl' K F R.
  - injection R as <- <-. exact F.
  - cbn [wwr_section] in R. unfold bind in R.
    destruct (wwr_entry_shape self li jl w) as [E | (job & E & S)]; rewrite E in R.
    + apply (IH P jl w w' jl'); auto. intros li' job' I. apply K. now right.
    + apply (IH P _ _ w' jl') in R; auto.
      * intros li' job' I. apply K. now right.
      * apply Forall_app. split; [exact F|]. constructor; [|constructor].
        apply (K li job); [now left | exact S].
Qed.

Lemma wwr_loop_shape (self : JobBot) (page : soup) :
  forall (P : job_data -> Prop) jl w w' jl',
    (forall li job, In li (List.concat page) -> wwr_record_of self li job -> P job) ->
    Forall P jl ->
    wwr_loop self page jl w = (w', Return jl') ->
    Forall P jl'.
Proof.
  induction page as [|section page IH]; intros P jl w w' jl' K F R.
  - injection R as <- <-. exact F.
  - cbn [wwr_loop] in R. unfold bind in R.
    destruct (wwr_section self section jl w) as [w1 [e|jl1]] eqn:S; [discriminate|].
    apply (IH P jl1 w1 w' jl'); auto.
    + intros li job I. apply K. cbn [List.concat]. apply in_or_app. now right.
    + apply (wwr_section_shape self section P jl w w1 jl1); auto.
      intros li job I. apply K. cbn [List.concat]. apply in_or_app. now left.
Qed.

Lemma lstrip_starts (s : string) : starts_outside is_space (lstrip s) = true.
Proof.
  induction s as [|c s IH]; [reflexivity|]. cbn [lstrip].
  destruct (is_space c) eqn:C; [exact IH|]. cbn [starts_outside]. now rewrite C.
Qed.

Lemma rstrip_starts (s : string) :
  starts_outside is_space s = true -> starts_outside is_space (rstrip s) = true.
Proof.
  destruct s as [|c s]; [reflexivity|]. cbn [starts_outside rstrip].
  intro C. destruct (rstrip s).
  - apply negb_true_iff in C. rewrite C. cbn [starts_outside]. now rewrite C.
  - exact C.
Qed.

Lemma rstrip_ends (s : string) : ends_outside is_space (rstrip s) = true.
Proof.
  induction s as [|c s IH]; [reflexivity|]. cbn [rstrip].
  destruct (rstrip s) as [|c' r] eqn:R.
  - destruct (is_space c) eqn:C; [reflexivity|]. cbn [ends_outside]. now rewrite C.
  - exact IH.
Qed.

(** X14. Every record [fetch_wwr_jobs] returns is made of a list item of
    one of the job sections of the page that has a link and a title
    element whose text matches a keyword: its URL is the site's address
    followed by the link, its title and company are the texts of the
    item without white space around them, the company [Unknown] when the
    item names none; it has no address.  Nothing else is returned, and the
    fetcher returns for every answer. *)
Theorem fetch_wwr_jobs_records_come_from_matching_items
    (self : JobBot) (r : fetched soup) (w : world) :
  (exists w' jobs,
      fetch_wwr_jobs self r w = (w', Return jobs) /\
      Forall (fun job =>
                exists li,
                  In li (List.concat (page_sections r)) /\ wwr_record_of self li job)
        jobs) /\
  (forall text,
      starts_outside is_space (strip text) = true /\
      ends_outside is_space (strip text) = true).
Proof.
  split.
  - destruct r as [e|s|page].
    + exists w, []. rewrite fetch_wwr_jobs_failed by reflexivity. split; [reflexivity|constructor].
    + exists w, []. rewrite fetch_wwr_jobs_failed by reflexivity. split; [reflexivity|constructor].
    + cbn [page_sections].
      destruct (fetchers_never_raise self w) as (_ & R & _).
      destruct (R (Body page)) as (w' & jobs & E). exists w', jobs. split; [exact E|].
      unfold fetch_wwr_jobs, try_except, bind in E. cbn in E.
      destruct (wwr_loop self page [] w) as [w1 [e|jl]] eqn:L.
      * destruct e; injection E as <- <-; constructor.
      * injection E as <- <-.
        apply (wwr_loop_shape self page _ [] w w1 jl); [|constructor|exact L].
        intros li job I S. now exists li.
  - intro text. unfold strip. split.
    + apply rstrip_starts, lstrip_starts.
    + apply rstrip_ends.
Qed.

(** ** The records of the two APIs *)

Lemma emit_if_new_shape (self : JobBot) (source company_key : string)
      (d : list (string * pyval)) (title : pyval) (jl : list job_data) (w : world) :
  let step := emit_if_new self source company_key (PDict d) title
                (field "description" (PStr EmptyString) d) jl w in
  (exists e, step = (w, Raise e)) \/
  step = (w, Return jl) \/
  exists job,
    step = (recorded job w, Return (jl ++ [job])%list) /\
    json_record_of self source company_key d title job.
Proof.
  unfold emit_if_new, bind, lift, ret, py_get.
  fold (field "url" (PStr EmptyString) d).
  fold (field company_key (PStr "Unknown") d).
  destruct (or_else (matches_keywords self title)
              (matches_keywords self (field "description" (PStr EmptyString) d)))
    as [e|[|]] eqn:M; [eauto| |auto].
  destruct (is_new_link_cases self (field "url" (PStr EmptyString) d) w)
    as [[e ->] | [-> | (-> & T & _)]]; [eauto|auto|].
  destruct (extract_email self (field "description" (PStr EmptyString) d))
    as [e|a] eqn:E; [eauto|].
  right. right. eexists. split; [reflexivity|].
  unfold json_record_of. cbn. rewrite M, E. repeat split; auto.
Qed.

Lemma remoteok_entry_shape (self : JobBot) (entry : pyval) (jl : list job_data)
      (w : world) :
  (exists e, remoteok_entry self entry jl w = (w, Raise e)) \/
  remoteok_entry self entry jl w = (w, Return jl) \/
  exists job,
    remoteok_entry self entry jl w = (recorded job w, Return (jl ++ [job])%list) /\
    remoteok_record_of self entry job.
Proof.
  destruct (is_dict entry) eqn:D.
  - destruct entry; try discriminate. rewrite remoteok_entry_dict.
    destruct (emit_if_new_shape self "RemoteOK" "company" items (remoteok_title items) jl w)
      as [H | [H | (job & H & R)]]; auto.
    right. right. exists job. split; [exact H|]. now exists items.
  - left. now apply remoteok_entry_not_dict.
Qed.

Lemma remotive_entry_shape (self : JobBot) (entry : pyval) (jl : list job_data)
      (w : world) :
  (exists e, remotive_entry self entry jl w = (w, Raise e)) \/
  remotive_entry self entry jl w = (w, Return jl) \/
  exists job,
    remotive_entry self entry jl w = (recorded job w, Return (jl ++ [job])%list) /\
    remotive_record_of self entry job.
Proof.
  destruct (is_dict entry) eqn:D.
  - destruct entry; try discriminate. rewrite remotive_entry_dict.
    destruct (emit_if_new_shape self "Remotive" "company_name" items
                (field "title" (PStr EmptyString) items) jl w)
      as [H | [H | (job & H & R)]]; auto.
    right. right. exists job. split; [exact H|]. now exists items.
  - left. now apply remotive_entry_not_dict.
Qed.

Lemma recorded_all_snoc (jobs : list job_data) (job : job_data) (w : world) :
  recorded_all (jobs ++ [job]) w = recorded job (recorded_all jobs w).
Proof. unfold recorded_all. now rewrite fold_left_app. Qed.

Lemma recorded_all_cons (jobs : list job_data) (job : job_data) (w : world) :
  recorded_all (job :: jobs) w = recorded_all jobs (recorded job w).
Proof. reflexivity. Qed.

Section LoopShape.

Variables (X : Type) (step : X -> list job_data -> M (list job_data)).
Variable loop : list X -> list job_data -> M (list job_data).
Hypothesis loop_nil : forall jl w, loop [] jl w = (w, Return jl).
Hypothesis loop_cons : forall x l jl w,
    loop (x :: l) jl w = bind (step x jl) (loop l) w.

Variable made : X -> job_data -> Prop.

Hypothesis step_shape : forall x jl w,
    (exists e, step x jl w = (w, Raise e)) \/
    step x jl w = (w, Return jl) \/
    exists job,
      step x jl w = (recorded job w, Return (jl ++ [job])%list) /\ made x job.

(** A loop writes the rows of the records it makes, whether it returns
    them or raises on the way. *)
Lemma loop_shape (l : list X) :
  forall jl w,
    exists new,
      Forall (fun job => exists x, In x l /\ made x job) new /\
      fst (loop l jl w) = recorded_all new w /\
      (forall jl', snd (loop l jl w) = Return jl' -> jl' = (jl ++ new)%list).
Proof.
  induction l as [|x l IH]; intros jl w.
  - exists []. rewrite loop_nil. split; [constructor|]. split; [reflexivity|].
    intros jl' E. injection E as <-. now rewrite app_nil_r.
  - rewrite loop_cons. unfold bind.
    destruct (step_shape x jl w) as [[e ->] | [-> | (job & -> & Mk)]].
    + exists []. split; [constructor|]. split; [reflexivity | discriminate].
    + destruct (IH jl w) as (new & F & W & R). exists new.
      split; [|split; [exact W | exact R]].
      eapply Forall_impl; [|exact F]. intros j (y & I & K). exists y. split; [now right | exact K].
    + destruct (IH (jl ++ [job])%list (recorded job w)) as (new & F & W & R).
      exists (job :: new). split; [|split].
      * constructor; [exists x; split; [now left | exact Mk]|].
        eapply Forall_impl; [|exact F]. intros j (y & I & K). exists y.
        split; [now right | exact K].
      * now rewrite W, recorded_all_cons.
      * intros jl' E. rewrite (R jl' E). now rewrite <- app_assoc.
Qed.

End LoopShape.

Lemma remoteok_loop_shape (self : JobBot) (l : list pyval) (jl : list job_data)
      (w : world) :
  exists new,
    Forall (fun job => exists entry, In entry l /\ remoteok_record_of self entry job) new /\
    fst (remoteok_loop self l jl w) = recorded_all new w /\
    (forall jl', snd (remoteok_loop self l jl w) = Return jl' -> jl' = (jl ++ new)%list).
Proof.
  apply (loop_shape pyval (remoteok_entry self) (remoteok_loop self)); try reflexivity.
  apply remoteok_entry_shape.
Qed.

Lemma remotive_loop_shape (self : JobBot) (l : list pyval) (jl : list job_data)
      (w : world) :
  exists new,
    Forall (fun job => exists entry, In entry l /\ remotive_record_of self entry job) new /\
    fst (remotive_loop self l jl w) = recorded_all new w /\
    (forall jl', snd (remotive_loop self l jl w) = Return jl' -> jl' = (jl ++ new)%list).
Proof.
  apply (loop_shape pyval (remotive_entry self) (remotive_loop self)); try reflexivity.
  apply remotive_entry_shape.
Qed.

Lemma fetch_remoteok_jobs_body (self : JobBot) (l : list pyval) (w : world) :
  fetch_remoteok_jobs self (Body (Some (PList l))) w
  = try_except (remoteok_loop self (List.tl l) []) (fun _ => ret []) w.
Proof. reflexivity. Qed.

(** X15. Every record the two API fetchers return is made of an object
    of the payload (for RemoteOK one after the first element) whose title
    or description matches a keyword and whose [url] is truthy: the record
    has that title, that URL, the company of the object or [Unknown], the
    address [extract_email] finds in the description, and the name of the
    source.  Nothing else is returned, whatever the payload holds, and
    both fetchers return for every answer. *)
Theorem api_records_come_from_matching_entries
    (self : JobBot) (r : fetched (option pyval)) (w : world) :
  (exists w' jobs,
      fetch_remoteok_jobs self r w = (w', Return jobs) /\
      Forall (fun job =>
                exists entry,
                  In entry (remoteok_entries r) /\ remoteok_record_of self entry job)
        jobs) /\
  (exists w' jobs,
      fetch_remotive_jobs self r w = (w', Return jobs) /\
      Forall (fun job =>
                exists entry,
                  In entry (remotive_entries r) /\ remotive_record_of self entry job)
        jobs).
Proof.
  split.
  - destruct (remoteok_fetch_failed r) eqn:F.
    + exists w, []. rewrite (fetch_remoteok_jobs_failed self r w F).
      split; [reflexivity | constructor].
    + destruct r as [e|s|[[]|]]; try discriminate.
      rewrite fetch_remoteok_jobs_body. cbn [remoteok_entries]. unfold try_except.
      destruct (remoteok_loop_shape self (List.tl l) [] w) as (new & Fa & _ & R).
      destruct (remoteok_loop self (List.tl l) [] w) as [w' [e|jl]].
      * exists w', []. split; [reflexivity | constructor].
      * exists w', jl. split; [reflexivity|]. now rewrite (R jl eq_refl).
  - destruct (remotive_fetch_failed r) eqn:F.
    + exists w, []. rewrite (fetch_remotive_jobs_failed self r w F).
      split; [reflexivity | constructor].
    + destruct r as [e|s|[[]|]]; try discriminate.
      rewrite (fetch_remotive_jobs_body self items w F). unfold try_except.
      destruct (remotive_loop_shape self (remotive_entries (Body (Some (PDict items)))) [] w)
        as (new & Fa & _ & R).
      destruct (remotive_loop self (remotive_entries (Body (Some (PDict items)))) [] w)
        as [w' [e|jl]].
      * exists w', []. split; [reflexivity | constructor].
      * exists w', jl. split; [reflexivity|]. now rewrite (R jl eq_refl).
Qed.

(** ** A fetch that breaks off *)

Section BrokenLoop.

Variables (X : Type) (step : X -> list job_data -> M (list job_data)).
Variable loop : list X -> list job_data -> M (list job_data).
Hypothesis loop_nil : forall jl w, loop [] jl w = (w, Return jl).
Hypothesis loop_cons : forall x l jl w,
    loop (x :: l) jl w = bind (step x jl) (loop l) w.

(** A loop that meets an element on which its body raises ends in the
    world the elements before it left. *)
Lemma loop_breaks_off (before after : list X) (x : X) :
  (forall jl w, exists e, step x jl w = (w, Raise e)) ->
  forall jl w,
    exists e, loop (before ++ x :: after) jl w = (fst (loop before jl w), Raise e).
Proof.
  intro H. induction before as [|y before IH]; intros jl w.
  - cbn [app]. rewrite loop_cons, loop_nil. unfold bind.
    destruct (H jl w) as [e ->]. now exists e.
  - cbn [app]. rewrite !loop_cons. unfold bind.
    destruct (step y jl w) as [w1 [e|jl1]]; [now exists e | apply IH].
Qed.

End BrokenLoop.

Lemma try_except_world (body : M (list job_data)) (w : world) :
  fst (try_except body (fun _ => ret []) w) = fst (body w).
Proof. unfold try_except. now destruct (body w) as [w' [e|jl]]. Qed.

Lemma fetch_remotive_jobs_list (self : JobBot) (l : list pyval) (w : world) :
  fetch_remotive_jobs self (remotive_body l) w
  = try_except (remotive_loop self l []) (fun _ => ret []) w.
Proof.
  unfold remotive_body.
  now rewrite (fetch_remotive_jobs_body self [("jobs", PList l)] w eq_refl).
Qed.

(** X16. An element of the payload that is not an object makes the two
    API fetchers return the empty list, but the rows of the records made of
    the elements before it stay in the file: the fetch ends in the very
    world a fetch of those elements alone would leave, in which their rows
    are written, and none of their records is returned. *)
Theorem rows_before_a_broken_entry_stay
    (self : JobBot) (meta : pyval) (before after : list pyval) (bad : pyval) (w : world) :
  is_dict bad = false ->
  (fetch_remoteok_jobs self (remoteok_body meta (before ++ bad :: after)) w
   = (fst (fetch_remoteok_jobs self (remoteok_body meta before) w), Return []) /\
   exists written,
     fst (fetch_remoteok_jobs self (remoteok_body meta before) w) = recorded_all written w /\
     Forall (fun job => exists entry, In entry before /\ remoteok_record_of self entry job)
       written /\
     (forall jobs, snd (remoteok_loop self before [] w) = Return jobs -> jobs = written)) /\
  (fetch_remotive_jobs self (remotive_body (before ++ bad :: after)) w
   = (fst (fetch_remotive_jobs self (remotive_body before) w), Return []) /\
   exists written,
     fst (fetch_remotive_jobs self (remotive_body before) w) = recorded_all written w /\
     Forall (fun job => exists entry, In entry before /\ remotive_record_of self entry job)
       written /\
     (forall jobs, snd (remotive_loop self before [] w) = Return jobs -> jobs = written)).
Proof.
  intro D. split.
  - unfold remoteok_body. rewrite !fetch_remoteok_jobs_body. cbn [List.tl].
    rewrite try_except_world. split.
    + destruct (loop_breaks_off pyval (remoteok_entry self) (remoteok_loop self)
                  (fun _ _ => eq_refl) (fun _ _ _ _ => eq_refl) before after bad
                  (remoteok_entry_not_dict self bad D) [] w) as [e E].
      unfold try_except. now rewrite E.
    + destruct (remoteok_loop_shape self before [] w) as (new & F & W & R).
      exists new. split; [exact W|]. split; [exact F|]. intros jobs E. now apply R.
  - rewrite !fetch_remotive_jobs_list. rewrite try_except_world. split.
    + destruct (loop_breaks_off pyval (remotive_entry self) (remotive_loop self)
                  (fun _ _ => eq_refl) (fun _ _ _ _ => eq_refl) before after bad
                  (remotive_entry_not_dict self bad D) [] w) as [e E].
      unfold try_except. now rewrite E.
    + destruct (remotive_loop_shape self before [] w) as (new & F & W & R).
      exists new. split; [exact W|]. split; [exact F|]. intros jobs E. now apply R.
Qed.

Lemma rows_before_a_broken_entry_stay_witness :
  let w := world_at morning (Some EmptyString) in
  is_dict PNone = false /\
  fetch_remoteok_jobs sample_bot (remoteok_body metadata ([python_entry] ++ PNone :: [])) w
  = (fst (fetch_remoteok_jobs sample_bot (remoteok_body metadata [python_entry]) w),
     Return []).
Proof.
  split; [reflexivity|].
  exact (proj1 (proj1 (rows_before_a_broken_entry_stay sample_bot metadata
                         [python_entry] [] PNone
                         (world_at morning (Some EmptyString)) eq_refl))).
Defined.
